(** * Wildlife-Video-Captioning: the preprocessing pipeline of
      [code/preprocess.py], embedded and checked against its specification.

    The pipeline turns every video of a directory into two feature files:
    [video.npy] (one embedding row per sampled frame) and [audio.npy] (MFCC
    coefficients of the one-second audio segments).

    Conventions of the embedding:
    - Python exceptions are values of [exn]; a computation returns
      [Ok v] or [Raise e] together with the state it leaves behind, because
      the files written before an exception stay on disk.
    - The state is the content of [opt['output_dir']] (a finite map from
      entry names to files and per-video directories), the lines printed on
      standard output and the module-level names [C, H, W].
    - The external collaborators (ffmpeg, the directory enumeration order of
      the operating system, [LoadTransformImage], the pretrained networks,
      librosa's [mfcc]) are the fields of a record [Env].
    - numpy computes in float64. The numbers are rationals ([Q]) and every
      arithmetic result of [np.linspace] is rounded to the nearest float64
      ([Np.fl64], ties to even; [Np.linspace_fl]); [np.round] is rounding
      half to even. The sampler without any rounding ([Np.linspace]) stands
      next to it.
    - A directory of [output_dir] is named by a video identifier. The
      identifier is spliced into paths and shell commands as it is; where a
      property needs the directory to be an entry of [output_dir] of its own
      (a non-empty name) that [glob] reads literally (no [*], [?] or [[]),
      it says so. *)

From stdpp Require Import base option list strings gmap sorting.
From Stdlib Require Import Ascii ZArith QArith Qround Qpower Lia Lqa.

Open Scope string_scope.
Open Scope Z_scope.

(** ** Python values and exceptions *)

Inductive exn : Type :=
  | IndexError          (* list index out of range *)
  | ValueError          (* numpy: bad argument or mismatching dimensions *)
  | RuntimeError        (* torch: tensor shapes do not fit *)
  | OSError             (* FileNotFoundError, NotADirectoryError and the like *)
  | UnboundLocalError.  (* a local variable read before any assignment *)

Inductive result (A : Type) : Type :=
  | Ok (a : A)
  | Raise (e : exn).
Arguments Ok {A} a.
Arguments Raise {A} e.

Definition is_ok {A} (r : result A) : bool :=
  match r with Ok _ => true | Raise _ => false end.

(** [l[i]] on a Python list: indices [-len .. len-1] are valid, negative
    ones count from the end. *)
Definition getitem {A} (l : list A) (i : Z) : result A :=
  let len := Z.of_nat (length l) in
  let j := if i <? 0 then i + len else i in
  if (j <? 0) || (len <=? j) then Raise IndexError
  else match l !! Z.to_nat j with
       | Some a => Ok a
       | None => Raise IndexError
       end.

(** ** Strings: [str.split], [str.endswith] and the video identifier *)

Module Str.

(** [s.split(sep)] for a one-character separator: never empty, [n]
    separators give [n + 1] fields. *)
Fixpoint split (sep : ascii) (s : string) : list string :=
  match s with
  | EmptyString => [EmptyString]
  | String c s' =>
      if Ascii.eqb c sep then EmptyString :: split sep s'
      else match split sep s' with
           | w :: ws => String c w :: ws
           | [] => [String c EmptyString]
           end
  end.

Fixpoint occurs (c : ascii) (s : string) : bool :=
  match s with
  | EmptyString => false
  | String d s' => Ascii.eqb d c || occurs c s'
  end.

Definition startswith (s p : string) : bool := String.prefix p s.

Fixpoint drop (n : nat) (s : string) : string :=
  match n, s with
  | O, _ => s
  | S n', String _ s' => drop n' s'
  | S _, EmptyString => EmptyString
  end.

Definition endswith (s suf : string) : bool :=
  (String.length suf <=? String.length s)%nat &&
  String.eqb (drop (String.length s - String.length suf) s) suf.

(** [l[-1]] and [l[0]] of a list of fields; [split] never returns the empty
    list, so the defaults are not reachable from [video_id]. *)
Definition last_field (l : list string) : string := List.last l EmptyString.
Definition first_field (l : list string) : string := List.hd EmptyString l.

(** [video.split("/")[-1].split(".")[0]] (lines 57, 104 and 127). *)
Definition video_id (video : string) : string :=
  first_field (split "."%char (last_field (split "/"%char video))).

(** The identifier as the specification words it: the file name with its
    extension, the part from the last dot on, removed. *)
Fixpoint strip_extension (name : string) : string :=
  match name with
  | EmptyString => EmptyString
  | String c s' =>
      if occurs "."%char s' then String c (strip_extension s')
      else if Ascii.eqb c "."%char then EmptyString
      else String c s'
  end.

Definition basename (path : string) : string := last_field (split "/"%char path).

End Str.

(** ** The exception monad of pure library calls *)

Definition rbind {A B} (r : result A) (k : A -> result B) : result B :=
  match r with
  | Ok a => k a
  | Raise e => Raise e
  end.

Definition rmap {A B} (f : A -> B) (r : result A) : result B :=
  rbind r (fun a => Ok (f a)).

(** A list comprehension [[f x for x in l]] whose body may raise. *)
Fixpoint rmapM {A B} (f : A -> result B) (l : list A) : result (list B) :=
  match l with
  | [] => Ok []
  | x :: l' => rbind (f x) (fun y => rbind (rmapM f l') (fun ys => Ok (y :: ys)))
  end.

(** ** numpy: [linspace], [round], and the frame sampler (lines 64-66) *)

Module Np.

(** [np.round] on one value: the nearest integer, a tie going to the even
    neighbour. *)
Definition round_half_even (q : Q) : Z :=
  let f := Qfloor q in
  match (q - inject_Z f ?= 1 # 2)%Q with
  | Lt => f
  | Gt => f + 1
  | Eq => if Z.even f then f else f + 1
  end.

Definition round (q : Q) : Q := inject_Z (round_half_even q).

(** [int(x)] on a float: truncation towards zero. *)
Definition int (q : Q) : Z :=
  if Qle_bool 0 q then Qfloor q else Qceiling q.

(** *** The sampler without rounding

    [np.linspace(start, stop, num)] with the default [endpoint=True] in
    exact arithmetic: [num] evenly spaced positions, the last one set to
    [stop] itself; a negative [num] is refused. *)
Definition linspace (start stop : Q) (num : Z) : result (list Q) :=
  if num <? 0 then Raise ValueError
  else if num =? 1 then Ok [start]
  else
    let div := num - 1 in
    let step := ((stop - start) / inject_Z div)%Q in
    Ok (map (fun i => if i =? div then stop
                      else (start + inject_Z i * step)%Q)
            (seqZ 0 num)).

(** [np.round(np.linspace(0, len(image_list) - 1, opt['n_frame_steps']))] *)
Definition frame_samples (len n_frame_steps : Z) : result (list Q) :=
  rmap (map round) (linspace 0 (inject_Z (len - 1)) n_frame_steps).

(** The indices [int(sample) for sample in samples]. *)
Definition sample_indices (len n_frame_steps : Z) : result (list Z) :=
  rmap (map int) (frame_samples len n_frame_steps).

(** [[image_list[int(sample)] for sample in samples]] *)
Definition select_frames {A} (image_list : list A) (n_frame_steps : Z)
  : result (list A) :=
  rbind (sample_indices (Z.of_nat (length image_list)) n_frame_steps)
        (rmapM (getitem image_list)).

(** *** The sampler as numpy computes it

    numpy computes [linspace] in float64: every arithmetic result is rounded
    to a representable number. [linspace_fl fl] is that computation with the
    rounding [fl] made explicit (numpy's [linspace], [endpoint=True]): the
    step is [delta / div]; position [i] is [i * step + start], or
    [(i / div) * delta + start] when the step came out as zero; the last
    position is set to [stop]. The program runs it with [fl64] below; with
    [fl] the identity it is [linspace]. [start] and [stop] are integers the
    caller passes; they are float64 themselves up to [2^53]. *)
Definition linspace_fl (fl : Q -> Q) (start stop : Q) (num : Z)
  : result (list Q) :=
  if num <? 0 then Raise ValueError
  else if num =? 1 then Ok [start]
  else
    let div := num - 1 in
    let delta := fl (stop - start)%Q in
    let step := fl (delta / inject_Z div)%Q in
    Ok (map (fun i =>
               if i =? div then stop
               else if Qeq_bool step 0
                    then fl (fl (fl (inject_Z i / inject_Z div) * delta) + start)
                    else fl (fl (inject_Z i * step) + start))%Q
            (seqZ 0 num)).

Definition sample_indices_fl (fl : Q -> Q) (len n_frame_steps : Z)
  : result (list Z) :=
  rmap (map int)
       (rmap (map round) (linspace_fl fl 0 (inject_Z (len - 1)) n_frame_steps)).

(** Lines 64-66 with the rounding [fl]. *)
Definition select_frames_fl {A} (fl : Q -> Q) (image_list : list A)
    (n_frame_steps : Z) : result (list A) :=
  rbind (sample_indices_fl fl (Z.of_nat (length image_list)) n_frame_steps)
        (rmapM (getitem image_list)).

(** float64 rounding. A float64 is [m * 2^e] with [|m| < 2^53]; a number
    [x] with [2^k <= |x| < 2^(k+1)] is rounded to the nearest multiple of
    [2^(k-52)], a tie going to the even multiple. The exponent is not
    bounded here: no value of the sampler is near the ends of the range of
    float64 (overflow beyond [2^1024], subnormal numbers below
    [2^-1022]). *)

(** [floor (log2 x)] for a positive [x]. *)
Definition ilog2 (x : Q) : Z :=
  let k := Z.log2 (Qnum x) - Z.log2 (Z.pos (Qden x)) in
  if Qle_bool (2 ^ k) x then k else k - 1.

Definition fl_pos (x : Q) : Q :=
  let e := ilog2 x - 52 in
  (inject_Z (round_half_even (x / 2 ^ e)) * 2 ^ e)%Q.

Definition fl64 (x : Q) : Q :=
  match (x ?= 0)%Q with
  | Eq => 0%Q
  | Gt => fl_pos x
  | Lt => (- fl_pos (- x))%Q
  end.

(** Position [i] of [linspace_fl fl 0 stop (div + 1)]. *)
Definition position_fl (fl : Q -> Q) (stop : Q) (div i : Z) : Q :=
  let delta := fl (stop - 0)%Q in
  let step := fl (delta / inject_Z div)%Q in
  (if i =? div then stop
   else if Qeq_bool step 0
        then fl (fl (fl (inject_Z i / inject_Z div) * delta) + 0)
        else fl (fl (inject_Z i * step) + 0))%Q.

(** What is used of float64 rounding (to nearest): it is monotone, it
    leaves the integers up to [2^53] alone, and it enlarges a quotient of
    such integers by at most the relative error [2^-53]. *)
Record float_like (fl : Q -> Q) : Prop := {
  fl_mono : forall x y, (x <= y)%Q -> (fl x <= fl y)%Q;
  fl_integer : forall z, 0 <= z <= 2 ^ 53 -> (fl (inject_Z z) == inject_Z z)%Q;
  fl_quotient : forall a b, 0 <= a <= 2 ^ 53 -> 1 <= b <= 2 ^ 53 ->
    (fl (inject_Z a / inject_Z b)
       <= (inject_Z a / inject_Z b) * (1 + (1 # 2 ^ 53)))%Q
}.

(** Position [i] of [linspace 0 stop (div + 1)]. *)
Definition position (stop : Q) (div i : Z) : Q :=
  if i =? div then stop else (0 + inject_Z i * ((stop - 0) / inject_Z div))%Q.

(** The index the sampler derives from one position. *)
Definition index_of (q : Q) : Z := int (round q).

End Np.

(** ** numpy: two-dimensional arrays *)

(** A 2-D array keeps its shape next to its rows: an array of shape
    [(0, 20)] has no row to read the second length from. *)
Record matrix : Type := Mat {
  nrows : nat;
  ncols : nat;
  cells : list (list Q)
}.

Definition shape (m : matrix) : nat * nat := (nrows m, ncols m).

Definition well_shaped (m : matrix) : Prop :=
  length (cells m) = nrows m /\ Forall (fun r => length r = ncols m) (cells m).

(** [np.zeros((r, c))] *)
Definition zeros (r c : nat) : matrix := Mat r c (replicate r (replicate c 0%Q)).

(** [np.concatenate((a, b), axis=1)]: the arrays must agree on axis 0. *)
Definition concatenate1 (a b : matrix) : result matrix :=
  if decide (nrows a = nrows b)
  then Ok (Mat (nrows a) (ncols a + ncols b) (zip_with app (cells a) (cells b)))
  else Raise ValueError.

(** [m.T] *)
Definition transpose (m : matrix) : matrix :=
  Mat (ncols m) (nrows m)
      (map (fun j => map (fun r => nth j r 0%Q) (cells m)) (seq 0 (ncols m))).

(** ** Audio segments (lines 139-148) *)

(** What [wavfile.read] returns: the sample rate of the header and the
    data. For one channel the data is a 1-D array, the samples
    [audio_info]. For [c] channels it is an array of shape [(N, c)];
    [audio_info] then keeps one entry per row. *)
Record wav : Type := Sound {
  channels : Z;
  sample_rate : Z;
  audio_info : list Z
}.

(** A mono file. *)
Definition Wav (sample_rate : Z) (audio_info : list Z) : wav :=
  Sound 1 sample_rate audio_info.

(** Lines 140-144: the segment is padded with zeros at the tail, or cut, to
    16000 samples. *)
Definition pad_or_truncate (audio_info : list Z) : list Z :=
  let audio_length := Z.of_nat (length audio_info) in
  if audio_length <=? 16000
  then audio_info ++ replicate (Z.to_nat (16000 - audio_length)) 0
  else take (Z.to_nat 16000) audio_info.

(** The number of samples of a one-second segment, as the specification
    defines it: [sample_rate * 1s]. *)
Definition segment_samples (sample_rate : Z) : Z := sample_rate * 1.

(** ** torch: the image batch *)

(** A tensor is its shape and its content, kept per entry of the first axis
    of the batch it was allocated as; [pix] is the content of one image. *)
Record tensor (pix : Type) : Type := Tensor {
  tshape : list nat;
  titems : list pix
}.
Arguments Tensor {pix} tshape titems.
Arguments tshape {pix} t.
Arguments titems {pix} t.

(** What [load_image_fn] returns: a [C x H x W] tensor. *)
Record image (pix : Type) : Type := Image {
  ishape : list nat;
  ipix : pix
}.
Arguments Image {pix} ishape ipix.
Arguments ishape {pix} i.
Arguments ipix {pix} i.

(** [torch.zeros((n, C, H, W))] *)
Definition torch_zeros {pix} (zero : pix) (n C H W : nat) : tensor pix :=
  Tensor [n; C; H; W] (replicate n zero).

(** [images[i] = img]: the value has to fit the slot [images[i]]. torch
    broadcasts axes of length 1; the images of this program have none, so
    fitting is having the shape of the slot. *)
Definition setitem {pix} (images : tensor pix) (i : nat) (img : image pix)
  : result (tensor pix) :=
  match tshape images with
  | n :: slot =>
      if decide (i < n)%nat then
        if decide (ishape img = slot)
        then Ok (Tensor (tshape images) (<[i := ipix img]> (titems images)))
        else Raise RuntimeError
      else Raise IndexError
  | [] => Raise IndexError
  end.

(** [t.squeeze()]: every axis of length 1 is removed. *)
Definition squeeze {pix} (t : tensor pix) : tensor pix :=
  Tensor (filter (fun d => d <> 1%nat) (tshape t)) (titems t).

(** The supported encoders of [pretrainedmodels] and the input size each one
    declares; lines 191, 195 and 199 repeat them. *)
Inductive encoder : Type := resnet152 | inception_v3 | vgg16.

Definition input_size (enc : encoder) : nat * nat * nat :=
  match enc with
  | resnet152 => (3, 224, 224)
  | inception_v3 => (3, 299, 299)
  | vgg16 => (3, 224, 224)
  end%nat.

(** ** Names of the files ffmpeg writes: [%06d.jpg] and [%02d.wav] *)

Module Fmt.

Definition digit (d : nat) : ascii := ascii_of_nat (48 + d).

(** Decimal digits, most significant first; [fuel] bounds the number of
    digits and [S n] is always enough for [n]. *)
Fixpoint digits (fuel n : nat) : list nat :=
  match fuel with
  | O => []
  | S fuel' =>
      if (n <? 10)%nat then [n]
      else digits fuel' (n / 10) ++ [(n mod 10)%nat]
  end.

Definition decimal (n : nat) : string :=
  String.string_of_list_ascii (map digit (digits (S n) n)).

(** [%0wd]: at least [w] digits, zeros in front. *)
Definition zero_padded (w n : nat) : string :=
  let s := decimal n in
  String.string_of_list_ascii (replicate (w - String.length s) "0"%char) +:+ s.

(** Frame [k] of [ffmpeg ... dst/%06d.jpg]; the first frame is number 1. *)
Definition jpg_name (k : nat) : string := zero_padded 6 k +:+ ".jpg".

(** Segment [k] of [ffmpeg ... -f segment ... dst/%02d.wav]; the first
    segment is number 0. *)
Definition wav_name (k : nat) : string := zero_padded 2 k +:+ ".wav".

End Fmt.

(** ** Options, files, and the external collaborators *)

(** The dictionary [opt] built by [argparse] (lines 158-176). *)
Record options : Type := Options {
  video_dir : string;
  output_dir : string;
  output_channels : Z;
  output_frequency : Z;
  band_width : Z;
  model : string;
  gpu : string;
  n_frame_steps : Z
}.

(** The defaults of the parser. *)
Definition default_options : options :=
  {| video_dir := "../msrvtt_2017/train-video";
     output_dir := "../msrvtt_2017/preprocessed";
     output_channels := 1;
     output_frequency := 16000;
     band_width := 160;
     model := "resnet152";
     gpu := "0";
     n_frame_steps := 80 |}.

Section Pipeline.

(** [frame]: the content of a decoded [.jpg]; [pix]: the content of a
    transformed image; [row]: one embedding. *)
Context {frame pix row : Type}.

Inductive file : Type :=
  | Jpg (f : frame)
  | WavFile (w : wav)
  | VideoNpy (image_feats : list row)
  | AudioNpy (output : matrix).

(** An entry of [output_dir]: a file, or the directory of one video.
    [output_dir/<name>] is the entry [name] for a name that is not empty.
    A file name that starts with a dot has the empty identifier, and the
    path [output_dir/] then is [output_dir] itself; the embedding keeps an
    entry of its own under the empty name instead, so what is stated of
    the directory of a single video or track is stated for an identifier
    that is not empty. *)
Inductive node : Type :=
  | File (f : file)
  | Dir (d : gmap string file).

Record Env : Type := {
  (** the frames the command of line 33 decodes from the video at this
      path, in temporal order; none when the command fails, as it does for
      a path the shell does not pass on as one word *)
  ffmpeg_frames : string -> list frame;
  (** the samples of the audio track the command of line 107 extracts from
      the video at this path with [-ab], [-ac] and [-ar]; [None] when the
      video has no sound or the command fails *)
  ffmpeg_audio : string -> Z -> Z -> Z -> option (list Z);
  (** the segments the command [ffmpeg -i <audio> -f segment -segment_time 1
      -c copy ...] cuts from the file at the path [audio], given the content
      of that file, in temporal order; none when the command fails, as it
      does for a path the shell does not pass on as one word. ffmpeg cuts at
      packet boundaries, so a segment need not have exactly one second of
      samples *)
  ffmpeg_segments : string -> wav -> list (list Z);
  (** the order in which the operating system enumerates the entries of a
      directory ([os.listdir], [glob.glob]) *)
  listdir_order : list string -> list string;
  (** [utils.LoadTransformImage(model)] on a decoded frame *)
  transform : encoder -> frame -> pix;
  (** the content of an all-zero image *)
  zero_pix : pix;
  (** the network with [last_linear = Identity], in evaluation mode, on one
      image of the batch *)
  embed : encoder -> pix -> row;
  (** [librosa.feature.mfcc(y, sr=sr)] *)
  mfcc : list Z -> Z -> matrix
}.

(** What the collaborators are known to guarantee: an enumeration lists the
    entries, each once; [mfcc] returns [n_mfcc = 20] rows (librosa's
    default) of equal length. *)
Record env_ok (E : Env) : Prop := {
  listdir_perm : forall l, listdir_order E l ≡ₚ l;
  mfcc_rows : forall y sr, nrows (mfcc E y sr) = 20%nat;
  mfcc_shaped : forall y sr, well_shaped (mfcc E y sr)
}.

(** ** The state and the monad of the program *)

Record state : Type := State {
  st_fs : gmap string node;     (* the entries of [opt['output_dir']] *)
  st_out : list string;         (* standard output, oldest line first *)
  st_CHW : nat * nat * nat      (* the module-level names [C, H, W] *)
}.

(** Line 21: [C, H, W = 3, 224, 224] at import. *)
Definition initial_state (fs : gmap string node) : state :=
  State fs [] (3, 224, 224)%nat.

Definition M (A : Type) : Type := state -> result A * state.

#[global] Instance M_ret : MRet M := fun A a st => (Ok a, st).
#[global] Instance M_bind : MBind M := fun A B k m st =>
  match m st with
  | (Ok a, st') => k a st'
  | (Raise e, st') => (Raise e, st')
  end.

(** The state with another content of [output_dir]. *)
Definition with_fs (st : state) (fs : gmap string node) : state :=
  State fs (st_out st) (st_CHW st).

(** A library call that returns or raises without touching the state. *)
Definition lift {A} (r : result A) : M A := fun st => (r, st).

Definition get_fs : M (gmap string node) := fun st => (Ok (st_fs st), st).

Definition set_fs (fs : gmap string node) : M unit := fun st =>
  (Ok (), with_fs st fs).

Definition print (line : string) : M unit := fun st =>
  (Ok (), State (st_fs st) (st_out st ++ [line]) (st_CHW st)).

(** Reading the module-level [C, H, W] (under [global C, H, W]). *)
Definition global_CHW : M (nat * nat * nat) := fun st => (Ok (st_CHW st), st).

(** [for x in l: body] *)
Fixpoint for_each {A} (l : list A) (body : A -> M unit) : M unit :=
  match l with
  | [] => mret ()
  | x :: l' => body x ;; for_each l' body
  end.

(** A loop that rebinds one variable [acc] on every round. *)
Fixpoint for_fold {A B} (l : list A) (acc : B) (body : B -> A -> M B) : M B :=
  match l with
  | [] => mret acc
  | x :: l' => acc' ← body acc x; for_fold l' acc' body
  end.

Definition raise {A} (e : exn) : M A := lift (Raise e).

(** ** The file system under [output_dir] *)

(** The names of a directory, in the order the operating system lists
    them. *)
Definition entries (E : Env) {A} (d : gmap string A) : list string :=
  listdir_order E (map fst (map_to_list d)).

(** [os.path.exists(output_dir/name)] *)
Definition path_exists (name : string) : M bool :=
  fs ← get_fs; mret (bool_decide (is_Some (fs !! name))).

(** [os.mkdir(output_dir/name)] *)
Definition mkdir (name : string) : M unit :=
  fs ← get_fs;
  match fs !! name with
  | None => set_fs (<[name := Dir ∅]> fs)
  | Some _ => raise OSError
  end.

(** [shutil.rmtree(output_dir/name)]: refuses what is not a directory. *)
Definition rmtree (name : string) : M unit :=
  fs ← get_fs;
  match fs !! name with
  | Some (Dir _) => set_fs (delete name fs)
  | _ => raise OSError
  end.

(** [os.listdir(output_dir)] *)
Definition listdir_root (E : Env) : M (list string) :=
  fs ← get_fs; mret (entries E fs).

(** [os.listdir(output_dir/dir)] *)
Definition listdir (E : Env) (dir : string) : M (list string) :=
  fs ← get_fs;
  match fs !! dir with
  | Some (Dir d) => mret (entries E d)
  | _ => raise OSError
  end.

(** [os.remove(output_dir/name)]: refuses directories and missing files. *)
Definition remove_root (name : string) : M unit :=
  fs ← get_fs;
  match fs !! name with
  | Some (File _) => set_fs (delete name fs)
  | _ => raise OSError
  end.

(** [os.remove(output_dir/dir/name)] *)
Definition remove (dir name : string) : M unit :=
  fs ← get_fs;
  match fs !! dir with
  | Some (Dir d) =>
      match d !! name with
      | Some _ => set_fs (<[dir := Dir (delete name d)]> fs)
      | None => raise OSError
      end
  | _ => raise OSError
  end.

(** [np.save(output_dir/dir/name, array)] *)
Definition np_save (dir name : string) (f : file) : M unit :=
  fs ← get_fs;
  match fs !! dir with
  | Some (Dir d) => set_fs (<[dir := Dir (<[name := f]> d)]> fs)
  | _ => raise OSError
  end.

(** The files one ffmpeg call leaves in [output_dir/dir]. Its exit status
    and its messages are discarded ([subprocess.call] with both streams on
    [os.devnull]): when [dir] is no directory nothing is written and the
    program goes on. *)
Definition ffmpeg_write (dir : string) (files : list (string * file)) : M unit :=
  fs ← get_fs;
  match fs !! dir with
  | Some (Dir d) =>
      set_fs (<[dir := Dir (foldl (fun d nf => <[nf.1 := nf.2]> d) d files)]> fs)
  | _ => mret ()
  end.

(** One file written by ffmpeg into [output_dir] itself; without [-y]
    ffmpeg leaves an existing file as it is. *)
Definition ffmpeg_write_root (name : string) (f : file) : M unit :=
  fs ← get_fs;
  match fs !! name with
  | None => set_fs (<[name := File f]> fs)
  | Some _ => mret ()
  end.

(** [os.path.join(a, b)] for a relative [b] *)
Definition path_join (a b : string) : string :=
  if String.eqb a EmptyString then b
  else if Str.endswith a "/" then a +:+ b
  else a +:+ "/" +:+ b.

(** [fnmatch] of a name against [*.ext], as [glob] applies it: names that
    start with a dot are hidden from [*]. *)
Definition glob_match (ext name : string) : bool :=
  Str.endswith name ext && negb (Str.startswith name ".").

(** [glob.has_magic]: the path holds a character [glob] reads as a pattern.
    A directory part with such a character is matched against the entries
    on disk instead of being read as it is. *)
Definition has_magic (path : string) : bool :=
  Str.occurs "*" path || Str.occurs "?" path || Str.occurs "[" path.

Definition str_le (a b : string) : Prop := String.leb a b = true.

#[global] Instance str_le_dec (a b : string) : Decision (str_le a b) :=
  decide (String.leb a b = true).

(** Python's [sorted] on strings *)
Definition sorted (l : list string) : list string := merge_sort str_le l.

(** ** Frames: [extract_frame] and [extract_image_feats] (lines 23-79) *)

(** Lines 32-34: the frames of [video] as [dst/000001.jpg, ...]. *)
Definition extract_frame (E : Env) (video dst : string) : M unit :=
  ffmpeg_write dst
    (imap (fun k f => (Fmt.jpg_name (S k), Jpg f)) (ffmpeg_frames E video)).

(** Line 63: [sorted(glob.glob(os.path.join(dst, '*.jpg')))], as names
    inside [dst], for a path [output_dir/dst] that [glob] reads as it is
    ([has_magic] is false of it). *)
Definition glob_jpg_sorted (E : Env) (dst : string) : M (list string) :=
  fs ← get_fs;
  match fs !! dst with
  | Some (Dir d) => mret (sorted (filter (fun n => glob_match ".jpg" n) (entries E d)))
  | _ => mret []
  end.

Definition shape_of (s : nat * nat * nat) : list nat :=
  let '(c, h, w) := s in [c; h; w].

(** [load_image_fn = utils.LoadTransformImage(model)]: opens the file and
    returns a tensor of the input size of [model]. *)
Definition load_image_fn (E : Env) (enc : encoder) (dst name : string)
  : M (image pix) :=
  fs ← get_fs;
  match fs !! dst with
  | Some (Dir d) =>
      match d !! name with
      | Some (Jpg f) => mret (Image (shape_of (input_size enc)) (transform E enc f))
      | _ => raise OSError
      end
  | _ => raise OSError
  end.

(** The call [model(x)] of a convolutional network: [x] is a batch
    [N x C x H x W] of at least one image; the result has one row per entry
    of the batch. Any other rank, and a batch of no image, is refused by
    the layers. *)
Definition forward (E : Env) (enc : encoder) (x : tensor pix) : result (list row) :=
  match tshape x with
  | [n; _; _; _] =>
      if decide (n = 0%nat) then Raise RuntimeError
      else Ok (map (embed E enc) (titems x))
  | _ => Raise RuntimeError
  end.

(** Lines 68-70 *)
Definition fill_images (E : Env) (load : encoder) (dst : string)
    (image_list : list string) (images : tensor pix) : M (tensor pix) :=
  for_fold (seq 0 (length image_list)) images (fun images i =>
    path ← lift (getitem image_list (Z.of_nat i));
    img ← load_image_fn E load dst path;
    lift (setitem images i img)).

(** Lines 77-79 and 152-154: the transient files of [dst] are removed. *)
Definition remove_suffix (E : Env) (dst suffix : string) : M unit :=
  files ← listdir E dst;
  for_each files (fun file =>
    if Str.endswith file suffix then remove dst file else mret ()).

(** Lines 57-79: the body of the loop over the videos. [net] is the argument
    [model], [load] the encoder [load_image_fn] was built for. *)
Definition extract_image_feats_body (E : Env) (opt : options)
    (net load : encoder) (video : string) : M unit :=
  let video_id := Str.video_id video in
  let dst := video_id in
  ex ← path_exists dst;
  (if ex : bool then mret ()
   else (mkdir dst;;
         print (video_id +:+ " does not have audio information")));;
  extract_frame E video dst;;
  image_list ← glob_jpg_sorted E dst;
  image_list ← lift (Np.select_frames_fl Np.fl64 image_list (n_frame_steps opt));
  chw ← global_CHW;
  let '(C, H, W) := chw in
  let images := torch_zeros (zero_pix E) (length image_list) C H W in
  images ← fill_images E load dst image_list images;
  image_feats ← lift (forward E net (squeeze images));
  np_save dst "video.npy" (VideoNpy image_feats);;
  remove_suffix E dst ".jpg".

(** Lines 50-79. [video_names] are the entries of [opt['video_dir']]. *)
Definition extract_image_feats (E : Env) (opt : options)
    (video_names : list string) (net load : encoder) : M unit :=
  print "extracting video features...";;
  print ("save video features to " +:+ output_dir opt);;
  let video_list :=
    map (path_join (video_dir opt))
        (filter (fun n => glob_match ".mp4" n) (listdir_order E video_names)) in
  for_each video_list (extract_image_feats_body E opt net load).

(** ** Audio: [vToA] and [split_audio] (lines 83-154) *)

(** Lines 91-108. The directory [output_dir] exists when [main] calls
    [vToA] (lines 178-179), so its content is destroyed and the message is
    printed. *)
Definition vToA (E : Env) (opt : options) (video_names : list string) : M unit :=
  let dst := output_dir opt in
  print (" cleanup: " +:+ dst +:+ "/");;
  set_fs ∅;;
  for_each (listdir_order E video_names) (fun video =>
    let video := video_dir opt +:+ "/" +:+ video in
    let video_id := Str.video_id video in
    match ffmpeg_audio E video (band_width opt) (output_channels opt)
                       (output_frequency opt) with
    | Some samples =>
        ffmpeg_write_root (video_id +:+ ".wav")
                          (WavFile (Sound (output_channels opt)
                                          (output_frequency opt) samples))
    | None => mret ()
    end).

(** Lines 132-134: the segments of the entry [name] of [output_dir],
    given to ffmpeg as the path [audio], as [dst/00.wav, dst/01.wav, ...];
    [-c copy] keeps the channels and the sample rate. *)
Definition ffmpeg_segment (E : Env) (audio name dst : string) : M unit :=
  fs ← get_fs;
  match fs !! name with
  | Some (File (WavFile w)) =>
      ffmpeg_write dst
        (imap (fun k s => (Fmt.wav_name k,
                           WavFile (Sound (channels w) (sample_rate w) s)))
              (ffmpeg_segments E audio w))
  | _ => mret ()
  end.

(** [wavfile.read(output_dir/dst/segment)] *)
Definition wavfile_read (dst segment : string) : M wav :=
  fs ← get_fs;
  match fs !! dst with
  | Some (Dir d) =>
      match d !! segment with
      | Some (WavFile w) => mret w
      | Some _ => raise ValueError
      | None => raise OSError
      end
  | _ => raise OSError
  end.

(** Lines 140-148 for one segment that has been read: normalise, transform,
    append to [output] on the time axis. [astype(np.float32)] keeps the
    values of the samples. The data of a file of several channels is an
    array of shape [(N, c)]: [np.pad] pads both axes, [mfcc] takes the rows
    for channels and returns an array of three axes, and
    [np.concatenate] with the two axes of [output] raises. *)
Definition accumulate_segment (E : Env) (output : matrix) (w : wav)
  : result matrix :=
  if channels w =? 1 then
    let audio_info := pad_or_truncate (audio_info w) in
    let mfcc_feats := mfcc E audio_info (sample_rate w) in
    concatenate1 output mfcc_feats
  else Raise ValueError.

(** Lines 136-148 and the [output.T] of line 151 on segments already read,
    in the order the loop visits them. *)
Fixpoint concat_segments (E : Env) (output : matrix) (segments : list wav)
  : result matrix :=
  match segments with
  | [] => Ok output
  | w :: rest =>
      rbind (accumulate_segment E output w) (fun output' =>
        concat_segments E output' rest)
  end.

Definition audio_features (E : Env) (segments : list wav) : result matrix :=
  rmap transpose (concat_segments E (zeros 20 0) segments).

(** The number of MFCC frames one segment contributes. *)
Definition frames_of (E : Env) (w : wav) : nat :=
  ncols (mfcc E (pad_or_truncate (audio_info w)) (sample_rate w)).

(** The audio files among [names] in a directory, in the order of
    [names]. *)
Definition read_all (d : gmap string file) (names : list string) : list wav :=
  omap (fun name => match d !! name with
                    | Some (WavFile w) => Some w
                    | _ => None
                    end) names.

(** Lines 126-154: the body of the loop over the entries of [output_dir].
    [dst] is the entry [video_id] of [output_dir]. *)
Definition split_audio_body (E : Env) (opt : options) (audio : string) : M unit :=
  let name := audio in
  let audio := output_dir opt +:+ "/" +:+ audio in
  let video_id := Str.video_id audio in
  let dst := video_id in
  ex ← path_exists dst;
  (if ex : bool then rmtree dst else mret ());;
  mkdir dst;;
  ffmpeg_segment E audio name dst;;
  segments ← listdir E dst;
  output ← for_fold segments (zeros 20 0) (fun output segment =>
    w ← wavfile_read dst segment;
    lift (accumulate_segment E output w));
  np_save dst "audio.npy" (AudioNpy (transpose output));;
  remove_suffix E dst ".wav".

(** Lines 122-154 *)
Definition split_audio (E : Env) (opt : options) : M unit :=
  print "splitting audios...";;
  print ("output directory: " +:+ output_dir opt);;
  audios ← listdir_root E;
  for_each audios (split_audio_body E opt).

(** ** [main] (lines 157-209) *)

(** The local names [main] binds in lines 190-203. The assignments to
    [C, H, W] there bind locals of [main]: the function has no [global]
    statement, so the module-level names keep the values of line 21. *)
Record locals : Type := Locals {
  l_CHW : option (nat * nat * nat);
  l_model : option encoder;
  l_load_image_fn : option encoder
}.

(** Reading a local name: unbound names raise. *)
Definition read_local {A} (v : option A) : M A :=
  match v with
  | Some a => mret a
  | None => raise UnboundLocalError
  end.

(** Lines 190-203 *)
Definition select_model (name : string) : M locals :=
  if String.eqb name "resnet152" then
    mret (Locals (Some (3, 224, 224)%nat) (Some resnet152) (Some resnet152))
  else if String.eqb name "inception_v3" then
    mret (Locals (Some (3, 299, 299)%nat) (Some inception_v3) (Some inception_v3))
  else if String.eqb name "vgg16" then
    mret (Locals (Some (3, 224, 224)%nat) (Some vgg16) (Some vgg16))
  else
    print "The image model is not supported";;
    mret (Locals None None None).

(** Lines 178-209. [video_names] are the entries of [opt['video_dir']]. *)
Definition main (E : Env) (opt : options) (video_names : list string) : M unit :=
  (* lines 178-179: [output_dir] is created when it is missing; the state
     holds its content *)
  vToA E opt video_names;;
  split_audio E opt;;
  print "cleaning up original .wav files...";;
  dir ← listdir_root E;
  for_each dir (fun file =>
    if Str.endswith file ".wav" then remove_root file else mret ());;
  l ← select_model (model opt);
  (* line 205: [model.last_linear = ...] reads the local [model] *)
  net ← read_local (l_model l);
  (* lines 206-209: [DataParallel] and [cuda()] keep the network *)
  load ← read_local (l_load_image_fn l);
  extract_image_feats E opt video_names net load.

(** ** Observations on a state *)

(** The content of the directory [output_dir/id]; empty when there is no
    such directory. *)
Definition dir_of (fs : gmap string node) (id : string) : gmap string file :=
  match fs !! id with
  | Some (Dir d) => d
  | _ => ∅
  end.

(** No file of [output_dir/id] has a name that ends with [suffix]. *)
Definition no_suffix (suffix : string) (fs : gmap string node) (id : string) : Prop :=
  forall name, Str.endswith name suffix = true -> dir_of fs id !! name = None.

(** No directory of [output_dir] holds a [video.npy]. *)
Definition no_video_npy (fs : gmap string node) : Prop :=
  forall id, dir_of fs id !! "video.npy" = None.

(** What [vToA] and [split_audio] keep true of [output_dir] when the tracks
    have one channel: its files are mono audio tracks named [<id>.wav]; its
    directories are named by an identifier and hold no [video.npy].
    Identifiers have no dot and no slash. *)
Definition identifier (id : string) : Prop :=
  Str.occurs "." id = false /\ Str.occurs "/" id = false.



(** The directory of segments ffmpeg leaves of a mono track: mono audio
    files only, each with a name that ends with [.wav]. *)
Definition segment_dir (d : gmap string file) : Prop :=
  forall name f, d !! name = Some f ->
    (exists w, f = WavFile w /\ channels w = 1) /\
    Str.endswith name ".wav" = true.





(** [m] is an [audio.npy] of the track [w] at the path [audio]: the
    coefficients of the segments ffmpeg cuts from it, every segment once,
    one after the other in some order; one row per MFCC frame, twenty
    columns. *)
Definition audio_array (E : Env) (audio : string) (w : wav) (m : matrix) : Prop :=
  let segments :=
    map (Sound (channels w) (sample_rate w)) (ffmpeg_segments E audio w) in
  (exists listed, listed ≡ₚ segments /\ audio_features E listed = Ok m) /\
  shape m = (sum_list (map (frames_of E) segments), 20%nat) /\
  well_shaped m.

End Pipeline.

Arguments file : clear implicits.
Arguments node : clear implicits.
Arguments Env : clear implicits.
Arguments state : clear implicits.
Arguments M : clear implicits.

(** ** Reading the numbers of the file names back *)

Module Digits.

(** The number a list of decimal digits stands for, most significant
    first. *)
Definition value (l : list nat) : nat :=
  foldl (fun acc d => (10 * acc + d)%nat) 0%nat l.

(** The digit a character stands for. *)
Definition of_ascii (c : ascii) : nat := (nat_of_ascii c - 48)%nat.

(** The number the characters of [s] stand for. *)
Definition parse (s : string) : nat :=
  value (map of_ascii (String.list_ascii_of_string s)).

(** The characters of a list of digits. *)
Definition to_string (l : list nat) : string :=
  String.string_of_list_ascii (map Fmt.digit l).

End Digits.

(** ** A small world to run the program in *)

Module Example.

(** One video with three frames and a sound track of two segments; any
    other file has neither frames nor sound. Frames, images and embeddings
    are numbers; the stand-in for [mfcc] returns one frame of twenty
    coefficients, all equal to the first sample of the segment. *)
Definition env (order : list string -> list string) : Env Z Z Z := {|
  ffmpeg_frames := fun video =>
    if String.eqb video "videos/clip.mp4" then [10; 11; 12] else [];
  ffmpeg_audio := fun video _ _ _ =>
    if String.eqb video "videos/clip.mp4" then Some [5; 6; 7] else None;
  ffmpeg_segments := fun _ w => [take 2 (audio_info w); drop 2 (audio_info w)];
  listdir_order := order;
  transform := fun _ f => f;
  zero_pix := 0;
  embed := fun _ p => p + 100;
  mfcc := fun y sr => Mat 20 1 (replicate 20 [inject_Z (hd 0 y)])
|}.

(** Enumeration by ascending and by descending name; both are orders an
    operating system may use. *)
Definition ascending (l : list string) : list string := sorted l.
Definition descending (l : list string) : list string := reverse (sorted l).

Definition opt (model_name : string) (steps : Z) : options :=
  {| video_dir := "videos";
     output_dir := "out";
     output_channels := 1;
     output_frequency := 16000;
     band_width := 160;
     model := model_name;
     gpu := "0";
     n_frame_steps := steps |}.

(** The same options with [--output_channels 2]. *)
Definition stereo (model_name : string) (steps : Z) : options :=
  {| video_dir := "videos";
     output_dir := "out";
     output_channels := 2;
     output_frequency := 16000;
     band_width := 160;
     model := model_name;
     gpu := "0";
     n_frame_steps := steps |}.

(** A run of [main] from an empty [output_dir]. *)
Definition run (order : list string -> list string) (model_name : string)
    (steps : Z) (video_names : list string) : result () * state Z Z :=
  main (env order) (opt model_name steps) video_names (initial_state ∅).

(** The names of the files of [output_dir/id] after a run, sorted. *)
Definition files_of (st : state Z Z) (id : string) : list string :=
  sorted (map fst (map_to_list (dir_of (st_fs st) id))).

(** Two takes of one scene, without sound: the names of the files differ
    after the first dot only. *)
Definition takes : Env Z Z Z := {|
  ffmpeg_frames := fun video =>
    if String.eqb video "videos/scene.take1.mp4" then [10; 11; 12]
    else if String.eqb video "videos/scene.take2.mp4" then [20; 21]
    else [];
  ffmpeg_audio := fun _ _ _ _ => None;
  ffmpeg_segments := fun _ _ => [];
  listdir_order := ascending;
  transform := fun _ f => f;
  zero_pix := 0;
  embed := fun _ p => p + 100;
  mfcc := fun y sr => Mat 20 1 (replicate 20 [inject_Z (hd 0 y)])
|}.

End Example.

(** * Properties *)

(** ** Strings *)

Module StrFacts.
Import Str.

Lemma split_nonempty sep s : split sep s <> [].
Proof.
  destruct s as [|c s]; simpl; [discriminate|].
  destruct (Ascii.eqb c sep); [discriminate|].
  destruct (split sep s); discriminate.
Qed.

(** A string without the separator is one field. *)
Lemma split_no_sep sep s : occurs sep s = false -> split sep s = [s].
Proof.
  induction s as [|c s IH]; simpl; [reflexivity|].
  intros H. apply orb_false_iff in H as [Hc Hs].
  rewrite Hc, (IH Hs). reflexivity.
Qed.

(** The first field ends at the first separator. *)
Lemma split_first sep a b :
  occurs sep a = false ->
  split sep (a +:+ String sep b) = a :: split sep b.
Proof.
  induction a as [|c a IH]; simpl; intros H.
  - rewrite Ascii.eqb_refl. reflexivity.
  - apply orb_false_iff in H as [Hc Ha].
    rewrite Hc, (IH Ha). reflexivity.
Qed.

Lemma last_cons_nonempty {A} (x : A) l d : l <> [] -> List.last (x :: l) d = List.last l d.
Proof. destruct l; [congruence | reflexivity]. Qed.

Lemma last_field_cons c w ws :
  ws <> [] -> last_field (String c w :: ws) = last_field ws.
Proof. intros H. unfold last_field. by apply last_cons_nonempty. Qed.

(** A string that holds a separator has at least two fields. *)
Lemma split_two sep a b :
  exists w w' ws, split sep (a +:+ String sep b) = w :: w' :: ws.
Proof.
  induction a as [|c a (w & w' & ws & IH)]; simpl.
  - rewrite Ascii.eqb_refl.
    destruct (split sep b) as [|v vs] eqn:Hv; [by apply split_nonempty in Hv|].
    by eexists _, _, _.
  - rewrite IH. destruct (Ascii.eqb c sep); by eexists _, _, _.
Qed.

(** Whatever precedes a separator does not matter to the last field. *)
Lemma last_field_split sep a b :
  last_field (split sep (a +:+ String sep b)) = last_field (split sep b).
Proof.
  induction a as [|c a IH]; simpl.
  - rewrite Ascii.eqb_refl. unfold last_field.
    apply last_cons_nonempty, split_nonempty.
  - destruct (split_two sep a b) as (w & w' & ws & Hs).
    rewrite Hs in IH |- *. rewrite <- IH.
    destruct (Ascii.eqb c sep); reflexivity.
Qed.

Lemma basename_join dir name :
  occurs "/" name = false -> basename (dir +:+ "/" +:+ name) = name.
Proof.
  intros H. unfold basename.
  change (dir +:+ "/" +:+ name) with (dir +:+ String "/" name).
  rewrite last_field_split, (split_no_sep _ _ H). reflexivity.
Qed.

Lemma video_id_join dir name :
  occurs "/" name = false ->
  video_id (dir +:+ "/" +:+ name) = first_field (split "." name).
Proof.
  intros H. unfold video_id. fold (basename (dir +:+ "/" +:+ name)).
  by rewrite basename_join.
Qed.

Lemma occurs_app c a b : occurs c (a +:+ b) = occurs c a || occurs c b.
Proof.
  induction a as [|d a IH]; simpl; [reflexivity|].
  rewrite IH. by rewrite orb_assoc.
Qed.

(** The identifier of [dir/stem.rest] is [stem] when [stem] holds no dot. *)
Lemma video_id_stem dir stem rest :
  occurs "/" stem = false ->
  occurs "." stem = false ->
  occurs "/" rest = false ->
  video_id (dir +:+ "/" +:+ stem +:+ "." +:+ rest) = stem.
Proof.
  intros Hs Hd Hr.
  rewrite video_id_join.
  - change (stem +:+ "." +:+ rest) with (stem +:+ String "." rest).
    by rewrite split_first.
  - rewrite occurs_app, Hs. simpl. exact Hr.
Qed.

End StrFacts.

(** C9 on the code: the identifier is cut at the first dot of the file name,
    so a file name with a dot before its extension does not keep its name
    minus the extension: [clip.v2.mp4] gets the identifier [clip], not
    [clip.v2]. *)
Theorem video_id_dotted_name :
  Str.video_id "videos/clip.v2.mp4" = "clip" /\
  Str.strip_extension (Str.basename "videos/clip.v2.mp4") = "clip.v2" /\
  Str.video_id "videos/clip.v2.mp4"
    <> Str.strip_extension (Str.basename "videos/clip.v2.mp4").
Proof. split; [reflexivity | split; [reflexivity | discriminate]]. Qed.

(** For a file name with a single dot the identifier is the name minus its
    extension. *)
Lemma video_id_single_dot (dir stem ext : string) :
  Str.occurs "/" stem = false -> Str.occurs "." stem = false ->
  Str.occurs "/" ext = false -> Str.occurs "." ext = false ->
  Str.video_id (dir +:+ "/" +:+ stem +:+ "." +:+ ext)
  = Str.strip_extension (Str.basename (dir +:+ "/" +:+ stem +:+ "." +:+ ext)).
Proof.
  intros Hs Hd He Hde.
  rewrite StrFacts.video_id_stem by done.
  rewrite StrFacts.basename_join.
  - clear Hs. induction stem as [|c stem IH].
    + change (EmptyString +:+ "." +:+ ext) with (String "." ext).
      cbn [Str.strip_extension]. by rewrite Hde, Ascii.eqb_refl.
    + cbn in Hd. apply orb_false_iff in Hd as [Hc Hd].
      change (String c stem +:+ "." +:+ ext)
        with (String c (stem +:+ "." +:+ ext)).
      cbn [Str.strip_extension].
      rewrite StrFacts.occurs_app.
      change (Str.occurs "." ("." +:+ ext)) with true.
      rewrite orb_true_r. by rewrite <- (IH Hd).
  - rewrite StrFacts.occurs_app, Hs. simpl. exact He.
Qed.

(** ** The frame sampler *)

Module NpFacts.
Import Np.

Lemma round_half_even_floor q :
  Qfloor q <= round_half_even q <= Qfloor q + 1.
Proof.
  unfold round_half_even.
  destruct (q - inject_Z (Qfloor q) ?= 1 # 2)%Q; [destruct (Z.even _)| |]; lia.
Qed.

Lemma round_half_even_Z z : round_half_even (inject_Z z) = z.
Proof.
  unfold round_half_even. rewrite Qfloor_Z.
  assert (H : (inject_Z z - inject_Z z ?= 1 # 2)%Q = Lt).
  { rewrite <- Qlt_alt. lra. }
  by rewrite H.
Qed.

Lemma round_half_even_mono q1 q2 :
  (q1 <= q2)%Q -> round_half_even q1 <= round_half_even q2.
Proof.
  intros Hle.
  pose proof (Qfloor_resp_le _ _ Hle) as Hf.
  pose proof (round_half_even_floor q1) as H1.
  pose proof (round_half_even_floor q2) as H2.
  destruct (Z.eq_dec (Qfloor q1) (Qfloor q2)) as [Heq|Hne]; [|lia].
  unfold round_half_even in *. rewrite <- Heq in *.
  set (f := Qfloor q1) in *.
  destruct (q1 - inject_Z f ?= 1 # 2)%Q eqn:C1;
    destruct (q2 - inject_Z f ?= 1 # 2)%Q eqn:C2;
    try (destruct (Z.even f)); try lia; exfalso;
    repeat match goal with
    | H : (_ ?= _)%Q = Eq |- _ => apply Qeq_alt in H
    | H : (_ ?= _)%Q = Lt |- _ => apply Qlt_alt in H
    | H : (_ ?= _)%Q = Gt |- _ => apply Qgt_alt in H
    end; lra.
Qed.

Lemma int_Z z : int (inject_Z z) = z.
Proof.
  unfold int. destruct (Qle_bool 0 (inject_Z z)); [apply Qfloor_Z | apply Qceiling_Z].
Qed.


Lemma step_times_div (stop : Q) (div : Z) :
  0 < div -> (inject_Z div * ((stop - 0) / inject_Z div) == stop)%Q.
Proof.
  intros Hd. field. intros H.
  assert (H0 : (inject_Z 0 < inject_Z div)%Q) by (rewrite <- Zlt_Qlt; lia).
  change (inject_Z 0) with 0%Q in H0. lra.
Qed.

Lemma step_nonneg (stop : Q) (div : Z) :
  (0 <= stop)%Q -> 0 < div -> (0 <= (stop - 0) / inject_Z div)%Q.
Proof.
  intros Hs Hd.
  assert (H0 : (inject_Z 0 < inject_Z div)%Q) by (rewrite <- Zlt_Qlt; lia).
  change (inject_Z 0) with 0%Q in H0.
  apply Qle_shift_div_l; [exact H0 | lra].
Qed.

Lemma position_mono (stop : Q) (div i j : Z) :
  (0 <= stop)%Q -> 0 < div -> i <= j -> j <= div ->
  (position stop div i <= position stop div j)%Q.
Proof.
  intros Hs Hd Hij Hj.
  pose proof (step_times_div stop div Hd) as Hmul.
  pose proof (step_nonneg stop div Hs Hd) as Hstep.
  set (step := ((stop - 0) / inject_Z div)%Q) in *.
  assert (Hle : forall a b, a <= b -> (inject_Z a * step <= inject_Z b * step)%Q).
  { intros a b Hab. apply Qmult_le_compat_r; [|exact Hstep].
    rewrite <- Zle_Qle. exact Hab. }
  unfold position. fold step.
  destruct (Z.eqb_spec i div) as [->|Hi], (Z.eqb_spec j div) as [->|Hj'].
  - lra.
  - lia.
  - pose proof (Hle i div ltac:(lia)). lra.
  - pose proof (Hle i j Hij). lra.
Qed.

Lemma position_first (stop : Q) (div : Z) :
  0 < div -> (position stop div 0 == 0)%Q.
Proof.
  intros Hd. unfold position.
  destruct (Z.eqb_spec 0 div); [lia|].
  change (inject_Z 0) with 0%Q. lra.
Qed.

Lemma position_last (stop : Q) (div : Z) : position stop div div = stop.
Proof. unfold position. by rewrite Z.eqb_refl. Qed.

Lemma position_range (stop : Q) (div i : Z) :
  (0 <= stop)%Q -> 0 < div -> 0 <= i <= div ->
  (0 <= position stop div i <= stop)%Q.
Proof.
  intros Hs Hd [Hi0 Hid]. split.
  - rewrite <- (position_first stop div Hd). by apply position_mono; try lia.
  - rewrite <- (position_last stop div) at 2. by apply position_mono; try lia.
Qed.

Lemma linspace_positions (stop : Q) (num : Z) :
  2 <= num ->
  linspace 0 stop num = Ok (map (position stop (num - 1)) (seqZ 0 num)).
Proof.
  intros Hn. unfold linspace.
  destruct (Z.ltb_spec num 0); [lia|].
  destruct (Z.eqb_spec num 1); [lia|]. reflexivity.
Qed.

Lemma index_of_round q : index_of q = round_half_even q.
Proof. apply int_Z. Qed.

Lemma index_of_range (stop : Z) (div i : Z) :
  0 <= stop -> 0 < div -> 0 <= i <= div ->
  0 <= index_of (position (inject_Z stop) div i) <= stop.
Proof.
  intros Hs Hd Hi. rewrite index_of_round.
  assert (Hs' : (0 <= inject_Z stop)%Q).
  { change 0%Q with (inject_Z 0). by rewrite <- Zle_Qle. }
  destruct (position_range (inject_Z stop) div i Hs' Hd Hi) as [H0 H1].
  apply round_half_even_mono in H0, H1.
  change 0%Q with (inject_Z 0) in H0.
  rewrite round_half_even_Z in H0, H1. lia.
Qed.

Lemma index_of_mono (stop : Z) (div i j : Z) :
  0 <= stop -> 0 < div -> i <= j -> j <= div ->
  index_of (position (inject_Z stop) div i)
  <= index_of (position (inject_Z stop) div j).
Proof.
  intros Hs Hd Hij Hj. rewrite !index_of_round.
  apply round_half_even_mono, position_mono; try done.
  change 0%Q with (inject_Z 0). by rewrite <- Zle_Qle.
Qed.

Lemma StronglySorted_map_seq {A} (R : relation A) (g : nat -> A) (a k : nat) :
  (forall i j, (a <= i)%nat -> (i < j)%nat -> (j < a + k)%nat -> R (g i) (g j)) ->
  StronglySorted R (map g (seq a k)).
Proof.
  revert a. induction k as [|k IH]; intros a H; simpl; constructor.
  - apply IH. intros i j ? ? ?. apply H; lia.
  - apply Forall_forall. intros x Hx.
    apply list_elem_of_In, in_map_iff in Hx as (j & <- & Hj).
    apply in_seq in Hj. apply H; lia.
Qed.

Lemma sample_indices_positions (len num : Z) :
  2 <= num ->
  sample_indices len num =
    Ok (map (fun i => index_of (position (inject_Z (len - 1)) (num - 1) i))
            (seqZ 0 num)).
Proof.
  intros Hn. unfold sample_indices, frame_samples.
  rewrite linspace_positions by done. simpl.
  by rewrite !map_map.
Qed.

End NpFacts.

(** The sampler returns normally, with as many indices as asked for. *)
Lemma sample_indices_length (len n : Z) :
  1 <= n ->
  exists indices,
    Np.sample_indices len n = Ok indices /\ Z.of_nat (length indices) = n.
Proof.
  intros Hn. destruct (Z.eq_dec n 1) as [->|Hn1].
  - by exists [0].
  - rewrite NpFacts.sample_indices_positions by lia.
    eexists. split; [reflexivity|].
    rewrite length_map, length_seqZ. lia.
Qed.

(** ** The frame sampler in rounded arithmetic *)

Section Rounded.

Variable fl : Q -> Q.
Hypothesis fl_ok : Np.float_like fl.

Lemma fl_proper x y : (x == y)%Q -> (fl x == fl y)%Q.
Proof.
  intros H. apply Qle_antisym; apply (Np.fl_mono fl fl_ok); rewrite H;
    apply Qle_refl.
Qed.

Lemma fl_zero : (fl 0 == 0)%Q.
Proof. apply (Np.fl_integer fl fl_ok 0). lia. Qed.

Lemma fl_nonneg x : (0 <= x)%Q -> (0 <= fl x)%Q.
Proof. intros H. rewrite <- fl_zero. by apply (Np.fl_mono fl fl_ok). Qed.

(** Rounding does not lift a value over a representable integer. *)
Lemma fl_below z x :
  0 <= z <= 2 ^ 53 -> (x <= inject_Z z)%Q -> (fl x <= inject_Z z)%Q.
Proof.
  intros Hz H. rewrite <- (Np.fl_integer fl fl_ok z Hz).
  by apply (Np.fl_mono fl fl_ok).
Qed.

Lemma linspace_fl_positions (stop : Q) (num : Z) :
  2 <= num ->
  Np.linspace_fl fl 0 stop num
  = Ok (map (Np.position_fl fl stop (num - 1)) (seqZ 0 num)).
Proof.
  intros Hn. unfold Np.linspace_fl.
  destruct (Z.ltb_spec num 0); [lia|].
  destruct (Z.eqb_spec num 1); [lia|]. reflexivity.
Qed.

Section Positions.

Variables s div : Z.
Hypothesis s_range : 0 <= s <= 2 ^ 53.
Hypothesis div_range : 1 <= div <= 2 ^ 53.

Lemma S_nonneg : (0 <= inject_Z s)%Q.
Proof. change 0%Q with (inject_Z 0). rewrite <- Zle_Qle. lia. Qed.

Lemma D_pos : (1 <= inject_Z div)%Q.
Proof. change 1%Q with (inject_Z 1). rewrite <- Zle_Qle. lia. Qed.

Lemma delta_stop : (fl (inject_Z s - 0) == inject_Z s)%Q.
Proof.
  rewrite (fl_proper (inject_Z s - 0) (inject_Z s)) by ring.
  by apply (Np.fl_integer fl fl_ok).
Qed.

Lemma step_nonneg_fl : (0 <= fl (fl (inject_Z s - 0) / inject_Z div))%Q.
Proof.
  apply fl_nonneg. apply Qle_shift_div_l.
  - pose proof D_pos. lra.
  - rewrite delta_stop. pose proof S_nonneg. lra.
Qed.

(** The rounded step, taken [div - 1] times, does not pass [stop]. *)
Lemma step_below (i : Z) :
  0 <= i < div ->
  (inject_Z i * fl (fl (inject_Z s - 0) / inject_Z div) <= inject_Z s)%Q.
Proof.
  intros Hi.
  set (step := fl (fl (inject_Z s - 0) / inject_Z div)).
  assert (Hstep0 : (0 <= step)%Q) by apply step_nonneg_fl.
  assert (Hstep :
    (step <= (inject_Z s / inject_Z div) * (1 + (1 # 2 ^ 53)))%Q).
  { unfold step.
    rewrite (fl_proper (fl (inject_Z s - 0) / inject_Z div)
                       (inject_Z s / inject_Z div)).
    - by apply (Np.fl_quotient fl fl_ok).
    - by rewrite delta_stop. }
  pose proof S_nonneg as HS. pose proof D_pos as HD.
  assert (HI : (0 <= inject_Z i <= inject_Z div - 1)%Q).
  { split.
    - change 0%Q with (inject_Z 0). rewrite <- Zle_Qle. lia.
    - assert (H1 : (inject_Z (i + 1) <= inject_Z div)%Q)
        by (rewrite <- Zle_Qle; lia).
      rewrite inject_Z_plus in H1. change (inject_Z 1) with 1%Q in H1. lra. }
  assert (HDmax : ((inject_Z div - 1) * (1 # 2 ^ 53) <= 1)%Q).
  { assert (HD53 : (inject_Z div <= inject_Z (2 ^ 53))%Q)
      by (rewrite <- Zle_Qle; lia).
    apply Qle_trans with (inject_Z (2 ^ 53) * (1 # 2 ^ 53))%Q; [|done].
    apply Qmult_le_compat_r; [lra | done]. }
  set (t := (inject_Z s / inject_Z div)%Q) in *.
  assert (Ht : (t * inject_Z div == inject_Z s)%Q) by (unfold t; field; lra).
  assert (Ht0 : (0 <= t)%Q).
  { unfold t. apply Qle_shift_div_l; lra. }
  set (eps := (1 # 2 ^ 53)%Q) in *.
  set (I := inject_Z i) in *.
  set (S := inject_Z s) in *. set (D := inject_Z div) in *.
  clearbody eps t step I S D. clear - Hstep0 Hstep HS HD HI HDmax Ht Ht0.
  nra.
Qed.

Lemma position_fl_range (i : Z) :
  0 <= i <= div ->
  (0 <= Np.position_fl fl (inject_Z s) div i <= inject_Z s)%Q.
Proof.
  intros Hi. pose proof S_nonneg as HS. pose proof D_pos as HD.
  unfold Np.position_fl.
  destruct (Z.eqb_spec i div) as [->|Hne]; [lra|].
  assert (HI : (0 <= inject_Z i)%Q).
  { change 0%Q with (inject_Z 0). rewrite <- Zle_Qle. lia. }
  destruct (Qeq_bool _ 0).
  - set (a := fl (inject_Z i / inject_Z div)).
    assert (Ha : (0 <= a <= 1)%Q).
    { split.
      - apply fl_nonneg, Qle_shift_div_l; lra.
      - apply (fl_below 1); [lia|]. apply Qle_shift_div_r; [lra|].
        assert (H1 : (inject_Z i <= inject_Z div)%Q)
          by (rewrite <- Zle_Qle; lia).
        change (inject_Z 1) with 1%Q. lra. }
    pose proof delta_stop as Hdelta.
    set (delta := fl (inject_Z s - 0)) in *.
    assert (Hb : (0 <= a * delta <= inject_Z s)%Q) by nra.
    split.
    + apply fl_nonneg. pose proof (fl_nonneg _ (proj1 Hb)). lra.
    + apply fl_below; [done|].
      pose proof (fl_below s _ s_range (proj2 Hb)). lra.
  - pose proof (step_below i ltac:(lia)) as Hup.
    pose proof step_nonneg_fl as Hstep0.
    set (step := fl (fl (inject_Z s - 0) / inject_Z div)) in *.
    assert (Hlow : (0 <= inject_Z i * step)%Q) by nra.
    split.
    + apply fl_nonneg. pose proof (fl_nonneg _ Hlow). lra.
    + apply fl_below; [done|].
      pose proof (fl_below s _ s_range Hup). lra.
Qed.

Lemma position_fl_mono (i j : Z) :
  0 <= i -> i <= j -> j <= div ->
  (Np.position_fl fl (inject_Z s) div i
   <= Np.position_fl fl (inject_Z s) div j)%Q.
Proof.
  intros Hi Hij Hj.
  destruct (Z.eq_dec j div) as [->|Hjd].
  { replace (Np.position_fl fl (inject_Z s) div div) with (inject_Z s).
    - apply position_fl_range. lia.
    - unfold Np.position_fl. by rewrite Z.eqb_refl. }
  pose proof S_nonneg as HS. pose proof D_pos as HD.
  assert (HI : (0 <= inject_Z i <= inject_Z j)%Q).
  { split.
    - change 0%Q with (inject_Z 0). rewrite <- Zle_Qle. lia.
    - by rewrite <- Zle_Qle. }
  unfold Np.position_fl.
  destruct (Z.eqb_spec i div); [lia|].
  destruct (Z.eqb_spec j div); [lia|].
  destruct (Qeq_bool _ 0).
  - pose proof delta_stop as Hdelta.
    set (delta := fl (inject_Z s - 0)) in *.
    apply (Np.fl_mono fl fl_ok), Qplus_le_compat; [|lra].
    apply (Np.fl_mono fl fl_ok), Qmult_le_compat_r; [|lra].
    apply (Np.fl_mono fl fl_ok).
    unfold Qdiv. apply Qmult_le_compat_r; [lra|].
    apply Qinv_le_0_compat. lra.
  - pose proof step_nonneg_fl as Hstep0.
    apply (Np.fl_mono fl fl_ok), Qplus_le_compat; [|lra].
    apply (Np.fl_mono fl fl_ok), Qmult_le_compat_r; [lra|done].
Qed.

Lemma position_fl_first : (Np.position_fl fl (inject_Z s) div 0 == 0)%Q.
Proof.
  unfold Np.position_fl. destruct (Z.eqb_spec 0 div) as [|_]; [lia|].
  assert (Hz : forall q, (q == 0)%Q -> (fl q == 0)%Q).
  { intros q Hq. rewrite (fl_proper _ _ Hq). apply fl_zero. }
  change (inject_Z 0) with 0%Q.
  destruct (Qeq_bool _ 0); apply Hz.
  - rewrite (Hz (fl (0 / inject_Z div) * _)%Q); [ring|].
    rewrite (Hz (0 / inject_Z div)%Q); [ring|]. unfold Qdiv. ring.
  - rewrite (Hz (0 * _)%Q); ring.
Qed.

Lemma position_fl_last :
  Np.position_fl fl (inject_Z s) div div = inject_Z s.
Proof. unfold Np.position_fl. by rewrite Z.eqb_refl. Qed.

End Positions.

Lemma round_half_even_proper q1 q2 :
  (q1 == q2)%Q -> Np.round_half_even q1 = Np.round_half_even q2.
Proof.
  intros H. apply Z.le_antisymm; apply NpFacts.round_half_even_mono;
    rewrite H; apply Qle_refl.
Qed.

(** The property of C1 for the computation in rounded arithmetic, for
    lengths and step counts a float64 holds exactly. *)
Lemma sample_indices_fl_spec (L n_frame_steps : Z) :
  1 <= L <= 2 ^ 53 -> 1 <= n_frame_steps <= 2 ^ 53 ->
  exists indices,
    Np.sample_indices_fl fl L n_frame_steps = Ok indices /\
    Z.of_nat (length indices) = n_frame_steps /\
    Forall (fun k => 0 <= k <= L - 1) indices /\
    Sorted Z.le indices.
Proof.
  intros HL Hn. unfold Np.sample_indices_fl.
  destruct (Z.eq_dec n_frame_steps 1) as [->|Hn1].
  - exists [0]. repeat split.
    + repeat constructor; lia.
    + repeat constructor.
  - rewrite linspace_fl_positions by lia. cbn [rmap rbind].
    rewrite !map_map.
    eexists. split; [reflexivity|]. split; [|split].
    + rewrite length_map, length_seqZ. lia.
    + apply Forall_forall. intros k Hk.
      apply list_elem_of_In, in_map_iff in Hk as (i & <- & Hi).
      apply list_elem_of_In, elem_of_seqZ in Hi.
      change (Np.int (Np.round ?q)) with (Np.index_of q).
      rewrite NpFacts.index_of_round.
      destruct (position_fl_range (L - 1) (n_frame_steps - 1)
                  ltac:(lia) ltac:(lia) i ltac:(lia)) as [H0 H1].
      apply NpFacts.round_half_even_mono in H0, H1.
      change 0%Q with (inject_Z 0) in H0.
      rewrite NpFacts.round_half_even_Z in H0, H1. lia.
    + apply StronglySorted_Sorted.
      unfold seqZ. rewrite <- list_fmap_compose.
      apply NpFacts.StronglySorted_map_seq. intros i j ? ? ?. simpl.
      change (Np.int (Np.round ?q)) with (Np.index_of q).
      rewrite !NpFacts.index_of_round.
      apply NpFacts.round_half_even_mono, position_fl_mono; lia.
Qed.

(** From two steps on the first index is 0 and the last one [L - 1]. *)
Lemma sample_indices_fl_ends (L n_frame_steps : Z) (indices : list Z) :
  1 <= L <= 2 ^ 53 -> 2 <= n_frame_steps <= 2 ^ 53 ->
  Np.sample_indices_fl fl L n_frame_steps = Ok indices ->
  head indices = Some 0 /\ last indices = Some (L - 1).
Proof.
  intros HL Hn. unfold Np.sample_indices_fl.
  rewrite linspace_fl_positions by lia. cbn [rmap rbind].
  rewrite !map_map. intros [= <-]. split.
  - rewrite seqZ_cons by lia. cbn [map head]. f_equal.
    change (Np.int (Np.round ?q)) with (Np.index_of q).
    rewrite NpFacts.index_of_round.
    rewrite (round_half_even_proper _ (inject_Z 0)).
    + apply NpFacts.round_half_even_Z.
    + apply position_fl_first; lia.
  - assert (Hseq : seqZ 0 n_frame_steps
                   = (seqZ 0 (n_frame_steps - 1) ++ [n_frame_steps - 1])%list).
    { replace n_frame_steps with ((n_frame_steps - 1) + 1) at 1 by lia.
      by rewrite seqZ_app by lia. }
    rewrite Hseq, map_app. cbn [map]. rewrite last_snoc. f_equal.
    change (Np.int (Np.round ?q)) with (Np.index_of q).
    rewrite NpFacts.index_of_round, position_fl_last.
    apply NpFacts.round_half_even_Z.
Qed.

End Rounded.

(** Exact arithmetic is one such rounding. *)
Lemma exact_float_like : Np.float_like (fun x => x).
Proof.
  split.
  - done.
  - done.
  - intros a b Ha Hb.
    assert (H0 : (0 <= inject_Z a / inject_Z b)%Q).
    { apply Qle_shift_div_l.
      - change 0%Q with (inject_Z 0). rewrite <- Zlt_Qlt. lia.
      - rewrite Qmult_0_l. change 0%Q with (inject_Z 0). rewrite <- Zle_Qle. lia. }
    set (x := (inject_Z a / inject_Z b)%Q) in *.
    assert (He : (0 <= 1 # 2 ^ 53)%Q) by done.
    set (eps := (1 # 2 ^ 53)%Q) in *. clearbody x eps. nra.
Qed.


(** ** float64 rounding *)

Module Float64.
Import Np NpFacts.

Lemma two_pow_pos (k : Z) : (0 < 2 ^ k)%Q.
Proof. by apply Qpower_0_lt. Qed.

Lemma two_pow_add (a b : Z) : (2 ^ (a + b) == 2 ^ a * 2 ^ b)%Q.
Proof. by apply Qpower_plus. Qed.

Lemma two_pow_succ (k : Z) : (2 ^ (k + 1) == 2 * 2 ^ k)%Q.
Proof. rewrite two_pow_add. change (2 ^ 1)%Q with 2%Q. ring. Qed.

Lemma two_pow_Z (k : Z) : 0 <= k -> (2 ^ k == inject_Z (2 ^ k))%Q.
Proof. intros Hk. by rewrite Zpower_Qpower. Qed.

(** [ilog2 x] is the binade of [x]. *)
Lemma ilog2_spec (x : Q) :
  (0 < x)%Q -> (2 ^ ilog2 x <= x)%Q /\ (x < 2 ^ (ilog2 x + 1))%Q.
Proof.
  intros Hx. destruct x as [n d].
  assert (Hn : 0 < n) by (unfold Qlt in Hx; simpl in Hx; lia).
  unfold ilog2. cbn [Qnum Qden].
  set (a := Z.log2 n). set (b := Z.log2 (Z.pos d)).
  pose proof (Z.log2_spec n Hn) as Ha.
  pose proof (Z.log2_spec (Z.pos d) ltac:(lia)) as Hb.
  pose proof (Z.log2_nonneg n) as Ha0.
  pose proof (Z.log2_nonneg (Z.pos d)) as Hb0.
  fold a in Ha, Ha0. fold b in Hb, Hb0.
  rewrite <- !Z.add_1_r in Ha, Hb.
  rewrite !Zle_Qle, !Zlt_Qlt in Ha, Hb.
  rewrite <- !two_pow_Z in Ha, Hb by lia.
  rewrite !two_pow_succ in Ha, Hb.
  assert (HK : (2 ^ (a - b) * 2 ^ b == 2 ^ a)%Q).
  { rewrite <- two_pow_add. replace (a - b + b) with a by lia. reflexivity. }
  assert (HK1 : (2 * 2 ^ (a - b - 1) == 2 ^ (a - b))%Q).
  { rewrite <- two_pow_succ. replace (a - b - 1 + 1) with (a - b) by lia.
    reflexivity. }
  assert (HX : ((n # d) * inject_Z (Z.pos d) == inject_Z n)%Q).
  { rewrite (Qmake_Qdiv n d). field.
    intros H. unfold Qeq in H. simpl in H. lia. }
  pose proof (two_pow_pos (a - b)) as HKp.
  pose proof (two_pow_pos (a - b - 1)) as HK1p.
  pose proof (two_pow_pos a) as HAp.
  pose proof (two_pow_pos b) as HBp.
  set (X := (n # d)%Q) in *. set (D := inject_Z (Z.pos d)) in *.
  set (N := inject_Z n) in *.
  set (K := (2 ^ (a - b))%Q) in *. set (K1 := (2 ^ (a - b - 1))%Q) in *.
  set (A := (2 ^ a)%Q) in *. set (B := (2 ^ b)%Q) in *.
  destruct (Qle_bool K X) eqn:Hle.
  - apply Qle_bool_iff in Hle. split; [done|].
    rewrite two_pow_succ. fold K.
    apply Qnot_le_lt. intros Hge.
    assert (H1 : (2 * K * D <= X * D)%Q) by (apply Qmult_le_compat_r; lra).
    assert (H2 : (K * B <= K * D)%Q).
    { rewrite !(Qmult_comm K). apply Qmult_le_compat_r; lra. }
    lra.
  - assert (Hlt : (X < K)%Q).
    { apply Qnot_le_lt. intros H. apply Qle_bool_iff in H. congruence. }
    replace (a - b - 1 + 1) with (a - b) by lia. fold K K1. split; [|done].
    apply Qnot_lt_le. intros Hlt1.
    assert (H1 : (X * D < K1 * D)%Q) by (apply Qmult_lt_compat_r; lra).
    assert (H2 : (K1 * D <= K1 * (2 * B))%Q).
    { rewrite !(Qmult_comm K1). apply Qmult_le_compat_r; lra. }
    assert (H3 : (K * B == 2 * K1 * B)%Q) by (rewrite <- HK1; ring).
    lra.
Qed.

Lemma round_half_even_half q :
  (inject_Z (round_half_even q) <= q + (1 # 2))%Q.
Proof.
  unfold round_half_even. pose proof (Qfloor_le q) as Hf.
  destruct (q - inject_Z (Qfloor q) ?= 1 # 2)%Q eqn:C.
  - apply Qeq_alt in C. destruct (Z.even _).
    + lra.
    + rewrite inject_Z_plus. change (inject_Z 1) with 1%Q. lra.
  - lra.
  - apply Qgt_alt in C. rewrite inject_Z_plus. change (inject_Z 1) with 1%Q.
    lra.
Qed.

Lemma two_pow_split (k : Z) : (2 ^ k == inject_Z (2 ^ 52) * 2 ^ (k - 52))%Q.
Proof.
  rewrite <- two_pow_Z, <- two_pow_add by lia.
  replace (52 + (k - 52)) with k by lia. reflexivity.
Qed.

(** The significand of a positive number lies in [[2^52, 2^53]]. *)
Lemma significand_range (x : Q) :
  (0 < x)%Q ->
  2 ^ 52 <= round_half_even (x / 2 ^ (ilog2 x - 52)) <= 2 ^ 53.
Proof.
  intros Hx. destruct (ilog2_spec x Hx) as [Hlo Hhi].
  rewrite two_pow_succ, two_pow_split in Hhi. rewrite two_pow_split in Hlo.
  pose proof (two_pow_pos (ilog2 x - 52)) as Hp.
  set (Pe := (2 ^ (ilog2 x - 52))%Q) in *.
  split.
  - rewrite <- (round_half_even_Z (2 ^ 52)) at 1.
    apply round_half_even_mono. by apply Qle_shift_div_l.
  - rewrite <- (round_half_even_Z (2 ^ 53)).
    apply round_half_even_mono. apply Qle_shift_div_r; [done|].
    replace (2 ^ 53) with (2 * 2 ^ 52) by lia. rewrite inject_Z_mult.
    change (inject_Z 2) with 2%Q. lra.
Qed.

Lemma fl_pos_bounds (x : Q) :
  (0 < x)%Q ->
  (2 ^ ilog2 x <= fl_pos x)%Q /\ (fl_pos x <= 2 ^ (ilog2 x + 1))%Q.
Proof.
  intros Hx. destruct (significand_range x Hx) as [Hlo Hhi].
  unfold fl_pos. cbv zeta.
  rewrite two_pow_succ, (two_pow_split (ilog2 x)).
  pose proof (two_pow_pos (ilog2 x - 52)) as Hp.
  set (Pe := (2 ^ (ilog2 x - 52))%Q) in *.
  set (m := round_half_even (x / Pe)) in *.
  rewrite Zle_Qle in Hlo, Hhi.
  replace (2 ^ 53) with (2 * 2 ^ 52) in Hhi by lia.
  rewrite inject_Z_mult in Hhi. change (inject_Z 2) with 2%Q in Hhi.
  split.
  - apply Qmult_le_compat_r; lra.
  - rewrite Qmult_assoc. apply Qmult_le_compat_r; lra.
Qed.

Lemma fl_pos_pos (x : Q) : (0 < x)%Q -> (0 < fl_pos x)%Q.
Proof.
  intros Hx. destruct (fl_pos_bounds x Hx) as [Hlo _].
  pose proof (two_pow_pos (ilog2 x)). lra.
Qed.

Lemma ilog2_mono (x y : Q) : (0 < x)%Q -> (x <= y)%Q -> ilog2 x <= ilog2 y.
Proof.
  intros Hx Hxy.
  destruct (ilog2_spec x Hx) as [Hlo _].
  destruct (ilog2_spec y ltac:(lra)) as [_ Hhi].
  assert (H : ilog2 x < ilog2 y + 1); [|lia].
  apply (Qpower_lt_compat_l_inv 2); [lra|done].
Qed.

Lemma fl_pos_mono (x y : Q) :
  (0 < x)%Q -> (x <= y)%Q -> (fl_pos x <= fl_pos y)%Q.
Proof.
  intros Hx Hxy. assert (Hy : (0 < y)%Q) by lra.
  pose proof (ilog2_mono x y Hx Hxy) as Hk.
  destruct (Z.eq_dec (ilog2 x) (ilog2 y)) as [Heq|Hne].
  - unfold fl_pos. cbv zeta. rewrite Heq.
    pose proof (two_pow_pos (ilog2 y - 52)) as Hp.
    set (Pe := (2 ^ (ilog2 y - 52))%Q) in *.
    apply Qmult_le_compat_r; [|lra].
    rewrite <- Zle_Qle. apply round_half_even_mono.
    unfold Qdiv. apply Qmult_le_compat_r; [done|].
    apply Qlt_le_weak, Qinv_lt_0_compat, Hp.
  - destruct (fl_pos_bounds x Hx) as [_ Hhi].
    destruct (fl_pos_bounds y Hy) as [Hlo _].
    assert (H : (2 ^ (ilog2 x + 1) <= 2 ^ ilog2 y)%Q).
    { apply Qpower_le_compat_l; [lia|lra]. }
    lra.
Qed.

Lemma fl64_mono (x y : Q) : (x <= y)%Q -> (fl64 x <= fl64 y)%Q.
Proof.
  intros Hxy. unfold fl64.
  destruct (x ?= 0)%Q eqn:Cx; destruct (y ?= 0)%Q eqn:Cy;
    repeat match goal with
    | H : (_ ?= _)%Q = Eq |- _ => apply Qeq_alt in H
    | H : (_ ?= _)%Q = Lt |- _ => apply Qlt_alt in H
    | H : (_ ?= _)%Q = Gt |- _ => apply Qgt_alt in H
    end; try lra.
  - pose proof (fl_pos_pos y Cy). lra.
  - pose proof (fl_pos_pos (- x) ltac:(lra)). lra.
  - pose proof (fl_pos_mono (- y) (- x) ltac:(lra) ltac:(lra)). lra.
  - pose proof (fl_pos_pos (- x) ltac:(lra)).
    pose proof (fl_pos_pos y Cy). lra.
  - by apply fl_pos_mono.
Qed.

(** An integer below [2^53] is a float64. *)
Lemma fl_pos_integer (z : Z) :
  0 < z < 2 ^ 53 -> (fl_pos (inject_Z z) == inject_Z z)%Q.
Proof.
  intros Hz.
  assert (Hx : (0 < inject_Z z)%Q).
  { change 0%Q with (inject_Z 0). rewrite <- Zlt_Qlt. lia. }
  destruct (ilog2_spec _ Hx) as [Hlo _].
  assert (Hk : ilog2 (inject_Z z) < 53).
  { apply (Qpower_lt_compat_l_inv 2); [|lra].
    rewrite (two_pow_Z 53) by lia.
    apply Qle_lt_trans with (inject_Z z); [done|]. rewrite <- Zlt_Qlt. lia. }
  unfold fl_pos. cbv zeta.
  set (e := ilog2 (inject_Z z) - 52) in *.
  assert (He : (2 ^ e == / inject_Z (2 ^ (- e)))%Q).
  { rewrite <- two_pow_Z by lia. rewrite <- Qpower_opp.
    by rewrite Z.opp_involutive. }
  assert (Hp : (0 < inject_Z (2 ^ (- e)))%Q).
  { rewrite <- two_pow_Z by lia. apply two_pow_pos. }
  assert (Hq : (inject_Z z / 2 ^ e == inject_Z (z * 2 ^ (- e)))%Q).
  { rewrite He, inject_Z_mult. field. lra. }
  rewrite (round_half_even_proper _ _ Hq), round_half_even_Z.
  rewrite He, inject_Z_mult. field. lra.
Qed.

Lemma fl64_integer (z : Z) :
  0 <= z <= 2 ^ 53 -> (fl64 (inject_Z z) == inject_Z z)%Q.
Proof.
  intros Hz.
  destruct (Z.eq_dec z 0) as [->|H0]; [reflexivity|].
  destruct (Z.eq_dec z (2 ^ 53)) as [->|H53]; [by vm_compute|].
  unfold fl64.
  assert (Hx : (inject_Z z ?= 0)%Q = Gt).
  { apply Qgt_alt. change 0%Q with (inject_Z 0). rewrite <- Zlt_Qlt. lia. }
  rewrite Hx. apply fl_pos_integer. lia.
Qed.

(** Rounding to nearest moves a positive number by at most the relative
    error [2^-53]. *)
Lemma fl_pos_error (x : Q) :
  (0 < x)%Q -> (fl_pos x <= x * (1 + (1 # 2 ^ 53)))%Q.
Proof.
  intros Hx. destruct (ilog2_spec x Hx) as [Hlo _].
  rewrite two_pow_split in Hlo.
  unfold fl_pos. cbv zeta.
  pose proof (two_pow_pos (ilog2 x - 52)) as Hp.
  set (Pe := (2 ^ (ilog2 x - 52))%Q) in *.
  pose proof (round_half_even_half (x / Pe)) as Hm.
  set (m := inject_Z (round_half_even (x / Pe))) in *.
  assert (H1 : (m * Pe <= (x / Pe + (1 # 2)) * Pe)%Q).
  { apply Qmult_le_compat_r; lra. }
  assert (H2 : ((x / Pe + (1 # 2)) * Pe == x + (1 # 2) * Pe)%Q).
  { field. lra. }
  assert (H3 : (inject_Z (2 ^ 52) == 4503599627370496)%Q) by reflexivity.
  assert (H4 : ((1 # 2 ^ 53) == 1 # 9007199254740992)%Q) by reflexivity.
  rewrite H3 in Hlo. rewrite H4. lra.
Qed.

Lemma fl64_float_like : float_like fl64.
Proof.
  split.
  - apply fl64_mono.
  - apply fl64_integer.
  - intros a b Ha Hb.
    assert (HB : (0 < inject_Z b)%Q).
    { change 0%Q with (inject_Z 0). rewrite <- Zlt_Qlt. lia. }
    destruct (Z.eq_dec a 0) as [->|H0].
    + assert (Hz : (0 / inject_Z b == 0)%Q) by (field; lra).
      assert (Hc : (0 / inject_Z b ?= 0)%Q = Eq) by (by apply Qeq_alt).
      change (inject_Z 0) with 0%Q. unfold fl64. rewrite Hc.
      set (x := (0 / inject_Z b)%Q) in *.
      assert (H4 : ((1 # 2 ^ 53) == 1 # 9007199254740992)%Q) by reflexivity.
      rewrite H4. lra.
    + assert (Hx : (0 < inject_Z a / inject_Z b)%Q).
      { apply Qlt_shift_div_l; [done|]. rewrite Qmult_0_l.
        change 0%Q with (inject_Z 0). rewrite <- Zlt_Qlt. lia. }
      unfold fl64. pose proof Hx as Hc. apply Qgt_alt in Hc. rewrite Hc.
      by apply fl_pos_error.
Qed.

End Float64.

(** The sampler on 16 frames and 23 steps, as float64 computes it: step 11
    falls on a position just below 7.5 and yields frame 7, where exact
    arithmetic has the tie 7.5 and yields frame 8. *)
Lemma sample_indices_16_23 :
  Np.sample_indices_fl Np.fl64 16 23
  = Ok [0; 1; 1; 2; 3; 3; 4; 5; 5; 6; 7; 7; 8; 9; 10; 10; 11; 12; 12; 13;
        14; 14; 15] /\
  rmap (fun l => l !! 11%nat) (Np.sample_indices 16 23) = Ok (Some 8).
Proof. split; by vm_compute. Qed.

(** C1: for every frame-sequence length [L >= 1] and every
    [n_frame_steps >= 1] (both at most [2^53], beyond which neither a list
    of frames nor the array of positions exists), the sampler of lines
    64-66, computed in float64, returns exactly [n_frame_steps] indices,
    each within [[0, L-1]], in non-decreasing order. *)
Theorem frame_sampler_indices (L n_frame_steps : Z) :
  1 <= L <= 2 ^ 53 -> 1 <= n_frame_steps <= 2 ^ 53 ->
  exists indices,
    Np.sample_indices_fl Np.fl64 L n_frame_steps = Ok indices /\
    Z.of_nat (length indices) = n_frame_steps /\
    Forall (fun k => 0 <= k <= L - 1) indices /\
    Sorted Z.le indices.
Proof. apply sample_indices_fl_spec, Float64.fl64_float_like. Qed.

Lemma frame_sampler_indices_witness :
  exists indices,
    Np.sample_indices_fl Np.fl64 16 23 = Ok indices /\
    Z.of_nat (length indices) = 23 /\
    Forall (fun k => 0 <= k <= 16 - 1) indices /\
    Sorted Z.le indices.
Proof. apply (frame_sampler_indices 16 23); lia. Defined.

(** ** Audio segments *)

Lemma pad_or_truncate_length (a : list Z) :
  Z.of_nat (length (pad_or_truncate a)) = 16000.
Proof.
  unfold pad_or_truncate.
  destruct (Z.leb_spec (Z.of_nat (length a)) 16000).
  - rewrite length_app, length_replicate. lia.
  - rewrite length_take. lia.
Qed.

(** At 16000 samples per second the normalisation is the one of the
    specification: a full segment is left as it is. *)
Lemma pad_or_truncate_full (a : list Z) :
  Z.of_nat (length a) = 16000 -> pad_or_truncate a = a.
Proof.
  intros H. unfold pad_or_truncate. rewrite H. simpl.
  by rewrite app_nil_r.
Qed.

Lemma pad_or_truncate_short (a : list Z) :
  Z.of_nat (length a) <= 16000 ->
  pad_or_truncate a
  = (a ++ replicate (Z.to_nat (16000 - Z.of_nat (length a))) 0)%list.
Proof.
  intros H. unfold pad_or_truncate.
  by destruct (Z.leb_spec (Z.of_nat (length a)) 16000); [|lia].
Qed.

Lemma pad_or_truncate_long (a : list Z) :
  16000 < Z.of_nat (length a) ->
  pad_or_truncate a = take (Z.to_nat 16000) a.
Proof.
  intros H. unfold pad_or_truncate.
  by destruct (Z.leb_spec (Z.of_nat (length a)) 16000); [lia|].
Qed.

(** C3 on the code: with [--output_frequency 8000] a full one-second segment
    has [segment_samples 8000 = 8000] samples; the code pads it to 16000
    samples, so the segment is neither normalised to [segment_samples] nor
    passed on unmodified. *)
Theorem pad_or_truncate_at_8000_Hz :
  let segment := Wav 8000 (replicate (Z.to_nat 8000) 7) in
  Z.of_nat (length (audio_info segment)) = segment_samples (sample_rate segment) /\
  Z.of_nat (length (pad_or_truncate (audio_info segment))) = 16000 /\
  Z.of_nat (length (pad_or_truncate (audio_info segment)))
    <> segment_samples (sample_rate segment) /\
  pad_or_truncate (audio_info segment) <> audio_info segment.
Proof.
  cbv zeta. unfold Wav. cbn [audio_info sample_rate]. unfold segment_samples.
  split; [|split; [|split]].
  - rewrite length_replicate. lia.
  - apply pad_or_truncate_length.
  - rewrite pad_or_truncate_length. lia.
  - intros H. apply (f_equal (fun l => Z.of_nat (length l))) in H.
    rewrite pad_or_truncate_length, length_replicate in H. lia.
Qed.

Module MatFacts.

Lemma zeros_shaped r c : well_shaped (zeros r c).
Proof.
  split; simpl.
  - apply length_replicate.
  - apply Forall_forall. intros x Hx.
    apply elem_of_replicate in Hx as [-> _]. apply length_replicate.
Qed.

Lemma concatenate1_ok a b :
  nrows a = nrows b ->
  concatenate1 a b =
    Ok (Mat (nrows a) (ncols a + ncols b) (zip_with app (cells a) (cells b))).
Proof. intros H. unfold concatenate1. by rewrite decide_True. Qed.

Lemma concatenate1_shaped a b m :
  well_shaped a -> well_shaped b -> concatenate1 a b = Ok m ->
  well_shaped m /\ nrows m = nrows a /\ ncols m = (ncols a + ncols b)%nat.
Proof.
  intros [Ha1 Ha2] [Hb1 Hb2]. unfold concatenate1.
  destruct (decide (nrows a = nrows b)) as [Heq|]; [|discriminate].
  intros [= <-]. simpl. split; [|done]. split; simpl.
  - rewrite length_zip_with. lia.
  - clear Ha1 Hb1 Heq. revert Ha2 Hb2. generalize (cells b).
    induction (cells a) as [|ra ca IH]; intros [|rb cb] Ha Hb; simpl;
      try constructor.
    + rewrite length_app. inversion Ha; inversion Hb; subst. lia.
    + apply IH; [by inversion Ha | by inversion Hb].
Qed.

Lemma transpose_shaped m : well_shaped m -> well_shaped (transpose m).
Proof.
  intros [Hm _]. split; simpl.
  - by rewrite length_map, length_seq.
  - apply Forall_forall. intros r Hr.
    apply list_elem_of_In, in_map_iff in Hr as (j & <- & _).
    by rewrite length_map.
Qed.

End MatFacts.

Section AudioFeatures.

Context {frame pix row : Type}.
Variable E : Env frame pix row.
Hypothesis E_ok : env_ok E.

Lemma accumulate_segment_ok (output : matrix) (w : wav) :
  channels w = 1 ->
  well_shaped output -> nrows output = 20%nat ->
  exists m, accumulate_segment E output w = Ok m /\
            well_shaped m /\ nrows m = 20%nat /\
            ncols m = (ncols output + frames_of E w)%nat.
Proof.
  intros Hmono Hs Hr. unfold accumulate_segment. rewrite Hmono.
  change (1 =? 1) with true. cbv iota.
  set (feats := mfcc E _ _).
  assert (Hrows : nrows output = nrows feats).
  { rewrite Hr. symmetry. apply (mfcc_rows E E_ok). }
  eexists. split; [by apply MatFacts.concatenate1_ok|].
  pose proof (MatFacts.concatenate1_shaped output feats _ Hs
                (mfcc_shaped E E_ok _ _) (MatFacts.concatenate1_ok _ _ Hrows))
    as (Hw & Hn & Hc).
  split; [exact Hw|]. split; [by rewrite Hn|exact Hc].
Qed.

Lemma concat_segments_ok (segments : list wav) (output : matrix) :
  Forall (fun w => channels w = 1) segments ->
  well_shaped output -> nrows output = 20%nat ->
  exists m, concat_segments E output segments = Ok m /\
            well_shaped m /\ nrows m = 20%nat /\
            ncols m = (ncols output + sum_list (map (frames_of E) segments))%nat.
Proof.
  intros Hmono. revert output.
  induction Hmono as [|w rest Hw _ IH]; intros output Hs Hr; simpl.
  - exists output. split; [done|]. split; [done|]. split; [done|]. simpl. lia.
  - destruct (accumulate_segment_ok output w Hw Hs Hr)
      as (m1 & -> & Hs1 & Hr1 & Hc1).
    simpl. destruct (IH m1 Hs1 Hr1) as (m & -> & Hsm & Hrm & Hcm).
    exists m. split; [done|]. split; [done|]. split; [done|].
    rewrite Hcm, Hc1. simpl. lia.
Qed.

End AudioFeatures.

Module ExampleFacts.
Import Example.

Lemma env_ok_of_order (order : list string -> list string) :
  (forall l, order l ≡ₚ l) -> env_ok (env order).
Proof.
  intros Hperm. split.
  - exact Hperm.
  - reflexivity.
  - intros y sr. split; simpl.
    + reflexivity.
    + repeat constructor.
Qed.

Lemma ascending_perm l : ascending l ≡ₚ l.
Proof. apply merge_sort_Permutation. Qed.

Lemma descending_perm l : descending l ≡ₚ l.
Proof.
  unfold descending. rewrite reverse_Permutation. apply merge_sort_Permutation.
Qed.

Lemma env_ascending_ok : env_ok (env ascending).
Proof. apply env_ok_of_order, ascending_perm. Qed.

Lemma env_descending_ok : env_ok (env descending).
Proof. apply env_ok_of_order, descending_perm. Qed.

End ExampleFacts.

(** ** The monad and the file system *)

Section MonadFacts.

Context {frame row : Type}.

Lemma bind_unfold {A B} (m : M frame row A) (k : A -> M frame row B) st :
  (m ≫= k) st =
  match m st with
  | (Ok a, st') => k a st'
  | (Raise e, st') => (Raise e, st')
  end.
Proof. reflexivity. Qed.

Lemma bind_ok {A B} (m : M frame row A) (k : A -> M frame row B) st a st' :
  m st = (Ok a, st') -> (m ≫= k) st = k a st'.
Proof. intros H. by rewrite bind_unfold, H. Qed.


(** A sequence that returns normally ran both of its parts. *)
Lemma bind_inv_ok {A B} (m : M frame row A) (k : A -> M frame row B) st b st2 :
  (m ≫= k) st = (Ok b, st2) ->
  exists a st1, m st = (Ok a, st1) /\ k a st1 = (Ok b, st2).
Proof.
  rewrite bind_unfold. destruct (m st) as [[a|e] st1]; [eauto | discriminate].
Qed.



End MonadFacts.

Section FsFacts.

Context {frame pix row : Type}.
Variable E : Env frame pix row.
Hypothesis E_ok : env_ok E.

Lemma elem_of_entries {A} (d : gmap string A) name :
  name ∈ entries E d <-> is_Some (d !! name).
Proof.
  unfold entries. rewrite (listdir_perm E E_ok).
  rewrite list_elem_of_fmap. split.
  - intros ([k v] & -> & Hkv). apply elem_of_map_to_list in Hkv. eauto.
  - intros [v Hv]. exists (name, v). split; [done|].
    by apply elem_of_map_to_list.
Qed.

Lemma NoDup_entries {A} (d : gmap string A) : NoDup (entries E d).
Proof.
  unfold entries. rewrite (listdir_perm E E_ok).
  apply NoDup_fst_map_to_list.
Qed.

Lemma dir_of_insert (fs : gmap string (node frame row)) id d :
  dir_of (<[id := Dir d]> fs) id = d.
Proof. unfold dir_of. by rewrite lookup_insert_eq. Qed.


Lemma dir_of_Dir (fs : gmap string (node frame row)) id d :
  fs !! id = Some (Dir d) -> dir_of fs id = d.
Proof. intros H. unfold dir_of. by rewrite H. Qed.

(** The loop of lines 77-79 and 152-154: when it ends normally, a name with
    the suffix that was listed or absent before is absent after. *)
Lemma remove_loop_inv dst suffix files (st st' : state frame row) :
  for_each files (fun file =>
    if Str.endswith file suffix then remove dst file else mret ()) st
    = (Ok (), st') ->
  forall name, Str.endswith name suffix = true ->
    name ∈ files \/ dir_of (st_fs st) dst !! name = None ->
    dir_of (st_fs st') dst !! name = None.
Proof.
  revert st. induction files as [|x files IH]; intros st Hrun name Hsuf Hname.
  - simpl in Hrun. injection Hrun as <-.
    destruct Hname as [Hin|Hnone]; [by apply elem_of_nil in Hin | done].
  - simpl in Hrun. apply bind_inv_ok in Hrun as ([] & st1 & Hx & Hrest).
    apply (IH st1 Hrest name Hsuf).
    destruct (Str.endswith x suffix) eqn:Hx_suf.
    + unfold remove, get_fs, set_fs, raise, lift in Hx.
      rewrite bind_unfold in Hx. simpl in Hx.
      destruct (st_fs st !! dst) as [[f|d]|] eqn:Hdst; try discriminate.
      destruct (d !! x) eqn:Hdx; [|discriminate].
      injection Hx as <-. simpl. rewrite dir_of_insert.
      destruct (decide (name = x)) as [->|Hne].
      * right. apply lookup_delete_eq.
      * destruct Hname as [Hin|Hnone].
        -- left. apply elem_of_cons in Hin as [?|?]; [done|done].
        -- right. rewrite lookup_delete_ne by done.
           by rewrite (dir_of_Dir _ _ _ Hdst) in Hnone.
    + injection Hx as <-.
      destruct Hname as [Hin|Hnone]; [|by right].
      apply elem_of_cons in Hin as [->|?]; [congruence | by left].
Qed.

Lemma remove_suffix_inv dst suffix (st st' : state frame row) :
  remove_suffix E dst suffix st = (Ok (), st') ->
  no_suffix suffix (st_fs st') dst.
Proof.
  unfold remove_suffix. intros Hrun.
  apply bind_inv_ok in Hrun as (files & st1 & Hls & Hloop).
  unfold listdir, get_fs, raise, lift in Hls. rewrite bind_unfold in Hls.
  simpl in Hls.
  destruct (st_fs st !! dst) as [[f|d]|] eqn:Hdst; try discriminate.
  injection Hls as <- <-.
  intros name Hsuf. apply (remove_loop_inv _ _ _ _ _ Hloop name Hsuf).
  rewrite (dir_of_Dir _ _ _ Hdst).
  destruct (d !! name) eqn:Hn; [left | by right].
  apply elem_of_entries. eauto.
Qed.

End FsFacts.

(** ** Transient files *)

Ltac peel H :=
  let a := fresh "a" in
  let s := fresh "st" in
  let Ha := fresh "Hstep" in
  apply bind_inv_ok in H as (a & s & Ha & H).

Lemma extract_image_feats_body_removes {frame pix row : Type}
    (E : Env frame pix row) opt net load video (st st' : state frame row) :
  env_ok E ->
  extract_image_feats_body E opt net load video st = (Ok (), st') ->
  no_suffix ".jpg" (st_fs st') (Str.video_id video).
Proof.
  intros E_ok Hrun. unfold extract_image_feats_body in Hrun.
  do 6 peel Hrun. destruct a4 as [[C H] W].
  do 3 peel Hrun.
  by eapply remove_suffix_inv.
Qed.

Lemma split_audio_body_removes {frame pix row : Type}
    (E : Env frame pix row) opt audio (st st' : state frame row) :
  env_ok E ->
  split_audio_body E opt audio st = (Ok (), st') ->
  no_suffix ".wav" (st_fs st')
            (Str.video_id (output_dir opt +:+ "/" +:+ audio)).
Proof.
  intros E_ok Hrun. unfold split_audio_body in Hrun.
  do 7 peel Hrun.
  by eapply remove_suffix_inv.
Qed.

(** C6, as stated, fails: when the encoder call raises (here on the batch of
    a single frame) the run ends with the frames of that video still in its
    directory. *)
Lemma frames_left_after_failure :
  let st' := snd (Example.run Example.ascending "resnet152" 1 ["clip.mp4"]) in
  fst (Example.run Example.ascending "resnet152" 1 ["clip.mp4"])
    = Raise RuntimeError /\
  Example.files_of st' "clip"
    = ["000001.jpg"; "000002.jpg"; "000003.jpg"; "audio.npy"] /\
  ~ no_suffix ".jpg" (st_fs st') "clip".
Proof.
  cbv zeta. split; [by vm_compute|]. split; [by vm_compute|].
  intros H. specialize (H "000001.jpg" eq_refl).
  vm_compute in H. discriminate.
Qed.

(** ** A video without frames *)

Lemma getitem_nil {A} (i : Z) : getitem (@nil A) i = Raise IndexError.
Proof. unfold getitem. simpl. by destruct (_ || _). Qed.

Lemma sample_indices_cons (len n : Z) :
  1 <= n -> exists k rest, Np.sample_indices len n = Ok (k :: rest).
Proof.
  intros Hn. destruct (Z.eq_dec n 1) as [->|Hn1].
  - by eexists _, _.
  - rewrite NpFacts.sample_indices_positions by lia.
    rewrite seqZ_cons by lia. by eexists _, _.
Qed.

(** Line 66 on an empty list of frames: the first index already is out of
    range. *)
Lemma select_frames_nil {A} (n : Z) :
  1 <= n -> Np.select_frames (@nil A) n = Raise IndexError.
Proof.
  intros Hn. unfold Np.select_frames.
  change (Z.of_nat (length (@nil A))) with 0.
  destruct (sample_indices_cons 0 n Hn) as (k & rest & ->).
  simpl. by rewrite getitem_nil.
Qed.

Lemma sample_indices_fl_cons (fl : Q -> Q) (len n : Z) :
  1 <= n -> exists k rest, Np.sample_indices_fl fl len n = Ok (k :: rest).
Proof.
  intros Hn. unfold Np.sample_indices_fl, Np.linspace_fl.
  destruct (Z.ltb_spec n 0); [lia|].
  destruct (Z.eqb_spec n 1); [by eexists _, _|].
  rewrite seqZ_cons by lia. by eexists _, _.
Qed.

(** Line 66 on an empty list of frames, as numpy computes the indices. *)
Lemma select_frames_fl_nil {A} (fl : Q -> Q) (n : Z) :
  1 <= n -> Np.select_frames_fl fl (@nil A) n = Raise IndexError.
Proof.
  intros Hn. unfold Np.select_frames_fl.
  change (Z.of_nat (length (@nil A))) with 0.
  destruct (sample_indices_fl_cons fl 0 n Hn) as (k & rest & ->).
  simpl. by rewrite getitem_nil.
Qed.


Section EmptySequence.

Context {frame pix row : Type}.
Variable E : Env frame pix row.
Hypothesis E_ok : env_ok E.



End EmptySequence.




(** ** The image batch *)

Section ImageBatch.

Context {frame pix row : Type}.
Variable E : Env frame pix row.

Lemma lift_inv {A} (r : result A) (st st' : state frame row) a :
  lift r st = (Ok a, st') -> r = Ok a /\ st' = st.
Proof. unfold lift. by intros [= -> ->]. Qed.

(** A loop that rebinds [acc] and returns normally keeps what every round
    keeps. *)
Lemma for_fold_invariant {A B} (P : B -> Prop)
    (body : B -> A -> M frame row B) (l : list A) acc st b st' :
  for_fold l acc body st = (Ok b, st') ->
  P acc ->
  (forall acc x st acc' st', body acc x st = (Ok acc', st') -> P acc -> P acc') ->
  P b.
Proof.
  intros Hrun Hacc Hbody. revert acc st Hrun Hacc.
  induction l as [|x l IH]; intros acc st Hrun Hacc.
  - by injection Hrun as <- _.
  - cbn [for_fold] in Hrun.
    apply bind_inv_ok in Hrun as (acc1 & st1 & Hx & Hrest).
    apply (IH acc1 st1 Hrest). by eapply Hbody.
Qed.

Lemma setitem_shape (images images' : tensor pix) i img :
  setitem images i img = Ok images' -> tshape images' = tshape images.
Proof.
  unfold setitem. destruct (tshape images) as [|n slot] eqn:Hs; [done|].
  repeat case_decide; try done. by intros [= <-].
Qed.

(** Lines 68-70 fill the batch and leave its shape alone. *)
Lemma fill_images_shape load dst image_list images images'
    (st st' : state frame row) :
  fill_images E load dst image_list images st = (Ok images', st') ->
  tshape images' = tshape images.
Proof.
  intros Hrun.
  apply (for_fold_invariant (fun t => tshape t = tshape images) _ _ _ _ _ _ Hrun);
    [done|].
  intros acc i st1 acc' st1' Hbody Hacc.
  apply bind_inv_ok in Hbody as (path & st2 & _ & Hbody).
  apply bind_inv_ok in Hbody as (img & st3 & _ & Hbody).
  apply lift_inv in Hbody as [Hset _].
  by rewrite (setitem_shape _ _ _ _ Hset).
Qed.

Lemma rmapM_length {A B} (f : A -> result B) l l' :
  rmapM f l = Ok l' -> length l' = length l.
Proof.
  revert l'. induction l as [|x l IH]; intros l'; simpl.
  - by intros [= <-].
  - destruct (f x) as [y|e]; [|done]. simpl.
    destruct (rmapM f l) as [ys|e]; [|done]. simpl.
    intros [= <-]. simpl. by rewrite (IH ys).
Qed.

Lemma sample_indices_fl_length (fl : Q -> Q) (len n : Z) :
  1 <= n ->
  exists indices,
    Np.sample_indices_fl fl len n = Ok indices /\
    Z.of_nat (length indices) = n.
Proof.
  intros Hn. unfold Np.sample_indices_fl, Np.linspace_fl.
  destruct (Z.ltb_spec n 0); [lia|].
  destruct (Z.eqb_spec n 1) as [->|Hn1]; [by eexists|].
  eexists. split; [reflexivity|].
  rewrite !length_map, length_seqZ. lia.
Qed.

Lemma select_frames_length {A} (fl : Q -> Q) (image_list image_list' : list A) n :
  1 <= n ->
  Np.select_frames_fl fl image_list n = Ok image_list' ->
  Z.of_nat (length image_list') = n.
Proof.
  intros Hn. unfold Np.select_frames_fl.
  destruct (sample_indices_fl_length fl (Z.of_nat (length image_list)) n Hn)
    as (idx & -> & Hlen).
  simpl. intros H. apply rmapM_length in H. lia.
Qed.

(** A tensor that had an axis of length 1 removed is no batch of images. *)
Lemma forward_squeezed net (images : tensor pix) C H W :
  tshape images = [1; C; H; W]%nat ->
  forward E net (squeeze images) = Raise RuntimeError.
Proof.
  intros Hs. unfold forward, squeeze. simpl. rewrite Hs.
  rewrite filter_cons_False by (intros Hne; by apply Hne).
  repeat (rewrite filter_cons; case_decide); by rewrite ?filter_nil.
Qed.

(** Lines 67-73 with [n_frame_steps = 1], for every video and every state:
    the body does not return normally, so it saves no [video.npy]. *)
Lemma single_frame_step_never_returns opt net load video
    (st st' : state frame row) :
  n_frame_steps opt = 1 ->
  extract_image_feats_body E opt net load video st <> (Ok (), st').
Proof.
  intros Hn Hrun. unfold extract_image_feats_body in Hrun.
  do 6 peel Hrun. destruct a4 as [[C H] W].
  do 2 peel Hrun.
  apply lift_inv in Hstep3 as [Hsel _].
  rewrite Hn in Hsel. apply select_frames_length in Hsel; [|lia].
  apply fill_images_shape in Hstep5. simpl in Hstep5.
  replace (length a3) with 1%nat in Hstep5 by lia.
  apply lift_inv in Hstep6 as [Hfw _].
  by rewrite (forward_squeezed _ _ _ _ _ Hstep5) in Hfw.
Qed.

(** The steps of lines 57-66 do not assign the module-level [C, H, W]. *)
Lemma path_exists_CHW name (st st' : state frame row) r :
  path_exists name st = (r, st') -> st_CHW st' = st_CHW st.
Proof. by intros [= _ <-]. Qed.

Lemma mkdir_CHW name (st st' : state frame row) r :
  mkdir name st = (r, st') -> st_CHW st' = st_CHW st.
Proof.
  unfold mkdir, get_fs. rewrite bind_unfold. cbn beta iota.
  destruct (st_fs st !! name); by intros [= _ <-].
Qed.

Lemma print_CHW line (st st' : state frame row) r :
  print line st = (r, st') -> st_CHW st' = st_CHW st.
Proof. by intros [= _ <-]. Qed.

Lemma ffmpeg_write_CHW dst files (st st' : state frame row) r :
  ffmpeg_write dst files st = (r, st') -> st_CHW st' = st_CHW st.
Proof.
  unfold ffmpeg_write, get_fs. rewrite bind_unfold. cbn beta iota.
  destruct (st_fs st !! dst) as [[f|d]|]; by intros [= _ <-].
Qed.

Lemma glob_jpg_sorted_CHW dst (st st' : state frame row) r :
  glob_jpg_sorted E dst st = (r, st') -> st_CHW st' = st_CHW st.
Proof.
  unfold glob_jpg_sorted, get_fs. rewrite bind_unfold. cbn beta iota.
  destruct (st_fs st !! dst) as [[f|d]|]; by intros [= _ <-].
Qed.

Lemma load_image_fn_shape enc dst name (st st' : state frame row) img :
  load_image_fn E enc dst name st = (Ok img, st') ->
  ishape img = shape_of (input_size enc).
Proof.
  unfold load_image_fn, get_fs. rewrite bind_unfold. cbn beta iota.
  destruct (st_fs st !! dst) as [[f|d]|]; try done.
  destruct (d !! name) as [[f| | |]|]; try done.
  by intros [= <- _].
Qed.

(** Line 70 for an image of [inception_v3] and a slot of the module-level
    size: the image does not fit. *)
Lemma setitem_299 (images : tensor pix) n i img :
  tshape images = [n; 3; 224; 224]%nat ->
  ishape img = shape_of (input_size inception_v3) ->
  (i < n)%nat ->
  setitem images i img = Raise RuntimeError.
Proof.
  intros Hs Hi Hlt. unfold setitem. rewrite Hs, Hi.
  rewrite decide_True by done. by rewrite decide_False.
Qed.

(** Lines 57-70 with [load_image_fn] built for [inception_v3], for every
    video and every state in which the module-level [C, H, W] are those of
    line 21: whenever a frame is selected, the body does not return
    normally. *)
Lemma inception_v3_never_fits opt net video (st st' : state frame row) :
  st_CHW st = (3, 224, 224)%nat ->
  1 <= n_frame_steps opt ->
  extract_image_feats_body E opt net inception_v3 video st <> (Ok (), st').
Proof.
  intros Hchw Hn Hrun. unfold extract_image_feats_body in Hrun.
  do 6 peel Hrun.
  assert (Ha4 : a4 = (3, 224, 224)%nat).
  { injection Hstep4 as <- _.
    apply lift_inv in Hstep3 as [_ ->].
    rewrite (glob_jpg_sorted_CHW _ _ _ _ Hstep2).
    rewrite (ffmpeg_write_CHW _ _ _ _ _ Hstep1).
    rewrite <- Hchw, <- (path_exists_CHW _ _ _ _ Hstep).
    destruct a; [by injection Hstep0 as _ <-|].
    apply bind_inv_ok in Hstep0 as ([] & st_mk & Hmk & Hpr).
    by rewrite (print_CHW _ _ _ _ Hpr), (mkdir_CHW _ _ _ _ Hmk). }
  subst a4. peel Hrun.
  apply lift_inv in Hstep3 as [Hsel _].
  apply select_frames_length in Hsel; [|done].
  destruct a3 as [|x rest]; [simpl in Hsel; lia|].
  unfold fill_images in Hstep5. cbn [length seq for_fold] in Hstep5.
  apply bind_inv_ok in Hstep5 as (images1 & st7 & Hfirst & _).
  apply bind_inv_ok in Hfirst as (path & st8 & _ & Hfirst).
  apply bind_inv_ok in Hfirst as (img & st9 & Hload & Hset).
  apply lift_inv in Hset as [Hset _].
  rewrite (setitem_299 _ (S (length rest)) 0 img) in Hset; [done|done| |lia].
  by apply load_image_fn_shape in Hload.
Qed.

End ImageBatch.

(** C8 on the code: [main] binds [C, H, W = 3, 299, 299] as locals; the
    batch of line 67 is allocated from the module-level names, which still
    are [3, 224, 224]. With [--model inception_v3] the first image, of size
    [299 x 299], does not fit its slot: line 70 raises, no batch reaches the
    encoder and no [video.npy] is written. *)
Theorem inception_v3_batch_is_224 :
  let st := snd (Example.run Example.ascending "inception_v3" 4 ["clip.mp4"]) in
  input_size inception_v3 = (3, 299, 299)%nat /\
  fst (select_model "inception_v3" (initial_state (∅ : gmap string (node Z Z))))
    = Ok (Locals (Some (3, 299, 299)%nat) (Some inception_v3) (Some inception_v3)) /\
  st_CHW st = (3, 224, 224)%nat /\
  (forall n, tshape (torch_zeros 0 n 3 224 224) = [n; 3; 224; 224]%nat) /\
  fst (Example.run Example.ascending "inception_v3" 4 ["clip.mp4"])
    = Raise RuntimeError /\
  dir_of (st_fs st) "clip" !! "video.npy" = None.
Proof.
  cbv zeta. split; [reflexivity|]. split; [reflexivity|].
  split; [by vm_compute|]. split; [reflexivity|].
  split; by vm_compute.
Qed.

(** C2 on the code: with [--n_frame_steps 1] the batch has shape
    [(1, 3, 224, 224)]; [squeeze()] removes its first axis, the encoder gets
    a tensor of rank 3 and raises; no [video.npy] with one row is saved. *)
Theorem single_frame_step_saves_nothing :
  let st := snd (Example.run Example.ascending "resnet152" 1 ["clip.mp4"]) in
  tshape (squeeze (torch_zeros 0 1 3 224 224)) = [3; 224; 224]%nat /\
  fst (Example.run Example.ascending "resnet152" 1 ["clip.mp4"])
    = Raise RuntimeError /\
  dir_of (st_fs st) "clip" !! "video.npy" = None.
Proof.
  cbv zeta. split; [reflexivity|]. split; by vm_compute.
Qed.

(** ** The order of the audio segments *)

(** C4 on the code: line 137 visits the segments in the order [os.listdir]
    returns them. When the directory is enumerated by descending name, the
    saved array holds the coefficients of segment [01.wav] before those of
    segment [00.wav]; the array in temporal order is another one. *)
Theorem audio_segments_in_listing_order :
  let E := Example.env Example.descending in
  let st := snd (Example.run Example.descending "resnet152" 4 ["clip.mp4"]) in
  let seg0 := Wav 16000 [5; 6] in
  let seg1 := Wav 16000 [7] in
  ffmpeg_segments E "out/clip.wav" (Wav 16000 [5; 6; 7])
    = [audio_info seg0; audio_info seg1] /\
  (exists m, audio_features E [seg1; seg0] = Ok m /\
             dir_of (st_fs st) "clip" !! "audio.npy" = Some (AudioNpy m)) /\
  (forall m, audio_features E [seg0; seg1] = Ok m ->
             dir_of (st_fs st) "clip" !! "audio.npy" <> Some (AudioNpy m)).
Proof.
  cbv zeta. split; [reflexivity|]. split.
  - eexists. split; [by vm_compute | by vm_compute].
  - intros m Hm. vm_compute in Hm. injection Hm as <-.
    vm_compute. discriminate.
Qed.

(** ** An unsupported model name *)

(** Names of the entries of [output_dir]. *)
Module NameFacts.
Import Str.

Lemma drop_length_app s suf : drop (String.length s) (s +:+ suf) = suf.
Proof. induction s as [|c s IH]; simpl; [by destruct suf | exact IH]. Qed.

Lemma length_app s t :
  String.length (s +:+ t) = (String.length s + String.length t)%nat.
Proof. induction s as [|c s IH]; simpl; [done | by rewrite IH]. Qed.

Lemma endswith_app s suf : endswith (s +:+ suf) suf = true.
Proof.
  unfold endswith. rewrite length_app.
  replace (String.length s + String.length suf - String.length suf)%nat
    with (String.length s) by lia.
  rewrite drop_length_app, String.eqb_refl.
  apply andb_true_intro. split; [|done]. apply Nat.leb_le. lia.
Qed.



(** No field of a split holds the separator. *)
Lemma split_fields sep s f : f ∈ split sep s -> occurs sep f = false.
Proof.
  revert f. induction s as [|c s IH]; simpl; intros f Hf.
  - apply list_elem_of_singleton in Hf as ->. done.
  - destruct (Ascii.eqb c sep) eqn:Hc.
    + apply elem_of_cons in Hf as [->|Hf]; [done | by apply IH].
    + destruct (split sep s) as [|w ws] eqn:Hs.
      * apply list_elem_of_singleton in Hf as ->. simpl. by rewrite Hc.
      * apply elem_of_cons in Hf as [->|Hf].
        -- simpl. rewrite Hc. apply IH. by left.
        -- apply IH. by right.
Qed.

Lemma last_field_elem l : l <> [] -> last_field l ∈ l.
Proof.
  unfold last_field. induction l as [|x [|y l] IH]; intros H; [done| |].
  - by left.
  - right. apply IH. done.
Qed.

Lemma first_field_elem l : l <> [] -> first_field l ∈ l.
Proof. destruct l; [done|]. intros _. by left. Qed.

(** The characters of the first field are characters of the string. *)
Lemma first_field_occurs sep c s :
  occurs c (first_field (split sep s)) = true -> occurs c s = true.
Proof.
  induction s as [|d s IH]; simpl; [done|].
  destruct (Ascii.eqb d sep); simpl; [done|].
  destruct (split sep s) as [|w ws] eqn:Hs; simpl.
  - by apply StrFacts.split_nonempty in Hs.
  - simpl in IH. destruct (Ascii.eqb d c); simpl; [done | exact IH].
Qed.

Lemma video_id_identifier path : identifier (video_id path).
Proof.
  unfold video_id. split.
  - apply (split_fields "."%char (last_field (split "/"%char path))).
    apply first_field_elem, StrFacts.split_nonempty.
  - destruct (occurs "/" (first_field _)) eqn:H; [|done].
    apply first_field_occurs in H.
    rewrite (split_fields "/"%char path) in H; [done|].
    apply last_field_elem, StrFacts.split_nonempty.
Qed.




End NameFacts.

Section AudioStage.

Context {frame pix row : Type}.
Variable E : Env frame pix row.
Hypothesis E_ok : env_ok E.
Variable opt : options.

Implicit Types (fs : gmap string (node frame row)) (st : state frame row).
Implicit Types (d : gmap string (file frame row)).







(** *** The primitives on a state *)

Lemma path_exists_spec name st :
  path_exists name st = (Ok (bool_decide (is_Some (st_fs st !! name))), st).
Proof. reflexivity. Qed.

Lemma mkdir_ok name st :
  st_fs st !! name = None ->
  mkdir name st = (Ok (), with_fs st (<[name := Dir ∅]> (st_fs st))).
Proof. intros H. unfold mkdir, get_fs. rewrite bind_unfold. by rewrite H. Qed.

Lemma rmtree_ok name st d :
  st_fs st !! name = Some (Dir d) ->
  rmtree name st = (Ok (), with_fs st (delete name (st_fs st))).
Proof. intros H. unfold rmtree, get_fs. rewrite bind_unfold. by rewrite H. Qed.

Lemma listdir_ok dst st d :
  st_fs st !! dst = Some (Dir d) -> listdir E dst st = (Ok (entries E d), st).
Proof. intros H. unfold listdir, get_fs. rewrite bind_unfold. by rewrite H. Qed.

Lemma np_save_ok dst name f st d :
  st_fs st !! dst = Some (Dir d) ->
  np_save dst name f st
  = (Ok (), with_fs st (<[dst := Dir (<[name := f]> d)]> (st_fs st))).
Proof. intros H. unfold np_save, get_fs. rewrite bind_unfold. by rewrite H. Qed.

Lemma remove_ok dst name st d f :
  st_fs st !! dst = Some (Dir d) -> d !! name = Some f ->
  remove dst name st
  = (Ok (), with_fs st (<[dst := Dir (delete name d)]> (st_fs st))).
Proof.
  intros H Hf. unfold remove, get_fs. rewrite bind_unfold. by rewrite H, Hf.
Qed.


Lemma ffmpeg_write_ok dst files st d :
  st_fs st !! dst = Some (Dir d) ->
  ffmpeg_write dst files st
  = (Ok (), with_fs st
      (<[dst := Dir (foldl (fun d nf => <[nf.1 := nf.2]> d) d files)]> (st_fs st))).
Proof.
  intros H. unfold ffmpeg_write, get_fs. rewrite bind_unfold. by rewrite H.
Qed.

Lemma ffmpeg_write_root_spec name f st :
  ffmpeg_write_root name f st
  = (Ok (), match st_fs st !! name with
            | None => with_fs st (<[name := File f]> (st_fs st))
            | Some _ => st
            end).
Proof.
  unfold ffmpeg_write_root, get_fs. rewrite bind_unfold. simpl.
  by destruct (st_fs st !! name).
Qed.

Lemma wavfile_read_ok dst segment st d w :
  st_fs st !! dst = Some (Dir d) -> d !! segment = Some (WavFile w) ->
  wavfile_read dst segment st = (Ok w, st).
Proof.
  intros H Hw. unfold wavfile_read, get_fs. rewrite bind_unfold. by rewrite H, Hw.
Qed.


(** *** [vToA] *)


(** *** [split_audio] *)

Lemma with_fs_id st : with_fs st (st_fs st) = st.
Proof. by destruct st. Qed.

Lemma with_fs_with_fs st fs fs' : with_fs (with_fs st fs) fs' = with_fs st fs'.
Proof. reflexivity. Qed.

Lemma segment_dir_empty : segment_dir (∅ : gmap string (file frame row)).
Proof. intros name f H. by rewrite lookup_empty in H. Qed.

Lemma segment_dir_write d (files : list (string * file frame row)) :
  segment_dir d ->
  Forall (fun nf => (exists w, nf.2 = WavFile w /\ channels w = 1) /\
                    Str.endswith nf.1 ".wav" = true) files ->
  segment_dir (foldl (fun d nf => <[nf.1 := nf.2]> d) d files).
Proof.
  intros Hd Hfiles. revert d Hd.
  induction Hfiles as [|[n f] files [Hf Hn] _ IH]; intros d Hd; [done|].
  simpl. apply IH. intros name f'. rewrite lookup_insert.
  case_decide as Hname; [|apply Hd].
  intros [= <-]. by subst name.
Qed.

Lemma segment_files c sr (segments : list (list Z)) :
  c = 1 ->
  Forall (fun nf : string * file frame row =>
            (exists w, nf.2 = WavFile w /\ channels w = 1) /\
            Str.endswith nf.1 ".wav" = true)
         (imap (fun k s => (Fmt.wav_name k, WavFile (Sound c sr s))) segments).
Proof.
  intros ->. apply Forall_forall. intros nf Hnf.
  apply elem_of_lookup_imap in Hnf as (k & s & -> & _). simpl. split.
  - by eexists.
  - apply NameFacts.endswith_app.
Qed.


(** Lines 137-148: every listed segment is read and appended. *)
Lemma read_loop dst d names output st :
  st_fs st !! dst = Some (Dir d) ->
  segment_dir d ->
  (forall n, n ∈ names -> is_Some (d !! n)) ->
  well_shaped output -> nrows output = 20%nat ->
  exists m,
    for_fold names output (fun output segment =>
      w ← wavfile_read dst segment;
      lift (accumulate_segment E output w)) st = (Ok m, st) /\
    concat_segments E output (read_all d names) = Ok m /\
    well_shaped m /\ nrows m = 20%nat.
Proof.
  intros Hdst Hd. revert output.
  induction names as [|n names IH]; intros output Hnames Hs Hr.
  - by exists output.
  - destruct (Hnames n) as [f Hf]; [by left|].
    destruct (Hd _ _ Hf) as [(w & -> & Hmono) _].
    destruct (accumulate_segment_ok E E_ok output w Hmono Hs Hr)
      as (m1 & Hacc & Hs1 & Hr1 & _).
    destruct (IH m1) as (m & Hloop & Hcat & Hsm & Hrm); [|done|done|].
    { intros n' Hn'. apply Hnames. by right. }
    exists m. split; [|split; [|done]].
    + cbn [for_fold].
      rewrite (bind_ok _ _ _ m1 st); [exact Hloop|].
      rewrite (bind_ok _ _ _ _ _ (wavfile_read_ok _ _ _ _ _ Hdst Hf)).
      unfold lift. by rewrite Hacc.
    + unfold read_all. cbn [omap list_omap]. rewrite Hf. cbn [concat_segments].
      rewrite Hacc. exact Hcat.
Qed.

(** Lines 77-79 and 152-154 return normally: every listed name is removed at
    most once. *)
Lemma remove_loop_ok dst suffix files d st :
  st_fs st !! dst = Some (Dir d) ->
  NoDup files ->
  (forall f, f ∈ files -> is_Some (d !! f)) ->
  exists d',
    for_each files (fun file =>
      if Str.endswith file suffix then remove dst file else mret ()) st
    = (Ok (), with_fs st (<[dst := Dir d']> (st_fs st))) /\
    (forall k, d' !! k = None \/ d' !! k = d !! k) /\
    (forall k, k ∈ files -> Str.endswith k suffix = true -> d' !! k = None) /\
    (forall k, Str.endswith k suffix = false -> d' !! k = d !! k).
Proof.
  intros Hdst Hnd. revert d st Hdst.
  induction Hnd as [|x files Hx Hnd IH]; intros d st Hdst Hfiles.
  - exists d. split; [|split; [|split]].
    + simpl. by rewrite insert_id, with_fs_id.
    + by right.
    + intros k Hk. by apply elem_of_nil in Hk.
    + done.
  - destruct (Str.endswith x suffix) eqn:Hsuf.
    + destruct (Hfiles x) as [f Hf]; [by left|].
      pose proof (remove_ok dst x st d f Hdst Hf) as Hrm.
      set (st1 := with_fs st (<[dst := Dir (delete x d)]> (st_fs st))) in *.
      destruct (IH (delete x d) st1) as (d' & Hloop & Hsub & Hgone & Hkept).
      { simpl. apply lookup_insert_eq. }
      { intros f' Hf'. rewrite lookup_delete_ne.
        - apply Hfiles. by right.
        - intros ->. done. }
      exists d'. split; [|split; [|split]].
      * cbn [for_each]. rewrite (bind_ok _ _ _ () st1); [|by rewrite Hsuf].
        rewrite Hloop. subst st1. simpl. by rewrite insert_insert_eq.
      * intros k. destruct (Hsub k) as [?|Hk]; [by left|].
        rewrite Hk, lookup_delete. case_decide; [by left | by right].
      * intros k Hk Hksuf. apply elem_of_cons in Hk as [->|Hk].
        -- destruct (Hsub x) as [?|Hk]; [done|]. by rewrite Hk, lookup_delete_eq.
        -- by apply Hgone.
      * intros k Hk. rewrite (Hkept k Hk). apply lookup_delete_ne.
        intros ->. congruence.
    + destruct (IH d st Hdst) as (d' & Hloop & Hsub & Hgone & Hkept).
      { intros f' Hf'. apply Hfiles. by right. }
      exists d'. split; [|split; [done|split; [|done]]].
      * cbn [for_each]. rewrite (bind_ok _ _ _ () st); [done|by rewrite Hsuf].
      * intros k Hk Hksuf. apply elem_of_cons in Hk as [->|Hk]; [congruence|].
        by apply Hgone.
Qed.

Lemma remove_suffix_ok dst suffix d st :
  st_fs st !! dst = Some (Dir d) ->
  exists d',
    remove_suffix E dst suffix st
    = (Ok (), with_fs st (<[dst := Dir d']> (st_fs st))) /\
    (forall k, d' !! k = None \/ d' !! k = d !! k) /\
    (forall k, Str.endswith k suffix = false -> d' !! k = d !! k).
Proof.
  intros Hdst. unfold remove_suffix.
  rewrite (bind_ok _ _ _ _ _ (listdir_ok _ _ _ Hdst)).
  destruct (remove_loop_ok dst suffix (entries E d) d st Hdst)
    as (d' & ? & ? & _ & ?).
  - apply (NoDup_entries E E_ok).
  - intros f Hf. by apply (elem_of_entries E E_ok).
  - by exists d'.
Qed.










End AudioStage.


(** * Further properties of the code *)

(** ** The frame sampler: edge cases of lines 64-66 *)

Module SamplerFacts.

Lemma index_of_Z z : Np.index_of (inject_Z z) = z.
Proof. by rewrite NpFacts.index_of_round, NpFacts.round_half_even_Z. Qed.

Lemma index_of_proper q1 q2 : (q1 == q2)%Q -> Np.index_of q1 = Np.index_of q2.
Proof.
  intros H. rewrite !NpFacts.index_of_round. by apply round_half_even_proper.
Qed.

(** With as many steps as frames the positions are the integers. *)
Lemma position_identity (div i : Z) :
  0 < div -> (Np.position (inject_Z div) div i == inject_Z i)%Q.
Proof.
  intros Hd. unfold Np.position.
  destruct (Z.eqb_spec i div) as [->|Hne]; [reflexivity|].
  assert (H0 : (0 < inject_Z div)%Q).
  { change 0%Q with (inject_Z 0). by rewrite <- Zlt_Qlt. }
  field. lra.
Qed.

(** With a single frame every position is 0. *)
Lemma position_single (div i : Z) :
  0 < div -> (Np.position (inject_Z 0) div i == 0)%Q.
Proof.
  intros Hd. unfold Np.position.
  destruct (Z.eqb_spec i div) as [->|Hne]; [reflexivity|].
  assert (H0 : (0 < inject_Z div)%Q).
  { change 0%Q with (inject_Z 0). by rewrite <- Zlt_Qlt. }
  change (inject_Z 0) with 0%Q. field. lra.
Qed.

Lemma sample_indices_identity (n : Z) :
  1 <= n -> Np.sample_indices n n = Ok (seqZ 0 n).
Proof.
  intros Hn. destruct (Z.eq_dec n 1) as [->|Hn1]; [reflexivity|].
  rewrite NpFacts.sample_indices_positions by lia. f_equal.
  rewrite <- (map_id (seqZ 0 n)) at 2.
  apply map_ext. intros i.
  rewrite (index_of_proper _ (inject_Z i)); [apply index_of_Z|].
  apply position_identity. lia.
Qed.

Lemma sample_indices_single (n : Z) :
  1 <= n -> Np.sample_indices 1 n = Ok (replicate (Z.to_nat n) 0).
Proof.
  intros Hn. destruct (Z.eq_dec n 1) as [->|Hn1]; [reflexivity|].
  rewrite NpFacts.sample_indices_positions by lia. f_equal.
  change (1 - 1) with 0.
  transitivity (map (fun _ : Z => 0) (seqZ 0 n)).
  - apply map_ext. intros i.
    rewrite (index_of_proper _ (inject_Z 0)); [apply index_of_Z|].
    apply position_single. lia.
  - unfold seqZ. rewrite <- list_fmap_compose.
    generalize 0%nat. induction (Z.to_nat n) as [|k IH]; intros a; simpl;
      [done | by rewrite IH].
Qed.

(** The same two edges in rounded arithmetic. *)
Section RoundedEdges.

Variable fl : Q -> Q.
Hypothesis fl_ok : Np.float_like fl.

Lemma position_fl_identity (div i : Z) :
  1 <= div <= 2 ^ 53 -> 0 <= i <= div ->
  (Np.position_fl fl (inject_Z div) div i == inject_Z i)%Q.
Proof.
  intros Hd Hi. unfold Np.position_fl.
  destruct (Z.eqb_spec i div) as [->|Hne]; [reflexivity|].
  assert (H0 : (0 < inject_Z div)%Q).
  { change 0%Q with (inject_Z 0). rewrite <- Zlt_Qlt. lia. }
  set (D := inject_Z div) in *.
  assert (Hdelta : (fl (D - 0) == D)%Q).
  { rewrite (fl_proper fl fl_ok (D - 0)%Q D) by ring.
    apply (Np.fl_integer fl fl_ok). lia. }
  assert (Hstep : (fl (fl (D - 0) / D) == 1)%Q).
  { rewrite (fl_proper fl fl_ok (fl (D - 0) / D)%Q 1).
    - apply (Np.fl_integer fl fl_ok 1). lia.
    - rewrite Hdelta. field. lra. }
  destruct (Qeq_bool (fl (fl (D - 0) / D)) 0) eqn:Hb.
  { apply Qeq_bool_iff in Hb. rewrite Hstep in Hb. discriminate. }
  assert (H1 : (fl (inject_Z i * fl (fl (D - 0) / D)) == inject_Z i)%Q).
  { rewrite (fl_proper fl fl_ok _ (inject_Z i)).
    - apply (Np.fl_integer fl fl_ok). lia.
    - rewrite Hstep. ring. }
  rewrite (fl_proper fl fl_ok _ (inject_Z i)).
  - apply (Np.fl_integer fl fl_ok). lia.
  - rewrite H1. ring.
Qed.

Lemma position_fl_single (div i : Z) :
  1 <= div -> (Np.position_fl fl (inject_Z 0) div i == 0)%Q.
Proof.
  intros Hd. unfold Np.position_fl.
  destruct (Z.eqb_spec i div) as [->|Hne]; [reflexivity|].
  assert (H0 : (0 < inject_Z div)%Q).
  { change 0%Q with (inject_Z 0). rewrite <- Zlt_Qlt. lia. }
  set (D := inject_Z div) in *. change (inject_Z 0) with 0%Q.
  assert (Hz : forall q, (q == 0)%Q -> (fl q == 0)%Q).
  { intros q Hq. rewrite (fl_proper fl fl_ok _ _ Hq). apply (fl_zero fl fl_ok). }
  assert (Hdelta : (fl (0 - 0) == 0)%Q) by (apply Hz; ring).
  assert (Hstep : (fl (fl (0 - 0) / D) == 0)%Q).
  { apply Hz. rewrite Hdelta. field. lra. }
  destruct (Qeq_bool (fl (fl (0 - 0) / D)) 0) eqn:Hb.
  - apply Hz. rewrite (Hz (fl (inject_Z i / D) * fl (0 - 0))%Q); [ring|].
    rewrite Hdelta. ring.
  - apply Qeq_bool_neq in Hb. by destruct Hb.
Qed.

Lemma sample_indices_fl_identity (n : Z) :
  1 <= n <= 2 ^ 53 -> Np.sample_indices_fl fl n n = Ok (seqZ 0 n).
Proof.
  intros Hn. destruct (Z.eq_dec n 1) as [->|Hn1]; [reflexivity|].
  unfold Np.sample_indices_fl.
  rewrite (linspace_fl_positions fl) by lia. cbn [rmap rbind].
  rewrite !map_map. f_equal.
  rewrite <- (map_id (seqZ 0 n)) at 2.
  apply map_ext_in. intros i Hi.
  apply list_elem_of_In, elem_of_seqZ in Hi.
  change (Np.int (Np.round ?q)) with (Np.index_of q).
  rewrite (index_of_proper _ (inject_Z i)); [apply index_of_Z|].
  apply position_fl_identity; lia.
Qed.

Lemma sample_indices_fl_single (n : Z) :
  1 <= n -> Np.sample_indices_fl fl 1 n = Ok (replicate (Z.to_nat n) 0).
Proof.
  intros Hn. destruct (Z.eq_dec n 1) as [->|Hn1]; [reflexivity|].
  unfold Np.sample_indices_fl.
  rewrite (linspace_fl_positions fl) by lia. cbn [rmap rbind].
  rewrite !map_map. f_equal. change (1 - 1) with 0.
  transitivity (map (fun _ : Z => 0) (seqZ 0 n)).
  - apply map_ext. intros i.
    change (Np.int (Np.round ?q)) with (Np.index_of q).
    rewrite (index_of_proper _ (inject_Z 0)); [apply index_of_Z|].
    apply position_fl_single. lia.
  - unfold seqZ. rewrite <- list_fmap_compose.
    generalize 0%nat. induction (Z.to_nat n) as [|k IH]; intros a; simpl;
      [done | by rewrite IH].
Qed.

End RoundedEdges.

(** [rmapM] over a list on which [f] returns. *)
Lemma rmapM_ok {A B} (f : A -> result B) (g : A -> B) l :
  (forall x, x ∈ l -> f x = Ok (g x)) -> rmapM f l = Ok (map g l).
Proof.
  induction l as [|x l IH]; intros H; simpl; [done|].
  rewrite (H x) by by left. simpl. rewrite IH; [done|].
  intros y Hy. apply H. by right.
Qed.

Lemma getitem_lookup {A} (l : list A) (i : nat) x :
  l !! i = Some x -> getitem l (Z.of_nat i) = Ok x.
Proof.
  intros H. pose proof (lookup_lt_Some _ _ _ H) as Hlt.
  unfold getitem.
  destruct (Z.ltb_spec (Z.of_nat i) 0); [lia|].
  destruct (Z.ltb_spec (Z.of_nat i) 0); [lia|].
  destruct (Z.leb_spec (Z.of_nat (length l)) (Z.of_nat i)); [lia|]. simpl.
  by rewrite Nat2Z.id, H.
Qed.

End SamplerFacts.

Module SelectFacts.
Import SamplerFacts.

(** The indices of lines 64-65, for a non-empty list of frames. *)
Lemma sample_indices_spec (L n : Z) :
  1 <= L -> 1 <= n ->
  exists indices,
    Np.sample_indices L n = Ok indices /\
    Z.of_nat (length indices) = n /\
    Forall (fun k => 0 <= k <= L - 1) indices /\
    Sorted Z.le indices /\
    (2 <= n -> head indices = Some 0 /\ last indices = Some (L - 1)).
Proof.
  intros HL Hn.
  destruct (Z.eq_dec n 1) as [->|Hn1].
  - exists [0]. split; [done|]. split; [done|]. split; [|split; [|lia]].
    + repeat constructor; lia.
    + repeat constructor.
  - rewrite NpFacts.sample_indices_positions by lia.
    eexists. split; [reflexivity|]. split; [|split; [|split]].
    + rewrite length_map, length_seqZ. lia.
    + apply Forall_forall. intros k Hk.
      apply list_elem_of_In, in_map_iff in Hk as (i & <- & Hi).
      apply list_elem_of_In, elem_of_seqZ in Hi.
      apply NpFacts.index_of_range; lia.
    + apply StronglySorted_Sorted.
      unfold seqZ. rewrite <- list_fmap_compose.
      apply NpFacts.StronglySorted_map_seq. intros i j ? ? ?. simpl.
      apply NpFacts.index_of_mono; lia.
    + intros _. split.
      * rewrite seqZ_cons by lia. simpl. f_equal.
        rewrite (index_of_proper _ (inject_Z 0)); [apply index_of_Z|].
        apply NpFacts.position_first. lia.
      * assert (Hseq : seqZ 0 n = (seqZ 0 (n - 1) ++ [n - 1])%list).
        { replace n with ((n - 1) + 1) at 1 by lia.
          by rewrite seqZ_app by lia. }
        rewrite Hseq, map_app. cbn [map].
        rewrite last_snoc. f_equal.
        rewrite NpFacts.position_last. apply index_of_Z.
Qed.

Lemma getitem_in_range {A} (l : list A) (k : Z) :
  0 <= k <= Z.of_nat (length l) - 1 ->
  exists x, l !! Z.to_nat k = Some x /\ getitem l k = Ok x.
Proof.
  intros Hk.
  destruct (lookup_lt_is_Some_2 l (Z.to_nat k)) as [x Hx]; [lia|].
  exists x. split; [done|].
  rewrite <- (Z2Nat.id k) by lia. by apply getitem_lookup.
Qed.

Lemma rmapM_getitem {A} (l : list A) (indices : list Z) :
  Forall (fun k => 0 <= k <= Z.of_nat (length l) - 1) indices ->
  exists l', rmapM (getitem l) indices = Ok l' /\
             Forall2 (fun k x => l !! Z.to_nat k = Some x) indices l'.
Proof.
  induction 1 as [|k indices Hk _ (l' & Hl' & Hall)].
  - by exists [].
  - destruct (getitem_in_range l k Hk) as (x & Hx & Hget).
    exists (x :: l'). simpl. rewrite Hget, Hl'. split; [done|].
    by constructor.
Qed.

(** Indexing with every valid index in turn copies the list. *)
Lemma rmapM_getitem_seq {A} (l : list A) (a k : nat) :
  (a + k <= length l)%nat ->
  rmapM (getitem l) (map Z.of_nat (seq a k)) = Ok (take k (drop a l)).
Proof.
  revert a. induction k as [|k IH]; intros a Hk; [done|].
  destruct (lookup_lt_is_Some_2 l a) as [x Hx]; [lia|].
  cbn [seq map rmapM]. rewrite (getitem_lookup _ _ _ Hx). cbn [rbind].
  rewrite IH by lia. cbn [rbind].
  by rewrite (drop_S _ _ _ Hx).
Qed.

End SelectFacts.

(** X1: with exactly [n_frame_steps] frames every frame is selected once, in
    order; in exact arithmetic, and as float64 computes the positions (for
    at most [2^53] frames). *)
Theorem select_frames_all_frames {A} (image_list : list A) :
  image_list <> [] ->
  Np.select_frames image_list (Z.of_nat (length image_list)) = Ok image_list /\
  (Z.of_nat (length image_list) <= 2 ^ 53 ->
   Np.select_frames_fl Np.fl64 image_list (Z.of_nat (length image_list))
   = Ok image_list).
Proof.
  intros Hne.
  assert (HL : 1 <= Z.of_nat (length image_list))
    by (destruct image_list; [done | simpl; lia]).
  assert (Hcopy : rmapM (getitem image_list)
                    (seqZ 0 (Z.of_nat (length image_list))) = Ok image_list).
  { unfold seqZ. rewrite Nat2Z.id.
    rewrite (map_ext _ Z.of_nat) by (intros; lia).
    rewrite SelectFacts.rmapM_getitem_seq by (simpl; lia).
    by rewrite drop_0, firstn_all. }
  split.
  - unfold Np.select_frames.
    by rewrite SamplerFacts.sample_indices_identity by done.
  - intros H53. unfold Np.select_frames_fl.
    by rewrite (SamplerFacts.sample_indices_fl_identity _
                  Float64.fl64_float_like) by done.
Qed.

Lemma select_frames_all_frames_witness :
  Np.select_frames [10; 11; 12] (Z.of_nat (length [10; 11; 12]))
  = Ok [10; 11; 12] /\
  Np.select_frames_fl Np.fl64 [10; 11; 12] (Z.of_nat (length [10; 11; 12]))
  = Ok [10; 11; 12].
Proof.
  destruct (select_frames_all_frames [10; 11; 12]) as [Hexact Hfl];
    [discriminate|].
  split; [exact Hexact|]. apply Hfl. simpl. lia.
Defined.

(** X2: with a single frame that frame fills every step; in exact
    arithmetic, and as float64 computes the positions. *)
Theorem select_frames_single_frame {A} (x : A) (n_frame_steps : Z) :
  1 <= n_frame_steps ->
  Np.select_frames [x] n_frame_steps
  = Ok (replicate (Z.to_nat n_frame_steps) x) /\
  Np.select_frames_fl Np.fl64 [x] n_frame_steps
  = Ok (replicate (Z.to_nat n_frame_steps) x).
Proof.
  intros Hn.
  assert (Hcopy : rmapM (getitem [x]) (replicate (Z.to_nat n_frame_steps) 0)
                  = Ok (replicate (Z.to_nat n_frame_steps) x)).
  { induction (Z.to_nat n_frame_steps) as [|k IH]; [done|].
    cbn [replicate rmapM]. by rewrite IH. }
  split.
  - unfold Np.select_frames. cbn [length Z.of_nat].
    change (Z.pos (Pos.of_succ_nat 0)) with 1.
    by rewrite SamplerFacts.sample_indices_single by done.
  - unfold Np.select_frames_fl. cbn [length Z.of_nat].
    change (Z.pos (Pos.of_succ_nat 0)) with 1.
    by rewrite (SamplerFacts.sample_indices_fl_single _
                  Float64.fl64_float_like) by done.
Qed.

Lemma select_frames_single_frame_witness :
  Np.select_frames [7] 3 = Ok (replicate (Z.to_nat 3) 7) /\
  Np.select_frames_fl Np.fl64 [7] 3 = Ok (replicate (Z.to_nat 3) 7).
Proof. apply select_frames_single_frame. lia. Defined.

(** X3: from a non-empty list of frames and for [n_frame_steps >= 1]
    (both at most [2^53]) the selection of lines 64-66, with the positions
    computed in float64, returns [n_frame_steps] frames, each the frame at
    its index of the sampler, the indices being in range and
    non-decreasing; from two steps on, the first and the last frame are
    among them. *)
Theorem select_frames_in_order {A} (image_list : list A) (n_frame_steps : Z) :
  image_list <> [] -> Z.of_nat (length image_list) <= 2 ^ 53 ->
  1 <= n_frame_steps <= 2 ^ 53 ->
  exists indices selected,
    Np.sample_indices_fl Np.fl64 (Z.of_nat (length image_list)) n_frame_steps
    = Ok indices /\
    Np.select_frames_fl Np.fl64 image_list n_frame_steps = Ok selected /\
    Z.of_nat (length selected) = n_frame_steps /\
    Forall2 (fun k x => image_list !! Z.to_nat k = Some x) indices selected /\
    Forall (fun k => 0 <= k <= Z.of_nat (length image_list) - 1) indices /\
    Sorted Z.le indices /\
    (2 <= n_frame_steps ->
     head selected = head image_list /\ last selected = last image_list).
Proof.
  intros Hne HL53 Hn.
  assert (HL : 1 <= Z.of_nat (length image_list) <= 2 ^ 53)
    by (destruct image_list; [done | simpl in *; lia]).
  destruct (sample_indices_fl_spec _ Float64.fl64_float_like _ _ HL Hn)
    as (indices & Hidx & Hlen & Hrange & Hsorted).
  destruct (SelectFacts.rmapM_getitem image_list indices Hrange)
    as (selected & Hsel & Hall).
  exists indices, selected. split; [done|].
  unfold Np.select_frames_fl. rewrite Hidx. cbn [rbind].
  split; [done|]. split; [|split; [done|split; [done|split; [done|]]]].
  - by rewrite <- (Forall2_length _ _ _ Hall).
  - intros H2.
    destruct (sample_indices_fl_ends _ Float64.fl64_float_like _ _ _ HL
                (conj H2 (proj2 Hn)) Hidx) as [Hhd Hlast].
    split.
    + destruct Hall as [|k x ? ? Hk _]; [done|].
      injection Hhd as ->. simpl in Hk |- *. by rewrite head_lookup.
    + rewrite !last_lookup in *.
      pose proof (Forall2_length _ _ _ Hall) as Hlen2. rewrite <- Hlen2.
      destruct (Forall2_lookup_l _ _ _ _ _ Hall Hlast) as (x & Hsx & Hx).
      rewrite Hsx, <- Hx. f_equal. lia.
Qed.

Lemma select_frames_in_order_witness :
  exists indices selected,
    Np.sample_indices_fl Np.fl64 (Z.of_nat (length [10; 11; 12])) 5
    = Ok indices /\
    Np.select_frames_fl Np.fl64 [10; 11; 12] 5 = Ok selected /\
    Z.of_nat (length selected) = 5 /\
    Forall2 (fun k x => [10; 11; 12] !! Z.to_nat k = Some x) indices selected /\
    Forall (fun k => 0 <= k <= Z.of_nat (length [10; 11; 12]) - 1) indices /\
    Sorted Z.le indices /\
    (2 <= 5 ->
     head selected = head [10; 11; 12] /\ last selected = last [10; 11; 12]).
Proof.
  apply select_frames_in_order; [discriminate | simpl; lia | lia].
Defined.

(** X4: the selection at the edges of its arguments: a negative
    [n_frame_steps] is refused by [np.linspace] ([ValueError]); zero steps
    select nothing, even from no frames; one step or more from no frames is
    an [IndexError]; in exact arithmetic, and as float64 computes the
    positions. *)
Theorem select_frames_edges {A} (image_list : list A) (n_frame_steps : Z) :
  ((n_frame_steps < 0 ->
    Np.select_frames image_list n_frame_steps = Raise ValueError) /\
   (n_frame_steps = 0 ->
    Np.select_frames image_list n_frame_steps = Ok []) /\
   (1 <= n_frame_steps -> image_list = [] ->
    Np.select_frames image_list n_frame_steps = Raise IndexError)) /\
  ((n_frame_steps < 0 ->
    Np.select_frames_fl Np.fl64 image_list n_frame_steps = Raise ValueError) /\
   (n_frame_steps = 0 ->
    Np.select_frames_fl Np.fl64 image_list n_frame_steps = Ok []) /\
   (1 <= n_frame_steps -> image_list = [] ->
    Np.select_frames_fl Np.fl64 image_list n_frame_steps = Raise IndexError)).
Proof.
  split; (split; [|split]).
  - intros Hn. unfold Np.select_frames, Np.sample_indices, Np.frame_samples,
      Np.linspace.
    by destruct (Z.ltb_spec n_frame_steps 0); [|lia].
  - intros ->. reflexivity.
  - intros Hn ->. by apply select_frames_nil.
  - intros Hn. unfold Np.select_frames_fl, Np.sample_indices_fl,
      Np.linspace_fl.
    by destruct (Z.ltb_spec n_frame_steps 0); [|lia].
  - intros ->. reflexivity.
  - intros Hn ->. by apply select_frames_fl_nil.
Qed.

Lemma select_frames_edges_witness :
  (Np.select_frames [10; 11] (-1) = Raise ValueError /\
   Np.select_frames [10; 11] 0 = Ok [] /\
   Np.select_frames (@nil Z) 2 = Raise IndexError) /\
  (Np.select_frames_fl Np.fl64 [10; 11] (-1) = Raise ValueError /\
   Np.select_frames_fl Np.fl64 [10; 11] 0 = Ok [] /\
   Np.select_frames_fl Np.fl64 (@nil Z) 2 = Raise IndexError).
Proof.
  split; (split; [|split]).
  - apply (select_frames_edges [10; 11] (-1)). lia.
  - apply (select_frames_edges [10; 11] 0). reflexivity.
  - apply (select_frames_edges (@nil Z) 2); [lia | reflexivity].
  - apply (select_frames_edges [10; 11] (-1)). lia.
  - apply (select_frames_edges [10; 11] 0). reflexivity.
  - apply (select_frames_edges (@nil Z) 2); [lia | reflexivity].
Defined.

(** ** Video identifiers across the stages *)

Module PathFacts.
Import Str.

Lemma append_assoc (a b c : string) : (a +:+ b) +:+ c = a +:+ (b +:+ c).
Proof.
  induction a as [|x a IH]; [done|].
  change (String x ((a +:+ b) +:+ c) = String x (a +:+ b +:+ c)).
  by f_equal.
Qed.

Lemma drop_decompose (n : nat) (s : string) : exists a, s = a +:+ drop n s.
Proof.
  revert s. induction n as [|n IH]; intros s.
  - by exists EmptyString.
  - destruct s as [|c s]; [by exists EmptyString|].
    destruct (IH s) as [a Ha]. exists (String c a).
    change (String c s = String c (a +:+ drop n s)). by f_equal.
Qed.

Lemma endswith_inv (s suf : string) :
  endswith s suf = true -> exists a, s = a +:+ suf.
Proof.
  unfold endswith. intros H. apply andb_prop in H as [_ H].
  apply String.eqb_eq in H.
  destruct (drop_decompose (String.length s - String.length suf) s) as [a Ha].
  exists a. by rewrite H in Ha.
Qed.

Lemma video_id_plain name :
  occurs "/" name = false -> video_id name = first_field (split "." name).
Proof.
  intros H. unfold video_id. by rewrite (StrFacts.split_no_sep _ _ H).
Qed.

End PathFacts.

(** X5: a video identifier holds neither a dot nor a slash, whatever the
    path it is computed from: it names an entry of [output_dir] itself and
    is never cut again by a later [split]. *)
Theorem video_id_is_identifier (video : string) :
  Str.occurs "." (Str.video_id video) = false /\
  Str.occurs "/" (Str.video_id video) = false.
Proof. apply NameFacts.video_id_identifier. Qed.

(** X6: [split_audio] finds the identifier [vToA] used: the identifier of
    the file [<video_id>.wav] that [vToA] writes for a video, computed as in
    line 127, is the identifier of the video computed as in line 104. *)
Theorem video_id_of_wav (dir video : string) :
  Str.video_id (dir +:+ "/" +:+ Str.video_id video +:+ ".wav")
  = Str.video_id video.
Proof.
  destruct (NameFacts.video_id_identifier video) as [Hdot Hslash].
  by apply (StrFacts.video_id_stem dir (Str.video_id video) "wav").
Qed.

(** X7: the two stages agree on the directory of a video: the identifier
    [extract_image_feats] computes from [os.path.join(video_dir, name)] is
    the one [vToA] computes from [video_dir + '/' + name]. *)
Theorem video_id_path_join (video_dir name : string) :
  Str.occurs "/" name = false ->
  Str.video_id (path_join video_dir name)
  = Str.video_id (video_dir +:+ "/" +:+ name).
Proof.
  intros Hname. rewrite (StrFacts.video_id_join video_dir name Hname).
  unfold path_join.
  destruct (String.eqb_spec video_dir EmptyString) as [->|Hne].
  - by apply PathFacts.video_id_plain.
  - destruct (Str.endswith video_dir "/") eqn:Hend.
    + apply PathFacts.endswith_inv in Hend as [a ->].
      rewrite PathFacts.append_assoc.
      by apply StrFacts.video_id_join.
    + by apply StrFacts.video_id_join.
Qed.

Lemma video_id_path_join_witness :
  Str.video_id (path_join "videos/" "clip.mp4")
  = Str.video_id ("videos/" +:+ "/" +:+ "clip.mp4").
Proof. apply video_id_path_join. reflexivity. Defined.

(** ** The normalisation of a segment *)

(** X8: lines 140-144 return exactly 16000 samples: the samples of the
    segment up to the 16000th, in place, and zeros after them; normalising
    twice is normalising once. *)
Theorem pad_or_truncate_content (audio_info : list Z) :
  Z.of_nat (length (pad_or_truncate audio_info)) = 16000 /\
  (forall i x, audio_info !! i = Some x -> Z.of_nat i < 16000 ->
     pad_or_truncate audio_info !! i = Some x) /\
  (forall i, Z.of_nat (length audio_info) <= Z.of_nat i < 16000 ->
     pad_or_truncate audio_info !! i = Some 0) /\
  pad_or_truncate (pad_or_truncate audio_info) = pad_or_truncate audio_info.
Proof.
  split; [apply pad_or_truncate_length|]. split; [|split].
  - intros i x Hx Hi. unfold pad_or_truncate.
    destruct (Z.leb_spec (Z.of_nat (length audio_info)) 16000).
    + by rewrite lookup_app_l by (by apply lookup_lt_Some in Hx).
    + rewrite lookup_take_lt by lia. done.
  - intros i Hi. rewrite pad_or_truncate_short by lia.
    rewrite lookup_app_r by lia.
    apply lookup_replicate. split; [done|]. lia.
  - apply pad_or_truncate_full, pad_or_truncate_length.
Qed.

(** ** The names [%06d.jpg] and [%02d.wav] *)

Module FmtFacts.
Import Fmt Digits.

Lemma digits_S fuel n :
  digits (S fuel) n
  = if (n <? 10)%nat then [n]
    else (digits fuel (n / 10) ++ [(n mod 10)%nat])%list.
Proof. reflexivity. Qed.

Lemma digits_lt10 fuel n : Forall (fun d => (d < 10)%nat) (digits fuel n).
Proof.
  revert n. induction fuel as [|fuel IH]; intros n; [constructor|].
  rewrite digits_S.
  destruct (Nat.ltb_spec n 10).
  - constructor; [lia|constructor].
  - apply Forall_app. split; [apply IH|].
    constructor; [|constructor]. apply Nat.mod_upper_bound. lia.
Qed.

Lemma value_snoc l d : value (l ++ [d]) = (10 * value l + d)%nat.
Proof. unfold value. by rewrite foldl_app. Qed.

Lemma value_digits fuel n : (n < fuel)%nat -> value (digits fuel n) = n.
Proof.
  revert n. induction fuel as [|fuel IH]; intros n Hn; [lia|]. rewrite digits_S.
  destruct (Nat.ltb_spec n 10).
  - unfold value. simpl. lia.
  - rewrite value_snoc, IH.
    + pose proof (Nat.div_mod_eq n 10). lia.
    + assert (n / 10 < n)%nat by (apply Nat.div_lt; lia). lia.
Qed.

Lemma value_zeros k l : value (replicate k 0%nat ++ l) = value l.
Proof.
  unfold value. rewrite foldl_app.
  assert (H : foldl (fun acc d => (10 * acc + d)%nat) 0%nat (replicate k 0%nat)
              = 0%nat).
  { induction k as [|k IH]; [done|]. simpl. exact IH. }
  by rewrite H.
Qed.

Lemma of_ascii_digit d : (d < 10)%nat -> of_ascii (digit d) = d.
Proof.
  intros Hd. unfold of_ascii, digit.
  rewrite nat_ascii_embedding by lia. lia.
Qed.

Lemma map_of_ascii_digit l :
  Forall (fun d => (d < 10)%nat) l -> map of_ascii (map digit l) = l.
Proof.
  induction 1 as [|d l Hd _ IH]; [done|]. simpl.
  by rewrite of_ascii_digit, IH.
Qed.

Lemma list_ascii_of_string_app s t :
  String.list_ascii_of_string (s +:+ t)
  = (String.list_ascii_of_string s ++ String.list_ascii_of_string t)%list.
Proof.
  induction s as [|c s IH]; [done|].
  change (String c s +:+ t) with (String c (s +:+ t)). simpl. by rewrite IH.
Qed.

Lemma string_of_zeros k :
  String.string_of_list_ascii (replicate k "0"%char)
  = to_string (replicate k 0%nat).
Proof.
  unfold to_string. induction k as [|k IH]; [done|]. simpl. by rewrite IH.
Qed.

Lemma to_string_app l1 l2 : to_string l1 +:+ to_string l2 = to_string (l1 ++ l2).
Proof.
  unfold to_string. induction l1 as [|d l1 IH]; [done|]. simpl.
  change (String (digit d) ?s +:+ ?t) with (String (digit d) (s +:+ t)).
  by rewrite IH.
Qed.

(** A padded number is the string of its digits behind zeros. *)
Lemma length_to_string l : String.length (to_string l) = length l.
Proof.
  unfold to_string. induction l as [|d l IH]; [done|]. simpl. by rewrite IH.
Qed.

Lemma zero_padded_digits w n :
  zero_padded w n
  = to_string (replicate (w - length (digits (S n) n)) 0%nat ++ digits (S n) n).
Proof.
  unfold zero_padded, decimal. fold (to_string (digits (S n) n)).
  by rewrite string_of_zeros, to_string_app, length_to_string.
Qed.

Lemma parse_to_string l :
  Forall (fun d => (d < 10)%nat) l -> parse (to_string l) = value l.
Proof.
  intros Hl. unfold parse, to_string.
  by rewrite String.list_ascii_of_string_of_list_ascii, map_of_ascii_digit.
Qed.

Lemma padded_lt10 w n :
  Forall (fun d => (d < 10)%nat)
         (replicate (w - length (digits (S n) n)) 0%nat ++ digits (S n) n).
Proof.
  apply Forall_app. split; [|apply digits_lt10].
  apply Forall_forall. intros d Hd. apply elem_of_replicate in Hd as [-> _]. lia.
Qed.

(** The number is read back from its padded name. *)
Lemma parse_zero_padded w n : parse (zero_padded w n) = n.
Proof.
  rewrite zero_padded_digits, parse_to_string by apply padded_lt10.
  rewrite value_zeros. apply value_digits. lia.
Qed.

Lemma zero_padded_inj w a b : zero_padded w a = zero_padded w b -> a = b.
Proof.
  intros H. apply (f_equal parse) in H. by rewrite !parse_zero_padded in H.
Qed.

Lemma append_cancel_r (s1 s2 t : string) : s1 +:+ t = s2 +:+ t -> s1 = s2.
Proof.
  revert s2. induction s1 as [|c s1 IH]; intros [|c2 s2] H.
  - done.
  - apply (f_equal String.length) in H.
    rewrite !NameFacts.length_app in H. simpl in H. lia.
  - apply (f_equal String.length) in H.
    rewrite !NameFacts.length_app in H. simpl in H. lia.
  - change (String c (s1 +:+ t) = String c2 (s2 +:+ t)) in H.
    injection H as -> H. f_equal. by apply IH.
Qed.

Lemma jpg_name_inj a b : jpg_name a = jpg_name b -> a = b.
Proof. intros H. by apply append_cancel_r, zero_padded_inj in H. Qed.

Lemma wav_name_inj a b : wav_name a = wav_name b -> a = b.
Proof. intros H. by apply append_cancel_r, zero_padded_inj in H. Qed.

Lemma value_cons d l :
  value (d :: l) = (d * 10 ^ length l + value l)%nat.
Proof.
  induction l as [|x l IH] using rev_ind.
  - unfold value. simpl. lia.
  - change (d :: l ++ [x])%list with ((d :: l) ++ [x])%list.
    rewrite !value_snoc, IH, length_app. simpl length.
    rewrite Nat.add_1_r, Nat.pow_succ_r'. lia.
Qed.

Lemma value_bound l :
  Forall (fun d => (d < 10)%nat) l -> (value l < 10 ^ length l)%nat.
Proof.
  induction 1 as [|d l Hd _ IH].
  - unfold value. simpl. lia.
  - rewrite value_cons. simpl length. rewrite Nat.pow_succ_r'. nia.
Qed.

Lemma digit_compare d1 d2 :
  (d1 < 10)%nat -> (d2 < 10)%nat ->
  Ascii.compare (digit d1) (digit d2) = Nat.compare d1 d2.
Proof.
  intros H1 H2.
  do 10 (destruct d1 as [|d1]; [do 10 (destruct d2 as [|d2]; [reflexivity|]); lia|]).
  lia.
Qed.

(** Digit strings of one length compare as their numbers do. *)
Lemma compare_to_string l1 l2 :
  length l1 = length l2 ->
  Forall (fun d => (d < 10)%nat) l1 -> Forall (fun d => (d < 10)%nat) l2 ->
  (value l1 < value l2)%nat ->
  String.compare (to_string l1) (to_string l2) = Lt.
Proof.
  revert l2. induction l1 as [|d1 l1 IH]; intros [|d2 l2] Hlen H1 H2 Hv;
    try discriminate.
  - unfold value in Hv. simpl in Hv. lia.
  - apply Forall_cons in H1 as [Hd1 H1]. apply Forall_cons in H2 as [Hd2 H2].
    injection Hlen as Hlen. rewrite !value_cons, Hlen in Hv.
    pose proof (value_bound _ H1) as B1. pose proof (value_bound _ H2) as B2.
    rewrite Hlen in B1.
    unfold to_string. cbn [map String.string_of_list_ascii String.compare].
    rewrite digit_compare by done.
    destruct (Nat.compare_spec d1 d2) as [->| |Hgt].
    + apply IH; [done..|lia].
    + reflexivity.
    + exfalso. nia.
Qed.

Lemma compare_app_lt s1 s2 t :
  String.compare s1 s2 = Lt -> String.length s1 = String.length s2 ->
  String.compare (s1 +:+ t) (s2 +:+ t) = Lt.
Proof.
  revert s2. induction s1 as [|c1 s1 IH]; intros [|c2 s2] Hc Hl;
    try discriminate.
  change (String.compare (String c1 (s1 +:+ t)) (String c2 (s2 +:+ t)) = Lt).
  simpl in *. destruct (Ascii.compare c1 c2); [|done..].
  apply IH; [done|]. by injection Hl.
Qed.

Lemma digits_length fuel n k :
  (1 <= k)%nat -> (n < 10 ^ k)%nat -> (length (digits fuel n) <= k)%nat.
Proof.
  revert n k. induction fuel as [|fuel IH]; intros n k Hk Hn; [simpl; lia|].
  rewrite digits_S. destruct (Nat.ltb_spec n 10); [simpl; lia|].
  destruct k as [|k]; [lia|]. rewrite Nat.pow_succ_r' in Hn.
  destruct k as [|k]; [simpl in Hn; lia|].
  rewrite length_app. change (length [(n mod 10)%nat]) with 1%nat.
  assert (Hdiv : (n / 10 < 10 ^ S k)%nat)
    by (apply Nat.Div0.div_lt_upper_bound; exact Hn).
  specialize (IH (n / 10)%nat (S k) ltac:(lia) Hdiv). lia.
Qed.

Lemma padded_length w n :
  (1 <= w)%nat -> (n < 10 ^ w)%nat ->
  length (replicate (w - length (digits (S n) n)) 0%nat ++ digits (S n) n) = w.
Proof.
  intros Hw Hn. pose proof (digits_length (S n) n w Hw Hn).
  rewrite length_app, length_replicate. lia.
Qed.

(** Below [10 ^ w] the padded names are ordered as the numbers. *)
Lemma zero_padded_lt w a b :
  (1 <= w)%nat -> (a < b)%nat -> (b < 10 ^ w)%nat ->
  String.compare (zero_padded w a) (zero_padded w b) = Lt
  /\ String.length (zero_padded w a) = String.length (zero_padded w b).
Proof.
  intros Hw Hab Hb. rewrite !zero_padded_digits.
  assert (Ha : (a < 10 ^ w)%nat) by lia.
  pose proof (padded_length w a Hw Ha) as La.
  pose proof (padded_length w b Hw Hb) as Lb.
  split.
  - apply compare_to_string; [congruence|apply padded_lt10..|].
    rewrite !value_zeros, !value_digits by lia. done.
  - rewrite !length_to_string. congruence.
Qed.

Lemma jpg_name_lt a b :
  (a < b)%nat -> (b < 10 ^ 6)%nat ->
  String.compare (jpg_name a) (jpg_name b) = Lt.
Proof.
  intros Hab Hb. destruct (zero_padded_lt 6 a b) as [Hc Hl]; [lia|done..|].
  by apply compare_app_lt.
Qed.

Lemma wav_name_lt a b :
  (a < b)%nat -> (b < 10 ^ 2)%nat ->
  String.compare (wav_name a) (wav_name b) = Lt.
Proof.
  intros Hab Hb. destruct (zero_padded_lt 2 a b) as [Hc Hl]; [lia|done..|].
  by apply compare_app_lt.
Qed.

Lemma str_le_le a b : str_le a b <-> String.le a b.
Proof. unfold str_le, String.le. by destruct (String.leb a b). Qed.

Lemma str_le_trans : Transitive str_le.
Proof.
  intros a b c ?%str_le_le ?%str_le_le. apply str_le_le. by etrans.
Qed.

Lemma str_le_total : Total str_le.
Proof.
  intros a b. destruct (String.leb_total a b); [by left|by right].
Qed.

Lemma str_le_antisym a b : str_le a b -> str_le b a -> a = b.
Proof. apply String.leb_antisym. Qed.

(** A sorted list of strings is fixed by its elements. *)
Lemma sorted_unique l1 l2 :
  StronglySorted str_le l1 -> l2 ≡ₚ l1 -> sorted l2 = l1.
Proof.
  intros Hs Hp. unfold sorted.
  apply (StronglySorted_unique_strong str_le).
  - intros x1 x2 _ _. apply str_le_antisym.
  - apply (@StronglySorted_merge_sort _ str_le _ str_le_trans str_le_total).
  - done.
  - by rewrite merge_sort_Permutation.
Qed.

Lemma jpg_names_sorted start len :
  (start + len <= 10 ^ 6)%nat ->
  StronglySorted str_le (map jpg_name (seq start len)).
Proof.
  revert start. induction len as [|len IH]; intros start Hb; [constructor|].
  simpl. constructor; [apply IH; lia|].
  apply Forall_forall. intros x Hx. apply (list_elem_of_fmap jpg_name) in Hx as (k & -> & Hk).
  apply elem_of_seq in Hk. unfold str_le, String.leb.
  rewrite jpg_name_lt by lia. done.
Qed.

End FmtFacts.

(** ** What one ffmpeg call leaves in a directory *)

Section WriteFacts.

Context {A : Type}.

Lemma write_lookup_notin (files : list (string * A)) (d : gmap string A) name :
  name ∉ files.*1 ->
  foldl (fun d nf => <[nf.1 := nf.2]> d) d files !! name = d !! name.
Proof.
  revert d. induction files as [|[n f] files IH]; intros d Hn; [done|].
  csimpl in Hn. apply not_elem_of_cons in Hn as [Hne Hn].
  simpl. rewrite IH by done. by rewrite lookup_insert_ne.
Qed.

Lemma write_lookup_in (files : list (string * A)) (d : gmap string A) name f :
  NoDup files.*1 -> (name, f) ∈ files ->
  foldl (fun d nf => <[nf.1 := nf.2]> d) d files !! name = Some f.
Proof.
  revert d. induction files as [|[n0 f0] files IH]; intros d Hnd Hin.
  - by apply elem_of_nil in Hin.
  - csimpl in Hnd. apply NoDup_cons in Hnd as [Hn0 Hnd]. simpl.
    apply elem_of_cons in Hin as [[= -> ->]|Hin].
    + rewrite write_lookup_notin by done. apply lookup_insert_eq.
    + by apply IH.
Qed.

Lemma imap_names {B} (name : nat -> string) (F : B -> A) (l : list B) :
  (imap (fun k x => (name k, F x)) l).*1 = map name (seq 0 (length l)).
Proof.
  revert name. induction l as [|x l IH]; intros name; [done|].
  rewrite imap_cons. csimpl. f_equal.
  unfold compose. rewrite (IH (fun k => name (S k))).
  rewrite <- fmap_S_seq. by rewrite <- list_fmap_compose.
Qed.

End WriteFacts.

Module FrameNames.
Import Fmt FmtFacts.

Lemma digit_not_dot d : (d < 10)%nat -> digit d <> "."%char.
Proof.
  intros Hd.
  do 10 (destruct d as [|d]; [discriminate|]). lia.
Qed.

Lemma digits_nonempty fuel n : digits (S fuel) n <> [].
Proof.
  rewrite digits_S. destruct (n <? 10)%nat; [done|].
  intros H. by apply app_eq_nil in H as [_ ?].
Qed.

Lemma zero_padded_no_dot w n : Str.startswith (zero_padded w n +:+ ".jpg") "." = false.
Proof.
  rewrite zero_padded_digits.
  pose proof (padded_lt10 w n) as Hl.
  destruct (replicate (w - length (digits (S n) n)) 0%nat ++ digits (S n) n)%list
    as [|d l] eqn:Hp.
  - apply app_eq_nil in Hp as [_ Hp]. by apply digits_nonempty in Hp.
  - apply Forall_cons in Hl as [Hd _].
    unfold Str.startswith, Digits.to_string.
    cbn [map String.string_of_list_ascii].
    change (String (digit d) ?s +:+ ?t) with (String (digit d) (s +:+ t)).
    cbn [String.prefix]. destruct (ascii_dec "." (digit d)) as [He|]; [|done].
    symmetry in He. by apply digit_not_dot in He.
Qed.

Lemma jpg_name_glob k : glob_match ".jpg" (jpg_name k) = true.
Proof.
  unfold glob_match, jpg_name.
  by rewrite NameFacts.endswith_app, zero_padded_no_dot.
Qed.

Lemma jpg_names_NoDup l : NoDup l -> NoDup (map jpg_name l).
Proof.
  intros H. apply (NoDup_fmap_2_strong jpg_name); [|done].
  intros x y _ _. apply jpg_name_inj.
Qed.

Lemma wav_names_NoDup l : NoDup l -> NoDup (map wav_name l).
Proof.
  intros H. apply (NoDup_fmap_2_strong wav_name); [|done].
  intros x y _ _. apply wav_name_inj.
Qed.

End FrameNames.

Section Frames.

Context {frame pix row : Type}.
Variable E : Env frame pix row.
Hypothesis E_ok : env_ok E.

(** The names [extract_frame] writes. *)
Lemma frame_files_names (frames : list frame) :
  (imap (fun k f => (Fmt.jpg_name (S k), Jpg (row := row) f)) frames).*1
  = map Fmt.jpg_name (seq 1 (length frames)).
Proof.
  rewrite (imap_names (fun k => Fmt.jpg_name (S k))).
  rewrite <- fmap_S_seq. by rewrite <- list_fmap_compose.
Qed.

Lemma frame_files_lookup (frames : list frame) (d : gmap string (file frame row)) k f :
  frames !! k = Some f ->
  foldl (fun d nf => <[nf.1 := nf.2]> d) d
        (imap (fun k f => (Fmt.jpg_name (S k), Jpg f)) frames)
    !! Fmt.jpg_name (S k) = Some (Jpg f).
Proof.
  intros Hk. apply write_lookup_in.
  - rewrite frame_files_names. apply FrameNames.jpg_names_NoDup, NoDup_seq.
  - by apply (elem_of_lookup_imap_2
                (fun k f => (Fmt.jpg_name (S k), Jpg (row := row) f))).
Qed.

Lemma frame_files_other (frames : list frame) (d : gmap string (file frame row)) name :
  name ∉ map Fmt.jpg_name (seq 1 (length frames)) ->
  foldl (fun d nf => <[nf.1 := nf.2]> d) d
        (imap (fun k f => (Fmt.jpg_name (S k), Jpg f)) frames) !! name
  = d !! name.
Proof.
  intros Hn. apply write_lookup_notin. by rewrite frame_files_names.
Qed.

Lemma frame_name_inv (frames : list frame) name :
  name ∈ map Fmt.jpg_name (seq 1 (length frames)) ->
  exists k f, name = Fmt.jpg_name (S k) /\ frames !! k = Some f.
Proof.
  intros Hn. apply (list_elem_of_fmap Fmt.jpg_name) in Hn as (j & -> & Hj).
  apply elem_of_seq in Hj.
  destruct (lookup_lt_is_Some_2 frames (j - 1)) as [f Hf]; [lia|].
  exists (j - 1)%nat, f. split; [|done]. f_equal. lia.
Qed.

(** Lines 32-34 and 63 on a directory without [.jpg] files: the sorted
    listing is the sequence of the frames. *)
Lemma glob_after_extract video dst d st :
  st_fs st !! dst = Some (Dir d) ->
  (forall name, Str.endswith name ".jpg" = true -> d !! name = None) ->
  (length (ffmpeg_frames E video) < 10 ^ 6)%nat ->
  let d1 := foldl (fun d nf => <[nf.1 := nf.2]> d) d
              (imap (fun k f => (Fmt.jpg_name (S k), Jpg f))
                    (ffmpeg_frames E video)) in
  let st1 := with_fs st (<[dst := Dir d1]> (st_fs st)) in
  extract_frame E video dst st = (Ok (), st1) /\
  glob_jpg_sorted E dst st1
  = (Ok (map Fmt.jpg_name (seq 1 (length (ffmpeg_frames E video)))), st1).
Proof.
  intros Hdst Hnone Hlen d1 st1. split.
  { unfold extract_frame. by rewrite (ffmpeg_write_ok _ _ _ _ Hdst). }
  unfold glob_jpg_sorted, get_fs. rewrite bind_unfold.
  cbn [st_fs st1 with_fs]. rewrite lookup_insert_eq.
  unfold mret, M_ret. do 2 f_equal.
  apply FmtFacts.sorted_unique; [apply FmtFacts.jpg_names_sorted; lia|].
  apply NoDup_Permutation.
  - apply NoDup_filter, NoDup_entries, E_ok.
  - apply FrameNames.jpg_names_NoDup, NoDup_seq.
  - intros x. rewrite list_elem_of_filter, (elem_of_entries E E_ok). split.
    + intros [Hglob [f Hf]].
      destruct (decide (x ∈ map Fmt.jpg_name
                              (seq 1 (length (ffmpeg_frames E video)))))
        as [Hin|Hout]; [done|].
      unfold d1 in Hf. rewrite frame_files_other in Hf by done.
      unfold glob_match in Hglob. apply Is_true_true in Hglob.
      apply andb_true_iff in Hglob as [Hsuf _].
      by rewrite (Hnone _ Hsuf) in Hf.
    + intros Hin. destruct (frame_name_inv _ _ Hin) as (k & f & -> & Hk). split.
      * by rewrite FrameNames.jpg_name_glob.
      * exists (Jpg f). by apply frame_files_lookup.
Qed.

End Frames.



(** ** The image features of one video *)

Module SelectMap.

Lemma getitem_fmap {A B} (g : A -> B) (l : list A) (i : Z) :
  getitem (map g l) i = rmap g (getitem l i).
Proof.
  unfold getitem. rewrite length_map. cbv zeta.
  set (j := if i <? 0 then i + Z.of_nat (length l) else i).
  destruct ((j <? 0) || (Z.of_nat (length l) <=? j)); [done|].
  change (map g l) with (g <$> l). rewrite list_lookup_fmap.
  by destruct (l !! Z.to_nat j).
Qed.

Lemma rmapM_getitem_fmap {A B} (g : A -> B) (l : list A) (indices : list Z) :
  rmapM (getitem (map g l)) indices = rmap (map g) (rmapM (getitem l) indices).
Proof.
  induction indices as [|i indices IH]; [done|].
  cbn [rmapM]. rewrite getitem_fmap, IH.
  destruct (getitem l i); [|done]. cbn.
  by destruct (rmapM (getitem l) indices).
Qed.

(** Selecting commutes with a map over the frames. *)
Lemma select_frames_fmap {A B} (fl : Q -> Q) (g : A -> B) (l : list A) (n : Z) :
  Np.select_frames_fl fl (map g l) n
  = rmap (map g) (Np.select_frames_fl fl l n).
Proof.
  unfold Np.select_frames_fl. rewrite length_map.
  destruct (Np.sample_indices_fl fl _ n); [|done]. cbn [rbind].
  apply rmapM_getitem_fmap.
Qed.

Lemma select_frames_ok {A} (l : list A) (n : Z) :
  l <> [] -> Z.of_nat (length l) <= 2 ^ 53 -> 1 <= n <= 2 ^ 53 ->
  exists selected,
    Np.select_frames_fl Np.fl64 l n = Ok selected /\
    Z.of_nat (length selected) = n /\
    Forall (fun x => x ∈ l) selected.
Proof.
  intros Hne HL53 Hn.
  assert (HL : 1 <= Z.of_nat (length l) <= 2 ^ 53)
    by (destruct l; [done | simpl in *; lia]).
  destruct (sample_indices_fl_spec _ Float64.fl64_float_like _ _ HL Hn)
    as (indices & Hidx & Hlen & Hrange & _).
  destruct (SelectFacts.rmapM_getitem l indices Hrange)
    as (selected & Hsel & Hall).
  exists selected. unfold Np.select_frames_fl. rewrite Hidx. cbn [rbind].
  split; [done|]. split.
  - by rewrite <- (Forall2_length _ _ _ Hall).
  - apply Forall_forall. intros x Hx.
    apply list_elem_of_lookup_1 in Hx as [i Hi].
    destruct (Forall2_lookup_r _ _ _ _ _ Hall Hi) as (k & _ & Hk).
    by eapply list_elem_of_lookup_2.
Qed.

End SelectMap.

Section ImageRun.

Context {frame pix row : Type}.
Variable E : Env frame pix row.
Hypothesis E_ok : env_ok E.

(** Lines 58-60: afterwards the directory of the video exists, with what
    it held. *)
Lemma ensure_directory id msg (st : state frame row) :
  (forall f, st_fs st !! id <> Some (File f)) ->
  exists st0,
    (forall (k : M frame row unit),
       (ex ← path_exists id;
        (if ex : bool then mret () else (mkdir id;; print msg));; k) st
       = k st0) /\
    st_fs st0 !! id = Some (Dir (dir_of (st_fs st) id)) /\
    (forall n, <[id := n]> (st_fs st0) = <[id := n]> (st_fs st)) /\
    st_CHW st0 = st_CHW st /\
    st_out st0 = (if bool_decide (is_Some (st_fs st !! id)) then st_out st
                  else st_out st ++ [msg])%list.
Proof.
  intros Hfile. destruct (st_fs st !! id) as [[f|d]|] eqn:Hid.
  - by destruct (Hfile f).
  - exists st. split; [|split; [|split; [done|split; [done|]]]];
      [| |by rewrite bool_decide_eq_true_2 by eauto].
    + intros k. rewrite (bind_ok _ _ _ _ _ (path_exists_spec id st)).
      rewrite bool_decide_eq_true_2 by (rewrite Hid; eauto). reflexivity.
    + by rewrite (dir_of_Dir _ _ _ Hid).
  - exists (State (<[id := Dir ∅]> (st_fs st)) (st_out st ++ [msg]) (st_CHW st)).
    split; [|split; [|split; [|split; [done|]]]].
    + intros k. rewrite (bind_ok _ _ _ _ _ (path_exists_spec id st)).
      rewrite bool_decide_eq_false_2 by (rewrite Hid; by intros [? ?]).
      rewrite bind_unfold, bind_unfold. by rewrite (mkdir_ok _ _ Hid).
    + cbn [st_fs]. rewrite lookup_insert_eq. unfold dir_of. by rewrite Hid.
    + intros n. cbn [st_fs]. apply insert_insert_eq.
    + cbn [st_out]. by rewrite bool_decide_eq_false_2 by (by intros [? ?]).
Qed.

(** Lines 68-70 on names whose files are frames: the batch is filled with
    the transformed frames, in the order of the names. *)
Lemma fill_loop load dst d (sp : list (string * frame)) C H W
    (st : state frame row) :
  st_fs st !! dst = Some (Dir d) ->
  (forall p, p ∈ sp -> d !! p.1 = Some (Jpg p.2)) ->
  shape_of (input_size load) = [C; H; W] ->
  forall k i,
    (i + k = length sp)%nat ->
    for_fold (seq i k)
      (Tensor [length sp; C; H; W]
         (map (fun p => transform E load p.2) (take i sp)
          ++ replicate (length sp - i) (zero_pix E))%list)
      (fun images i =>
         path ← lift (getitem (map fst sp) (Z.of_nat i));
         img ← load_image_fn E load dst path;
         lift (setitem images i img)) st
    = (Ok (Tensor [length sp; C; H; W]
             (map (fun p => transform E load p.2) sp)), st).
Proof.
  intros Hdst Hfiles Hshape. induction k as [|k IH]; intros i Hik.
  - cbn [seq for_fold]. rewrite Nat.add_0_r in Hik. subst i.
    rewrite take_ge, Nat.sub_diag by done. cbn [replicate].
    by rewrite app_nil_r.
  - cbn [seq for_fold].
    destruct (lookup_lt_is_Some_2 sp i) as [p Hp]; [lia|].
    assert (Hget : getitem (map fst sp) (Z.of_nat i) = Ok p.1).
    { apply SamplerFacts.getitem_lookup.
      change (map fst sp) with (fst <$> sp).
      by rewrite list_lookup_fmap, Hp. }
    rewrite bind_unfold. rewrite bind_unfold. unfold lift at 1. rewrite Hget.
    rewrite bind_unfold. unfold load_image_fn at 1, get_fs.
    rewrite bind_unfold. rewrite Hdst.
    rewrite (Hfiles p) by by eapply list_elem_of_lookup_2.
    unfold mret, M_ret, lift, setitem. cbn [tshape titems ishape ipix].
    rewrite decide_True by lia. rewrite decide_True by done.
    replace (length sp - i)%nat with (S (length sp - S i)) by lia.
    rewrite replicate_S, insert_app_r_alt
      by (rewrite length_map, length_take; lia).
    rewrite length_map, length_take_le by lia.
    rewrite Nat.sub_diag. cbn [list_insert insert].
    specialize (IH (S i) ltac:(lia)).
    rewrite (take_S_r _ _ _ Hp), map_app, <- app_assoc in IH.
    exact IH.
Qed.

Lemma fill_images_ok load dst d (sp : list (string * frame)) C H W
    (st : state frame row) :
  st_fs st !! dst = Some (Dir d) ->
  (forall p, p ∈ sp -> d !! p.1 = Some (Jpg p.2)) ->
  shape_of (input_size load) = [C; H; W] ->
  fill_images E load dst (map fst sp)
    (torch_zeros (zero_pix E) (length (map fst sp)) C H W) st
  = (Ok (Tensor [length sp; C; H; W]
           (map (fun p => transform E load p.2) sp)), st).
Proof.
  intros Hdst Hfiles Hshape. unfold fill_images, torch_zeros.
  rewrite length_map.
  pose proof (fill_loop load dst d sp C H W st Hdst Hfiles Hshape
                (length sp) 0%nat eq_refl) as Hloop.
  cbn [take map app] in Hloop. rewrite Nat.sub_0_r in Hloop. exact Hloop.
Qed.

(** The batch of two or more images of a supported size keeps its four
    axes, and the network returns one row per image. *)
Lemma forward_batch net load (items : list pix) n C H W :
  (2 <= n)%nat ->
  input_size load = (C, H, W) ->
  forward E net (squeeze (Tensor [n; C; H; W] items))
  = Ok (map (embed E net) items).
Proof.
  intros Hn Hsize. unfold forward, squeeze. cbn [tshape titems].
  assert (Hc : C <> 1%nat /\ H <> 1%nat /\ W <> 1%nat).
  { destruct load; injection Hsize as <- <- <-; repeat split; lia. }
  destruct Hc as (HC & HH & HW).
  rewrite !filter_cons_True by (done || lia). rewrite filter_nil.
  by rewrite decide_False by lia.
Qed.

(** The frames with their file names. *)
Lemma frame_pairs (frames : list frame) :
  let pairs := imap (fun k f => (Fmt.jpg_name (S k), f)) frames in
  map fst pairs = map Fmt.jpg_name (seq 1 (length frames)) /\
  map snd pairs = frames /\
  (forall p, p ∈ pairs ->
     exists k, p.1 = Fmt.jpg_name (S k) /\ frames !! k = Some p.2).
Proof.
  intros pairs. split; [|split].
  - unfold pairs.
    rewrite (imap_names (fun k => Fmt.jpg_name (S k)) (fun f => f)).
    rewrite <- fmap_S_seq. by rewrite <- list_fmap_compose.
  - unfold pairs. change (map snd ?l) with (snd <$> l). rewrite fmap_imap.
    rewrite (imap_ext _ (const id)) by done.
    rewrite imap_const. apply list_fmap_id.
  - intros p Hp. apply elem_of_lookup_imap_1 in Hp as (k & f & -> & Hk).
    by exists k.
Qed.

(** Lines 77-79 and 152-154 on an existing directory: exactly the files
    with the suffix go. *)
Lemma remove_suffix_exact dst suffix d (st : state frame row) :
  st_fs st !! dst = Some (Dir d) ->
  exists d',
    remove_suffix E dst suffix st
    = (Ok (), with_fs st (<[dst := Dir d']> (st_fs st))) /\
    (forall k, d' !! k = if Str.endswith k suffix then None else d !! k).
Proof.
  intros Hdst.
  destruct (remove_suffix_ok E E_ok dst suffix d st Hdst)
    as (d' & Hrun & _ & Hkeep).
  exists d'. split; [done|]. intros k.
  destruct (Str.endswith k suffix) eqn:Hk; [|by apply Hkeep].
  pose proof (remove_suffix_inv E E_ok _ _ _ _ Hrun k Hk) as H.
  cbn [st_fs with_fs] in H. by rewrite dir_of_insert in H.
Qed.

(** Lines 57-79 for a video with frames, two steps or more, and a network
    whose input size the module-level [C, H, W] name. *)
Lemma extract_image_feats_body_ok opt net load video (st : state frame row) :
  (forall f, st_fs st !! Str.video_id video <> Some (File f)) ->
  no_suffix ".jpg" (st_fs st) (Str.video_id video) ->
  st_CHW st = input_size load ->
  2 <= n_frame_steps opt <= 2 ^ 53 ->
  ffmpeg_frames E video <> [] ->
  (length (ffmpeg_frames E video) < 10 ^ 6)%nat ->
  exists sel st',
    Np.select_frames_fl Np.fl64 (ffmpeg_frames E video) (n_frame_steps opt)
    = Ok sel /\
    Z.of_nat (length sel) = n_frame_steps opt /\
    extract_image_feats_body E opt net load video st = (Ok (), st') /\
    st_fs st'
    = <[Str.video_id video :=
          Dir (<["video.npy" :=
                   VideoNpy (map (fun f => embed E net (transform E load f)) sel)]>
                 (dir_of (st_fs st) (Str.video_id video)))]> (st_fs st) /\
    st_CHW st' = st_CHW st /\
    st_out st'
    = (if bool_decide (is_Some (st_fs st !! Str.video_id video))
       then st_out st
       else st_out st
            ++ [Str.video_id video +:+ " does not have audio information"])%list.
Proof.
  intros Hfile Hjpg Hchw Hn Hne Hlen.
  set (id := Str.video_id video) in *.
  destruct (ensure_directory id (id +:+ " does not have audio information")
              st Hfile) as (st0 & Hstart & Hid0 & Hins & Hchw0 & Hout0).
  set (d0 := dir_of (st_fs st) id) in *.
  destruct (glob_after_extract E E_ok video id d0 st0 Hid0 Hjpg Hlen)
    as [Hex Hglob].
  set (d1 := foldl (fun d nf => <[nf.1 := nf.2]> d) d0
               (imap (fun k f => (Fmt.jpg_name (S k), Jpg f))
                     (ffmpeg_frames E video))) in *.
  set (st1 := with_fs st0 (<[id := Dir d1]> (st_fs st0))) in *.
  destruct (frame_pairs (ffmpeg_frames E video)) as (Hnames & Hvals & Hpairs).
  set (pairs := imap (fun k f => (Fmt.jpg_name (S k), f))
                     (ffmpeg_frames E video)) in *.
  assert (Hpne : pairs <> []).
  { intros Hp. rewrite Hp in Hvals. by rewrite <- Hvals in Hne. }
  assert (Hplen : Z.of_nat (length pairs) <= 2 ^ 53).
  { rewrite <- (length_map fst), Hnames, length_map, length_seq.
    apply Nat2Z.inj_lt in Hlen. rewrite Nat2Z.inj_pow in Hlen.
    change (Z.of_nat 10 ^ Z.of_nat 6) with 1000000 in Hlen. lia. }
  destruct (SelectMap.select_frames_ok pairs (n_frame_steps opt) Hpne Hplen)
    as (sp & Hsp & Hsplen & Hspin); [lia|].
  assert (Hid1 : st_fs st1 !! id = Some (Dir d1))
    by (cbn [st1 st_fs with_fs]; apply lookup_insert_eq).
  assert (Hfiles : forall p, p ∈ sp -> d1 !! p.1 = Some (Jpg p.2)).
  { intros p Hp. rewrite Forall_forall in Hspin.
    destruct (Hpairs p (Hspin p Hp)) as (k & -> & Hk).
    by apply frame_files_lookup. }
  destruct (input_size load) as [[C H] W] eqn:Hsize.
  assert (Hshape : shape_of (input_size load) = [C; H; W]) by by rewrite Hsize.
  pose proof (fill_images_ok load id d1 sp C H W st1 Hid1 Hfiles Hshape)
    as Hfill.
  set (feats := map (embed E net)
                    (map (fun p : string * frame => transform E load p.2) sp)).
  pose proof (np_save_ok id "video.npy" (VideoNpy feats) st1 d1 Hid1)
    as Hsave.
  set (d2 := <["video.npy" := VideoNpy feats]> d1) in *.
  set (st2 := with_fs st1 (<[id := Dir d2]> (st_fs st1))) in *.
  assert (Hid2 : st_fs st2 !! id = Some (Dir d2))
    by (cbn [st2 st_fs with_fs]; apply lookup_insert_eq).
  destruct (remove_suffix_exact id ".jpg" d2 st2 Hid2) as (d' & Hrm & Hd').
  exists (map snd sp), (with_fs st2 (<[id := Dir d']> (st_fs st2))).
  split; [|split; [|split; [|split; [|split]]]].
  - rewrite <- Hvals. by rewrite SelectMap.select_frames_fmap, Hsp.
  - by rewrite length_map.
  - unfold extract_image_feats_body. fold id. rewrite Hstart.
    rewrite (bind_ok _ _ _ _ _ Hex), (bind_ok _ _ _ _ _ Hglob).
    rewrite <- Hnames, SelectMap.select_frames_fmap, Hsp. cbn [rmap rbind].
    rewrite bind_unfold. unfold lift at 1.
    rewrite bind_unfold. unfold global_CHW at 1.
    replace (st_CHW st1) with (C, H, W)
      by (cbn [st1 st_CHW with_fs]; congruence).
    rewrite (bind_ok _ _ _ _ _ Hfill).
    rewrite (forward_batch net load _ _ C H W) by (rewrite ?length_map; lia || done).
    rewrite bind_unfold. unfold lift at 1.
    rewrite (bind_ok _ _ _ _ _ Hsave). exact Hrm.
  - cbn [st2 st1 st_fs with_fs]. rewrite !insert_insert_eq, Hins. f_equal. f_equal.
    apply map_eq. intros k. rewrite Hd'.
    destruct (decide (k = "video.npy")) as [->|Hk].
    + unfold d2. rewrite !lookup_insert_eq. unfold feats.
      by rewrite <- !list_fmap_compose.
    + rewrite lookup_insert_ne by done.
      destruct (Str.endswith k ".jpg") eqn:Hsuf.
      * symmetry. by apply Hjpg.
      * unfold d2. rewrite lookup_insert_ne by done.
        apply frame_files_other. intros Hin.
        apply frame_name_inv in Hin as (j & f & -> & _).
        unfold Fmt.jpg_name in Hsuf.
        by rewrite NameFacts.endswith_app in Hsuf.
  - cbn [st2 st1 st_CHW with_fs]. exact Hchw0.
  - cbn [st2 st1 st_out with_fs]. exact Hout0.
Qed.

End ImageRun.

(** X10. Lines 57-79 for one video whose identifier is not empty and whose
    directory path [output_dir/<video_id>] has none of [*], [?] and [[]:
    when [ffmpeg] decodes at least one frame (and fewer than a million),
    [n_frame_steps] is at least 2 (and at most [2^53]), the module-level
    [C, H, W] are the input size of the network, and the directory of the
    video holds no [.jpg] file, the body returns; it adds to the directory
    exactly [video.npy], with one embedding per step, of the frames the
    sampler selects in float64, in their order. It prints
    [<video_id> does not have audio information] when it had to create the
    directory, and nothing otherwise. *)
Theorem video_features_of_one_video {frame pix row : Type}
    (E : Env frame pix row) (opt : options) (net load : encoder)
    (video : string) (st : state frame row) :
  env_ok E ->
  Str.video_id video <> EmptyString ->
  has_magic (output_dir opt +:+ "/" +:+ Str.video_id video) = false ->
  (forall f, st_fs st !! Str.video_id video <> Some (File f)) ->
  no_suffix ".jpg" (st_fs st) (Str.video_id video) ->
  st_CHW st = input_size load ->
  2 <= n_frame_steps opt <= 2 ^ 53 ->
  ffmpeg_frames E video <> [] ->
  (length (ffmpeg_frames E video) < 10 ^ 6)%nat ->
  exists sel st',
    Np.select_frames_fl Np.fl64 (ffmpeg_frames E video) (n_frame_steps opt)
    = Ok sel /\
    Z.of_nat (length sel) = n_frame_steps opt /\
    extract_image_feats_body E opt net load video st = (Ok (), st') /\
    st_fs st'
    = <[Str.video_id video :=
          Dir (<["video.npy" :=
                   VideoNpy (map (fun f => embed E net (transform E load f)) sel)]>
                 (dir_of (st_fs st) (Str.video_id video)))]> (st_fs st) /\
    st_CHW st' = st_CHW st /\
    st_out st'
    = (if bool_decide (is_Some (st_fs st !! Str.video_id video))
       then st_out st
       else st_out st
            ++ [Str.video_id video +:+ " does not have audio information"])%list.
Proof. intros E_ok _ _. by apply extract_image_feats_body_ok. Qed.

Lemma video_features_of_one_video_witness :
  let E := Example.env Example.descending in
  let opt := Example.opt "resnet152" 4 in
  let st := initial_state ∅ in
  exists sel st',
    Np.select_frames_fl Np.fl64 [10; 11; 12] 4 = Ok sel /\
    Z.of_nat (length sel) = 4 /\
    extract_image_feats_body E opt resnet152 resnet152 "videos/clip.mp4" st
    = (Ok (), st') /\
    st_fs st'
    = <["clip" :=
          Dir (<["video.npy" := VideoNpy (map (fun f => f + 100) sel)]> ∅)]> ∅ /\
    st_CHW st' = (3, 224, 224)%nat /\
    st_out st' = ["clip does not have audio information"].
Proof.
  intros E opt st.
  apply (video_features_of_one_video E opt resnet152 resnet152
           "videos/clip.mp4" st ExampleFacts.env_descending_ok).
  - vm_compute. discriminate.
  - reflexivity.
  - intros f. vm_compute. discriminate.
  - intros name _. reflexivity.
  - reflexivity.
  - vm_compute. split; discriminate.
  - vm_compute. discriminate.
  - change (3 < 10 ^ 6)%nat.
    apply (Nat.lt_le_trans _ (10 ^ 1)); [simpl; lia|].
    apply Nat.pow_le_mono_r; lia.
Defined.

(** ** The audio stage, file by file *)

Section Loops.

Context {frame row : Type}.


End Loops.

Section AudioRun.

Context {frame pix row : Type}.
Variable E : Env frame pix row.
Hypothesis E_ok : env_ok E.
Variable opt : options.

(** Lines 128-130: afterwards the directory is there and empty. *)
Lemma fresh_directory_exact id (st : state frame row) :
  (forall f, st_fs st !! id <> Some (File f)) ->
  forall k : M frame row unit,
    (ex ← path_exists id;
     (if ex : bool then rmtree id else mret ());;
     mkdir id;; k) st
    = k (with_fs st (<[id := Dir ∅]> (st_fs st))).
Proof.
  intros Hfile k.
  destruct (st_fs st !! id) as [[f|d]|] eqn:Hid.
  - by destruct (Hfile f).
  - rewrite (bind_ok _ _ _ _ _ (path_exists_spec id st)).
    rewrite bool_decide_eq_true_2 by (rewrite Hid; eauto).
    rewrite (bind_ok _ _ _ _ _ (rmtree_ok _ _ _ Hid)).
    rewrite (bind_ok _ _ _ () (with_fs st (<[id := Dir ∅]> (st_fs st))));
      [done|].
    rewrite mkdir_ok by (cbn [st_fs with_fs]; apply lookup_delete_eq).
    cbn [st_fs with_fs]. by rewrite with_fs_with_fs, insert_delete_eq.
  - rewrite (bind_ok _ _ _ _ _ (path_exists_spec id st)).
    rewrite bool_decide_eq_false_2 by (rewrite Hid; by intros [? ?]).
    rewrite (bind_ok _ _ _ () st) by done.
    by rewrite (bind_ok _ _ _ _ _ (mkdir_ok _ _ Hid)).
Qed.

Lemma omap_fmap {B C D} (h : C -> option D) (f : B -> C) (l : list B) :
  omap h (f <$> l) = omap (fun x => h (f x)) l.
Proof.
  induction l as [|x l IH]; [done|]. csimpl. by rewrite IH.
Qed.

(** The segments of a track as files. *)
Lemma omap_seq_lookup {B C} (l : list B) (h : nat -> option C) (g : B -> C) :
  (forall k x, l !! k = Some x -> h k = Some (g x)) ->
  omap h (seq 0 (length l)) = map g l.
Proof.
  induction l as [|x l IH] using rev_ind; intros Hh; [done|].
  rewrite length_app. cbn [length]. rewrite Nat.add_1_r, seq_S.
  rewrite omap_app, map_app, IH.
  - cbn [omap list_omap]. simpl.
    rewrite (Hh (length l) x); [done|].
    by rewrite lookup_app_r, Nat.sub_diag by lia.
  - intros k y Hk. apply Hh. by apply lookup_app_l_Some.
Qed.

Lemma segments_read c sr (segs : list (list Z)) :
  let dsegs : gmap string (file frame row) :=
    foldl (fun d nf => <[nf.1 := nf.2]> d) ∅
          (imap (fun k s => (Fmt.wav_name k, WavFile (Sound c sr s))) segs) in
  read_all dsegs (entries E dsegs) ≡ₚ map (Sound c sr) segs.
Proof.
  intros dsegs.
  assert (Hnames :
    (imap (fun k s => (Fmt.wav_name k, WavFile (frame := frame) (row := row)
                                          (Sound c sr s))) segs).*1
    = map Fmt.wav_name (seq 0 (length segs)))
    by apply (imap_names Fmt.wav_name).
  assert (Hin : forall k s, segs !! k = Some s ->
            dsegs !! Fmt.wav_name k = Some (WavFile (Sound c sr s))).
  { intros k s Hk. apply write_lookup_in.
    - rewrite Hnames. apply FrameNames.wav_names_NoDup, NoDup_seq.
    - by apply (elem_of_lookup_imap_2
                  (fun k s => (Fmt.wav_name k,
                               WavFile (frame := frame) (row := row)
                                       (Sound c sr s)))). }
  assert (Hperm : entries E dsegs ≡ₚ map Fmt.wav_name (seq 0 (length segs))).
  { apply NoDup_Permutation.
    - apply NoDup_entries, E_ok.
    - apply FrameNames.wav_names_NoDup, NoDup_seq.
    - intros x. rewrite (elem_of_entries E E_ok). split.
      + intros [f Hf].
        destruct (decide (x ∈ map Fmt.wav_name (seq 0 (length segs))))
          as [Hx|Hx]; [done|].
        unfold dsegs in Hf. rewrite write_lookup_notin in Hf
          by by rewrite Hnames.
        by rewrite lookup_empty in Hf.
      + intros Hx. apply (list_elem_of_fmap Fmt.wav_name) in Hx as (k & -> & Hk).
        apply elem_of_seq in Hk.
        destruct (lookup_lt_is_Some_2 segs k) as [s Hs]; [lia|].
        rewrite (Hin k s Hs). eauto. }
  unfold read_all. rewrite Hperm.
  change (map Fmt.wav_name ?l) with (Fmt.wav_name <$> l).
  rewrite omap_fmap.
  rewrite (omap_seq_lookup segs _ (Sound c sr)); [done|].
  intros k s Hk. cbn. by rewrite (Hin k s Hk).
Qed.

Lemma ffmpeg_segment_exact audio name id w (st : state frame row) :
  st_fs st !! name = Some (File (WavFile w)) ->
  st_fs st !! id = Some (Dir ∅) ->
  ffmpeg_segment E audio name id st
  = (Ok (), with_fs st
      (<[id := Dir (foldl (fun d nf => <[nf.1 := nf.2]> d) ∅
                      (imap (fun k s => (Fmt.wav_name k,
                                         WavFile (Sound (channels w)
                                                        (sample_rate w) s)))
                            (ffmpeg_segments E audio w)))]> (st_fs st))).
Proof.
  intros Hname Hid. unfold ffmpeg_segment, get_fs. rewrite bind_unfold.
  cbn beta iota. rewrite Hname. by rewrite (ffmpeg_write_ok _ _ _ _ Hid).
Qed.

(** Lines 126-154 for one audio track of one channel: its directory is made
    anew and, at the end, holds [audio.npy] and nothing else. *)
Lemma split_audio_body_exact id w (st : state frame row) :
  identifier id ->
  channels w = 1 ->
  st_fs st !! (id +:+ ".wav") = Some (File (WavFile w)) ->
  (forall f, st_fs st !! id <> Some (File f)) ->
  exists m,
    split_audio_body E opt (id +:+ ".wav") st
    = (Ok (), with_fs st
        (<[id := Dir {[ "audio.npy" := AudioNpy m ]}]> (st_fs st))) /\
    audio_array E (output_dir opt +:+ "/" +:+ id +:+ ".wav") w m /\
    (ffmpeg_segments E (output_dir opt +:+ "/" +:+ id +:+ ".wav") w = [] ->
     m = Mat 0 20 []).
Proof.
  intros Hid Hmono Hwav Hfile.
  assert (Hvid : Str.video_id (output_dir opt +:+ "/" +:+ id +:+ ".wav") = id).
  { destruct Hid as [Hdot Hslash].
    by apply (StrFacts.video_id_stem (output_dir opt) id "wav"). }
  assert (Hne : id <> id +:+ ".wav").
  { intros Heq. apply (f_equal String.length) in Heq.
    rewrite NameFacts.length_app in Heq. simpl in Heq. lia. }
  set (path := output_dir opt +:+ "/" +:+ id +:+ ".wav") in *.
  set (st1 := with_fs st (<[id := Dir ∅]> (st_fs st))).
  assert (Hid1 : st_fs st1 !! id = Some (Dir ∅))
    by (cbn [st1 st_fs with_fs]; apply lookup_insert_eq).
  assert (Hwav1 : st_fs st1 !! (id +:+ ".wav") = Some (File (WavFile w)))
    by (cbn [st1 st_fs with_fs]; by rewrite lookup_insert_ne).
  pose proof (ffmpeg_segment_exact path _ _ _ _ Hwav1 Hid1) as Hseg.
  set (dsegs := foldl (fun d nf => <[nf.1 := nf.2]> d)
                  (∅ : gmap string (file frame row))
                  (imap (fun k s => (Fmt.wav_name k,
                                     WavFile (Sound (channels w)
                                                    (sample_rate w) s)))
                        (ffmpeg_segments E path w))) in *.
  set (st2 := with_fs st1 (<[id := Dir dsegs]> (st_fs st1))) in *.
  assert (Hid2 : st_fs st2 !! id = Some (Dir dsegs))
    by (cbn [st2 st_fs with_fs]; apply lookup_insert_eq).
  assert (Hsd : segment_dir dsegs).
  { apply segment_dir_write;
      [apply segment_dir_empty | by apply segment_files]. }
  destruct (read_loop E E_ok id dsegs (entries E dsegs) (zeros 20 0) st2 Hid2 Hsd)
    as (m0 & Hloop & Hcat & Hs0 & Hr0).
  { intros n Hn. by apply (elem_of_entries E E_ok). }
  { apply MatFacts.zeros_shaped. }
  { reflexivity. }
  pose proof (np_save_ok id "audio.npy" (AudioNpy (transpose m0)) st2 dsegs Hid2)
    as Hsave.
  set (d2 := <["audio.npy" := AudioNpy (transpose m0)]> dsegs) in *.
  set (st3 := with_fs st2 (<[id := Dir d2]> (st_fs st2))) in *.
  assert (Hid3 : st_fs st3 !! id = Some (Dir d2))
    by (cbn [st3 st_fs with_fs]; apply lookup_insert_eq).
  destruct (remove_suffix_exact E E_ok id ".wav" d2 st3 Hid3) as (d' & Hrm & Hd').
  pose proof (segments_read (channels w) (sample_rate w)
                (ffmpeg_segments E path w)) as Hperm.
  fold dsegs in Hperm.
  exists (transpose m0). split; [|split].
  - unfold split_audio_body. fold path. rewrite Hvid.
    rewrite (fresh_directory_exact id st Hfile). fold st1.
    rewrite (bind_ok _ _ _ _ _ Hseg).
    rewrite (bind_ok _ _ _ _ _ (listdir_ok E _ _ _ Hid2)).
    rewrite (bind_ok _ _ _ _ _ Hloop).
    rewrite (bind_ok _ _ _ _ _ Hsave).
    rewrite Hrm. f_equal.
    cbn [st3 st2 st1 st_fs with_fs]. rewrite !insert_insert_eq.
    unfold with_fs. cbn [st_out st_CHW]. f_equal. f_equal. f_equal.
    apply map_eq. intros k. rewrite Hd'.
    destruct (decide (k = "audio.npy")) as [->|Hk].
    + unfold d2. by rewrite lookup_insert_eq, lookup_singleton_eq.
    + rewrite lookup_singleton_ne by done.
      destruct (Str.endswith k ".wav") eqn:Hsuf; [done|].
      unfold d2. rewrite lookup_insert_ne by done.
      destruct (dsegs !! k) as [f|] eqn:Hf; [|done].
      destruct (Hsd k f Hf) as [_ Hw]. congruence.
  - assert (Hall : Forall (fun s => channels s = 1)
                          (read_all dsegs (entries E dsegs))).
    { rewrite Hperm. apply Forall_forall. intros s Hs.
      by apply (list_elem_of_fmap (Sound (channels w) (sample_rate w)))
        in Hs as (? & -> & _). }
    destruct (concat_segments_ok E E_ok (read_all dsegs (entries E dsegs))
                (zeros 20 0) Hall (MatFacts.zeros_shaped _ _) eq_refl)
      as (m1 & Hm1 & _ & _ & Hc).
    rewrite Hcat in Hm1. injection Hm1 as <-.
    split; [|split].
    + exists (read_all dsegs (entries E dsegs)). split; [exact Hperm|].
      unfold audio_features. by rewrite Hcat.
    + unfold shape. cbn [transpose nrows ncols]. rewrite Hc, Hr0. f_equal.
      cbn [zeros ncols]. rewrite Nat.add_0_l.
      apply sum_list_with_Permutation_proper.
      by apply Permutation_map.
    + by apply MatFacts.transpose_shaped.
  - intros Hnone. rewrite Hnone in Hperm. cbn [map] in Hperm.
    apply Permutation_nil_r in Hperm. rewrite Hperm in Hcat.
    cbn [concat_segments] in Hcat. by injection Hcat as <-.
Qed.





End AudioRun.

(** ** The whole run *)

Section MainRun.

Context {frame pix row : Type}.
Variable E : Env frame pix row.
Hypothesis E_ok : env_ok E.
Variable opt : options.








End MainRun.

(** ** The stages as a user sees them *)





(** X13. Lines 77-79 and 152-154: on an existing directory the loop that
    removes the transient files returns; it removes every file whose name
    ends with the suffix and keeps every other file as it is, so
    [audio.npy] and [video.npy] survive both loops. On a missing directory
    [os.listdir] raises and nothing changes. *)
Theorem transient_files_removed_exactly {frame pix row : Type}
    (E : Env frame pix row) (dst suffix : string) (st : state frame row) :
  env_ok E ->
  (forall d, st_fs st !! dst = Some (Dir d) ->
     exists d',
       remove_suffix E dst suffix st
       = (Ok (), with_fs st (<[dst := Dir d']> (st_fs st))) /\
       forall k, d' !! k = if Str.endswith k suffix then None else d !! k) /\
  (st_fs st !! dst = None ->
   remove_suffix E dst suffix st = (Raise OSError, st)).
Proof.
  intros E_ok. split.
  - intros d Hd. by apply remove_suffix_exact.
  - intros Hnone. unfold remove_suffix, listdir, get_fs.
    rewrite bind_unfold, bind_unfold. cbn beta iota. by rewrite Hnone.
Qed.

Lemma transient_files_removed_exactly_witness :
  let E := Example.env Example.descending in
  let d : gmap string (file Z Z) :=
    {[ "000001.jpg" := Jpg 10; "video.npy" := VideoNpy [110] ]} in
  let st := initial_state {[ "clip" := Dir d ]} in
  (exists d',
     remove_suffix E "clip" ".jpg" st
     = (Ok (), with_fs st (<["clip" := Dir d']> (st_fs st))) /\
     forall k, d' !! k = if Str.endswith k ".jpg" then None else d !! k) /\
  remove_suffix E "other" ".jpg" st = (Raise OSError, st).
Proof.
  intros E d st. split.
  - apply (transient_files_removed_exactly E "clip" ".jpg" st
             ExampleFacts.env_descending_ok). reflexivity.
  - apply (transient_files_removed_exactly E "other" ".jpg" st
             ExampleFacts.env_descending_ok). reflexivity.
Defined.



(** X15. Lines 64-66 in rounded arithmetic: when [np.linspace] rounds every
    result as float64 does (monotone rounding that keeps the integers up to
    [2^53] and enlarges a quotient by at most [2^-53] of it), the sampler
    still returns [n_frame_steps] indices, each within [0, L-1], in
    non-decreasing order. *)
Theorem frame_sampler_in_rounded_arithmetic (fl : Q -> Q) (L n_frame_steps : Z) :
  Np.float_like fl ->
  1 <= L <= 2 ^ 53 -> 1 <= n_frame_steps <= 2 ^ 53 ->
  exists indices,
    Np.sample_indices_fl fl L n_frame_steps = Ok indices /\
    Z.of_nat (length indices) = n_frame_steps /\
    Forall (fun k => 0 <= k <= L - 1) indices /\
    Sorted Z.le indices.
Proof. intros Hfl. by apply sample_indices_fl_spec. Qed.

Lemma frame_sampler_in_rounded_arithmetic_witness :
  exists indices,
    Np.sample_indices_fl (fun x => x) 3 5 = Ok indices /\
    Z.of_nat (length indices) = 5 /\
    Forall (fun k => 0 <= k <= 3 - 1) indices /\
    Sorted Z.le indices.
Proof.
  apply (frame_sampler_in_rounded_arithmetic (fun x => x) 3 5 exact_float_like);
    lia.
Defined.

(** ** Videos that share an identifier *)

Lemma takes_ok : env_ok Example.takes.
Proof.
  split.
  - apply ExampleFacts.ascending_perm.
  - reflexivity.
  - intros y sr. split; simpl.
    + reflexivity.
    + repeat constructor.
Qed.

(** X16. Lines 57-79 for two videos with one identifier, as
    [scene.take1.mp4] and [scene.take2.mp4] have (an identifier that is not
    empty, and a directory path [output_dir/<video_id>] without [*], [?]
    and [[]): both are processed in the same directory, and the
    [video.npy] of the second replaces that of the first; [output_dir]
    ends as if the first video had not been processed. *)
Theorem same_identifier_last_video_wins {frame pix row : Type}
    (E : Env frame pix row) (opt : options) (net load : encoder)
    (video1 video2 : string) (st : state frame row) :
  env_ok E ->
  Str.video_id video1 = Str.video_id video2 ->
  Str.video_id video1 <> EmptyString ->
  has_magic (output_dir opt +:+ "/" +:+ Str.video_id video1) = false ->
  (forall f, st_fs st !! Str.video_id video1 <> Some (File f)) ->
  no_suffix ".jpg" (st_fs st) (Str.video_id video1) ->
  st_CHW st = input_size load ->
  2 <= n_frame_steps opt <= 2 ^ 53 ->
  ffmpeg_frames E video1 <> [] ->
  (length (ffmpeg_frames E video1) < 10 ^ 6)%nat ->
  ffmpeg_frames E video2 <> [] ->
  (length (ffmpeg_frames E video2) < 10 ^ 6)%nat ->
  exists sel2 st1 st2,
    extract_image_feats_body E opt net load video1 st = (Ok (), st1) /\
    extract_image_feats_body E opt net load video2 st1 = (Ok (), st2) /\
    Np.select_frames_fl Np.fl64 (ffmpeg_frames E video2) (n_frame_steps opt)
    = Ok sel2 /\
    st_fs st2
    = <[Str.video_id video2 :=
          Dir (<["video.npy" :=
                   VideoNpy (map (fun f => embed E net (transform E load f)) sel2)]>
                 (dir_of (st_fs st) (Str.video_id video2)))]> (st_fs st).
Proof.
  intros E_ok Hid _ _ Hfile Hjpg Hchw Hn Hne1 Hlen1 Hne2 Hlen2.
  destruct (extract_image_feats_body_ok E E_ok opt net load video1 st
              Hfile Hjpg Hchw Hn Hne1 Hlen1)
    as (sel1 & st1 & _ & _ & Hrun1 & Hfs1 & Hchw1 & _).
  destruct (extract_image_feats_body_ok E E_ok opt net load video2 st1)
    as (sel2 & st2 & Hsel2 & _ & Hrun2 & Hfs2 & _); try done.
  - intros f. rewrite Hfs1, <- Hid. by rewrite lookup_insert_eq.
  - intros name Hsuf. rewrite Hfs1, <- Hid, dir_of_insert.
    rewrite lookup_insert_ne; [by apply Hjpg|].
    intros <-. discriminate.
  - congruence.
  - exists sel2, st1, st2. split; [done|]. split; [done|]. split; [done|].
    rewrite Hfs2, Hfs1, <- Hid.
    by rewrite dir_of_insert, !insert_insert_eq.
Qed.

Lemma same_identifier_last_video_wins_witness :
  let E := Example.takes in
  let opt := Example.opt "resnet152" 2 in
  let st := initial_state ∅ in
  exists sel2 st1 st2,
    extract_image_feats_body E opt resnet152 resnet152
      "videos/scene.take1.mp4" st = (Ok (), st1) /\
    extract_image_feats_body E opt resnet152 resnet152
      "videos/scene.take2.mp4" st1 = (Ok (), st2) /\
    Np.select_frames_fl Np.fl64 [20; 21] 2 = Ok sel2 /\
    st_fs st2
    = <["scene" :=
          Dir (<["video.npy" := VideoNpy (map (fun f => f + 100) sel2)]> ∅)]> ∅.
Proof.
  intros E opt st.
  apply (same_identifier_last_video_wins E opt resnet152 resnet152
           "videos/scene.take1.mp4" "videos/scene.take2.mp4" st takes_ok).
  - reflexivity.
  - vm_compute. discriminate.
  - reflexivity.
  - intros f. vm_compute. discriminate.
  - intros name _. reflexivity.
  - reflexivity.
  - change (2 <= 2 <= 2 ^ 53). lia.
  - vm_compute. discriminate.
  - change (3 < 10 ^ 6)%nat.
    apply (Nat.lt_le_trans _ (10 ^ 1)); [simpl; lia|].
    apply Nat.pow_le_mono_r; lia.
  - vm_compute. discriminate.
  - change (2 < 10 ^ 6)%nat.
    apply (Nat.lt_le_trans _ (10 ^ 1)); [simpl; lia|].
    apply Nat.pow_le_mono_r; lia.
Defined.

(** ** Runs that raise *)

Section Failures.

Context {frame pix row : Type}.
Variable E : Env frame pix row.
Hypothesis E_ok : env_ok E.

(** Steps that read the state and leave it as it is, whether they return
    or raise. *)
Lemma bind_reads {A B} (m : M frame row A) (k : A -> M frame row B) :
  (forall st, (m st).2 = st) -> (forall a st, (k a st).2 = st) ->
  forall st, ((m ≫= k) st).2 = st.
Proof.
  intros Hm Hk st. rewrite bind_unfold. specialize (Hm st).
  destruct (m st) as [[a|e] st1]; simpl in Hm; subst st1; [apply Hk|done].
Qed.

Lemma for_fold_reads {A B} (body : B -> A -> M frame row B) l acc :
  (forall acc x st, (body acc x st).2 = st) ->
  forall st, (for_fold l acc body st).2 = st.
Proof.
  intros Hbody. revert acc. induction l as [|x l IH]; intros acc; [done|].
  cbn [for_fold]. apply bind_reads; [apply Hbody|]. intros a. apply IH.
Qed.

Lemma load_image_fn_reads load dst name (st : state frame row) :
  (load_image_fn E load dst name st).2 = st.
Proof.
  unfold load_image_fn, get_fs. rewrite bind_unfold. cbn beta iota.
  destruct (st_fs st !! dst) as [[?|d]|]; [done| |done].
  by destruct (d !! name) as [[]|].
Qed.

Lemma wavfile_read_reads dst segment (st : state frame row) :
  (wavfile_read (frame := frame) (row := row) dst segment st).2 = st.
Proof.
  unfold wavfile_read, get_fs. rewrite bind_unfold. cbn beta iota.
  destruct (st_fs st !! dst) as [[?|d]|]; [done| |done].
  by destruct (d !! segment) as [[]|].
Qed.

(** Lines 68-70 write nothing. *)
Lemma fill_images_reads load dst image_list images (st : state frame row) :
  (fill_images E load dst image_list images st).2 = st.
Proof.
  unfold fill_images. apply for_fold_reads. intros acc i st0.
  apply bind_reads; [done|]. intros path.
  apply bind_reads; [apply load_image_fn_reads | done].
Qed.

(** Lines 137-148 write nothing. *)
Lemma read_segments_reads dst segments output (st : state frame row) :
  (for_fold segments output (fun output segment =>
     w ← wavfile_read dst segment;
     lift (accumulate_segment E output w)) st).2 = st.
Proof.
  apply for_fold_reads. intros acc s st0.
  apply bind_reads; [apply wavfile_read_reads | done].
Qed.

(** Lines 57-79 for a video whose processing raises: the exception comes
    from lines 66-73, before the frames are removed, and every frame
    ffmpeg decoded is still in the directory. *)
Lemma extract_image_feats_body_raises opt net load video e
    (st st' : state frame row) :
  (forall f, st_fs st !! Str.video_id video <> Some (File f)) ->
  extract_image_feats_body E opt net load video st = (Raise e, st') ->
  forall k f, ffmpeg_frames E video !! k = Some f ->
    dir_of (st_fs st') (Str.video_id video) !! Fmt.jpg_name (S k)
    = Some (Jpg f).
Proof.
  intros Hfile Hrun k f Hk. set (id := Str.video_id video) in *.
  destruct (ensure_directory id (id +:+ " does not have audio information")
              st Hfile) as (st0 & Hstart & Hid0 & _).
  set (d0 := dir_of (st_fs st) id) in *.
  set (d1 := foldl (fun d nf => <[nf.1 := nf.2]> d) d0
               (imap (fun k f => (Fmt.jpg_name (S k), Jpg f))
                     (ffmpeg_frames E video))).
  set (st1 := with_fs st0 (<[id := Dir d1]> (st_fs st0))).
  assert (Hex : extract_frame E video id st0 = (Ok (), st1)).
  { unfold extract_frame. by rewrite (ffmpeg_write_ok _ _ _ _ Hid0). }
  assert (Hid1 : st_fs st1 !! id = Some (Dir d1))
    by (cbn [st1 st_fs with_fs]; apply lookup_insert_eq).
  assert (Hglob : exists l, glob_jpg_sorted E id st1 = (Ok l, st1)).
  { unfold glob_jpg_sorted, get_fs. rewrite bind_unfold. cbn beta iota.
    rewrite Hid1. by eexists. }
  destruct Hglob as [l Hglob].
  assert (Hgoal : dir_of (st_fs st1) id !! Fmt.jpg_name (S k) = Some (Jpg f)).
  { cbn [st1 st_fs with_fs]. rewrite dir_of_insert.
    by apply frame_files_lookup. }
  unfold extract_image_feats_body in Hrun. fold id in Hrun.
  rewrite Hstart in Hrun.
  rewrite (bind_ok _ _ _ _ _ Hex), (bind_ok _ _ _ _ _ Hglob) in Hrun.
  rewrite bind_unfold in Hrun. unfold lift at 1 in Hrun.
  destruct (Np.select_frames_fl Np.fl64 l (n_frame_steps opt)) as [sel|e1];
    [|by injection Hrun as _ <-].
  rewrite bind_unfold in Hrun. unfold global_CHW at 1 in Hrun.
  destruct (st_CHW st1) as [[C H] W].
  rewrite bind_unfold in Hrun.
  pose proof (fill_images_reads load id sel
                (torch_zeros (zero_pix E) (length sel) C H W) st1) as Hfill.
  destruct (fill_images E load id sel _ st1) as [[images|e1] st2];
    simpl in Hfill; subst st2; [|by injection Hrun as _ <-].
  rewrite bind_unfold in Hrun. unfold lift at 1 in Hrun.
  destruct (forward E net (squeeze images)) as [feats|e1];
    [|by injection Hrun as _ <-].
  rewrite (bind_ok _ _ _ _ _ (np_save_ok id "video.npy" _ st1 d1 Hid1)) in Hrun.
  match type of Hrun with
  | remove_suffix _ _ _ ?s = _ =>
      destruct (remove_suffix_ok E E_ok id ".jpg"
                  (<["video.npy" := VideoNpy feats]> d1) s)
        as (d' & Hrm & _); [cbn [st_fs with_fs]; apply lookup_insert_eq|]
  end.
  rewrite Hrm in Hrun. discriminate.
Qed.

(** The segments of a track as files of its directory. *)
Lemma segment_files_lookup c sr (segs : list (list Z)) k s :
  segs !! k = Some s ->
  foldl (fun d nf => <[nf.1 := nf.2]> d) (∅ : gmap string (file frame row))
        (imap (fun k s => (Fmt.wav_name k, WavFile (Sound c sr s))) segs)
    !! Fmt.wav_name k = Some (WavFile (Sound c sr s)).
Proof.
  intros Hk. apply write_lookup_in.
  - rewrite (imap_names Fmt.wav_name).
    apply FrameNames.wav_names_NoDup, NoDup_seq.
  - by apply (elem_of_lookup_imap_2
                (fun k s => (Fmt.wav_name k,
                             WavFile (frame := frame) (row := row)
                                     (Sound c sr s)))).
Qed.

(** Lines 126-154 for a track whose processing raises: the exception comes
    from lines 139-148, before the segments are removed; the track is not
    a mono file, and every segment ffmpeg cut is still in the directory. *)
Lemma split_audio_body_raises opt id w e (st st' : state frame row) :
  identifier id ->
  st_fs st !! (id +:+ ".wav") = Some (File (WavFile w)) ->
  (forall f, st_fs st !! id <> Some (File f)) ->
  split_audio_body E opt (id +:+ ".wav") st = (Raise e, st') ->
  channels w <> 1 /\
  forall k s,
    ffmpeg_segments E (output_dir opt +:+ "/" +:+ id +:+ ".wav") w !! k
    = Some s ->
    dir_of (st_fs st') id !! Fmt.wav_name k
    = Some (WavFile (Sound (channels w) (sample_rate w) s)).
Proof.
  intros Hid Hwav Hfile Hrun. split.
  { intros Hmono.
    destruct (split_audio_body_exact E E_ok opt id w st Hid Hmono Hwav Hfile)
      as (m & Hok & _).
    rewrite Hok in Hrun. discriminate. }
  intros k s Hk.
  assert (Hvid : Str.video_id (output_dir opt +:+ "/" +:+ id +:+ ".wav") = id).
  { destruct Hid as [Hdot Hslash].
    by apply (StrFacts.video_id_stem (output_dir opt) id "wav"). }
  assert (Hne : id <> id +:+ ".wav").
  { intros Heq. apply (f_equal String.length) in Heq.
    rewrite NameFacts.length_app in Heq. simpl in Heq. lia. }
  set (path := output_dir opt +:+ "/" +:+ id +:+ ".wav") in *.
  set (st1 := with_fs st (<[id := Dir ∅]> (st_fs st))).
  assert (Hid1 : st_fs st1 !! id = Some (Dir ∅))
    by (cbn [st1 st_fs with_fs]; apply lookup_insert_eq).
  assert (Hwav1 : st_fs st1 !! (id +:+ ".wav") = Some (File (WavFile w)))
    by (cbn [st1 st_fs with_fs]; by rewrite lookup_insert_ne).
  pose proof (ffmpeg_segment_exact E path _ _ _ _ Hwav1 Hid1) as Hseg.
  set (dsegs := foldl (fun d nf => <[nf.1 := nf.2]> d)
                  (∅ : gmap string (file frame row))
                  (imap (fun k s => (Fmt.wav_name k,
                                     WavFile (Sound (channels w)
                                                    (sample_rate w) s)))
                        (ffmpeg_segments E path w))) in *.
  set (st2 := with_fs st1 (<[id := Dir dsegs]> (st_fs st1))) in *.
  assert (Hid2 : st_fs st2 !! id = Some (Dir dsegs))
    by (cbn [st2 st_fs with_fs]; apply lookup_insert_eq).
  unfold split_audio_body in Hrun. fold path in Hrun. rewrite Hvid in Hrun.
  rewrite (fresh_directory_exact id st Hfile) in Hrun. fold st1 in Hrun.
  rewrite (bind_ok _ _ _ _ _ Hseg) in Hrun.
  rewrite (bind_ok _ _ _ _ _ (listdir_ok E _ _ _ Hid2)) in Hrun.
  rewrite bind_unfold in Hrun.
  pose proof (read_segments_reads id (entries E dsegs) (zeros 20 0) st2)
    as Hread.
  destruct (for_fold (entries E dsegs) (zeros 20 0) _ st2) as [[m0|e1] st3];
    simpl in Hread; subst st3.
  - rewrite (bind_ok _ _ _ _ _ (np_save_ok id "audio.npy" _ st2 dsegs Hid2))
      in Hrun.
    match type of Hrun with
    | remove_suffix _ _ _ ?s = _ =>
        destruct (remove_suffix_ok E E_ok id ".wav"
                    (<["audio.npy" := AudioNpy (transpose m0)]> dsegs) s)
          as (d' & Hrm & _); [cbn [st_fs with_fs]; apply lookup_insert_eq|]
    end.
    rewrite Hrm in Hrun. discriminate.
  - injection Hrun as _ <-. rewrite (dir_of_Dir _ _ _ Hid2).
    by apply segment_files_lookup.
Qed.

End Failures.

(** ** Transient files, on both paths *)

(** C6, amended: when the processing of a video returns normally, no [.jpg]
    file is left in its directory, and when the processing of an audio file
    returns normally, no [.wav] file is left in its directory. When the
    processing of a video raises, every frame ffmpeg decoded is still in
    the directory of the video; when the processing of a track [<id>.wav]
    raises, every segment ffmpeg cut from it is still in the directory
    [<id>]. The two statements on a run that
    raises are for an identifier that is not empty and is not the name of
    a file of [output_dir], and, for a video, a directory path without
    [*], [?] and [[]. *)
Theorem transient_files_after_processing {frame pix row : Type}
    (E : Env frame pix row) (opt : options) :
  env_ok E ->
  (forall net load video st st',
     extract_image_feats_body E opt net load video st = (Ok (), st') ->
     no_suffix ".jpg" (st_fs st') (Str.video_id video)) /\
  (forall audio st st',
     split_audio_body E opt audio st = (Ok (), st') ->
     no_suffix ".wav" (st_fs st')
               (Str.video_id (output_dir opt +:+ "/" +:+ audio))) /\
  (forall net load video st e st',
     Str.video_id video <> EmptyString ->
     has_magic (output_dir opt +:+ "/" +:+ Str.video_id video) = false ->
     (forall f, st_fs st !! Str.video_id video <> Some (File f)) ->
     extract_image_feats_body E opt net load video st = (Raise e, st') ->
     forall k f, ffmpeg_frames E video !! k = Some f ->
       dir_of (st_fs st') (Str.video_id video) !! Fmt.jpg_name (S k)
       = Some (Jpg f)) /\
  (forall id w st e st',
     identifier id -> id <> EmptyString ->
     st_fs st !! (id +:+ ".wav") = Some (File (WavFile w)) ->
     (forall f, st_fs st !! id <> Some (File f)) ->
     split_audio_body E opt (id +:+ ".wav") st = (Raise e, st') ->
     forall k s,
       ffmpeg_segments E (output_dir opt +:+ "/" +:+ id +:+ ".wav") w !! k
       = Some s ->
       dir_of (st_fs st') id !! Fmt.wav_name k
       = Some (WavFile (Sound (channels w) (sample_rate w) s))).
Proof.
  intros E_ok. split; [|split; [|split]].
  - intros. by eapply extract_image_feats_body_removes.
  - intros. by eapply split_audio_body_removes.
  - intros net load video st e st' _ _ Hfile Hrun.
    by eapply extract_image_feats_body_raises.
  - intros id w st e st' Hid _ Hwav Hfile Hrun.
    by eapply (proj2 (split_audio_body_raises E E_ok opt id w e st st'
                        Hid Hwav Hfile Hrun)).
Qed.

Lemma transient_files_after_processing_witness :
  let E := Example.env Example.ascending in
  let opt := Example.opt "resnet152" 4 in
  let st1 := initial_state ∅ in
  let st2 := initial_state
               {[ "clip.wav" := File (WavFile (Wav 16000 [5; 6; 7])) ]} in
  let st3 := initial_state
               {[ "clip.wav" := File (WavFile (Sound 2 16000 [5; 6; 7])) ]} in
  no_suffix ".jpg"
    (st_fs (snd (extract_image_feats_body E opt resnet152 resnet152
                   "videos/clip.mp4" st1)))
    (Str.video_id "videos/clip.mp4") /\
  no_suffix ".wav"
    (st_fs (snd (split_audio_body E opt "clip.wav" st2)))
    (Str.video_id (output_dir opt +:+ "/" +:+ "clip.wav")) /\
  dir_of (st_fs (snd (extract_image_feats_body E (Example.opt "resnet152" 1)
                        resnet152 resnet152 "videos/clip.mp4" st1)))
         "clip" !! "000001.jpg" = Some (Jpg 10) /\
  dir_of (st_fs (snd (split_audio_body E (Example.stereo "resnet152" 4)
                        "clip.wav" st3)))
         "clip" !! "00.wav" = Some (WavFile (Sound 2 16000 [5; 6])).
Proof.
  intros E opt st1 st2 st3.
  destruct (transient_files_after_processing E opt
              ExampleFacts.env_ascending_ok) as (Hjpg & Hwav & _ & _).
  destruct (transient_files_after_processing E (Example.opt "resnet152" 1)
              ExampleFacts.env_ascending_ok) as (_ & _ & Hframes & _).
  destruct (transient_files_after_processing E (Example.stereo "resnet152" 4)
              ExampleFacts.env_ascending_ok) as (_ & _ & _ & Hsegs).
  split; [|split; [|split]].
  - apply (Hjpg resnet152 resnet152 "videos/clip.mp4" st1).
    rewrite (surjective_pairing (extract_image_feats_body _ _ _ _ _ _)).
    f_equal; vm_compute; reflexivity.
  - apply (Hwav "clip.wav" st2).
    rewrite (surjective_pairing (split_audio_body _ _ _ _)).
    f_equal; vm_compute; reflexivity.
  - assert (Hrun : extract_image_feats_body E (Example.opt "resnet152" 1)
                     resnet152 resnet152 "videos/clip.mp4" st1
                   = (Raise RuntimeError,
                      snd (extract_image_feats_body E
                             (Example.opt "resnet152" 1) resnet152 resnet152
                             "videos/clip.mp4" st1))).
    { rewrite (surjective_pairing (extract_image_feats_body _ _ _ _ _ _)).
      f_equal; vm_compute; reflexivity. }
    assert (Hne : Str.video_id "videos/clip.mp4" <> EmptyString)
      by (vm_compute; discriminate).
    assert (Hfile : forall f : file Z Z,
              st_fs st1 !! Str.video_id "videos/clip.mp4" <> Some (File f))
      by (intros f; vm_compute; discriminate).
    exact (Hframes resnet152 resnet152 "videos/clip.mp4" st1 RuntimeError _
             Hne eq_refl Hfile Hrun 0%nat 10 eq_refl).
  - assert (Hrun : split_audio_body E (Example.stereo "resnet152" 4)
                     "clip.wav" st3
                   = (Raise ValueError,
                      snd (split_audio_body E (Example.stereo "resnet152" 4)
                             "clip.wav" st3))).
    { rewrite (surjective_pairing (split_audio_body _ _ _ _)).
      f_equal; vm_compute; reflexivity. }
    assert (Hid : identifier "clip") by (split; reflexivity).
    assert (Hne : "clip" <> EmptyString) by discriminate.
    assert (Hfile : forall f : file Z Z, st_fs st3 !! "clip" <> Some (File f))
      by (intros f; vm_compute; discriminate).
    exact (Hsegs "clip" (Sound 2 16000 [5; 6; 7]) st3 ValueError _
             Hid Hne eq_refl Hfile Hrun 0%nat [5; 6] eq_refl).
Defined.

(** ** The saved audio features *)




(** ** The audio stage never writes a [video.npy] *)

Section NeverFeatures.

Context {frame pix row : Type}.
Variable E : Env frame pix row.

Local Notation "'keeps' m" :=
  (forall st : state frame row,
     no_video_npy (st_fs st) -> no_video_npy (st_fs (m st).2))
  (at level 10, m at level 9).

Lemma no_video_npy_insert_file (fs : gmap string (node frame row)) name f :
  no_video_npy fs -> no_video_npy (<[name := File f]> fs).
Proof.
  intros H id. specialize (H id). unfold dir_of in *.
  destruct (decide (id = name)) as [->|Hne].
  - by rewrite lookup_insert_eq.
  - by rewrite lookup_insert_ne.
Qed.




Lemma keeps_bind {A B} (m : M frame row A) (k : A -> M frame row B) :
  keeps m -> (forall a, keeps (k a)) -> keeps (m ≫= k).
Proof.
  intros Hm Hk st Hst. rewrite bind_unfold. specialize (Hm st Hst).
  destruct (m st) as [[a|e] st1]; [by apply Hk | done].
Qed.

Lemma keeps_for_each {A} (body : A -> M frame row unit) l :
  (forall x, keeps (body x)) -> keeps (for_each l body).
Proof.
  intros Hbody. induction l as [|x l IH]; [done|].
  cbn [for_each]. apply keeps_bind; [apply Hbody | by intros _].
Qed.

Lemma keeps_for_fold {A B} (body : B -> A -> M frame row B) l acc :
  (forall acc x, keeps (body acc x)) -> keeps (for_fold l acc body).
Proof.
  intros Hbody. revert acc. induction l as [|x l IH]; intros acc; [done|].
  cbn [for_fold]. apply keeps_bind; [apply Hbody | intros a; apply IH].
Qed.


Lemma keeps_print line : keeps (print (frame := frame) (row := row) line).
Proof. done. Qed.







Lemma keeps_ffmpeg_write_root name f :
  keeps (ffmpeg_write_root (frame := frame) (row := row) name f).
Proof.
  intros st Hst. rewrite ffmpeg_write_root_spec. cbn [snd].
  destruct (st_fs st !! name); [done|]. cbn [st_fs with_fs].
  by apply no_video_npy_insert_file.
Qed.



Lemma keeps_vToA opt video_names : keeps (vToA E opt video_names).
Proof.
  unfold vToA. apply keeps_bind; [apply keeps_print|]. intros _.
  apply keeps_bind.
  { intros st _ id. cbn [set_fs snd st_fs with_fs]. unfold dir_of.
    by rewrite lookup_empty. }
  intros _. apply keeps_for_each. intros video.
  destruct (ffmpeg_audio E _ _ _ _); [apply keeps_ffmpeg_write_root | done].
Qed.





End NeverFeatures.

(** ** An encoder that is not supported *)



